(** * CardStock: tenancy and transactional-integrity core

    A shallow embedding of the database layer of CardStock (the Supabase
    migrations): the tables of [20260209000001_initial_schema.sql], their
    constraints and triggers, the row-level-security policies as they stand
    after [20260209000004_perf_fixes.sql], and the SECURITY DEFINER
    procedures as last replaced ([20260209000002_security_fixes.sql] for
    [create_organization], [accept_invite], [mark_card_sold] and
    [soft_delete_organization]; [20260209000003_fix_leave_org.sql] for
    [leave_organization]).

    Conventions of the embedding:
    - a table is the list of its rows, in insertion order;
    - [UUID] and [TIMESTAMPTZ] are integers, [TEXT] is a string; a
      [DECIMAL] is a finite amount counted in hundredths (what an assignment
      to a column of scale two keeps of it), and an assignment to a
      [DECIMAL(10,2)] column raises when the amount needs more than ten
      digits;
    - a nullable column is an [option]; SQL comparisons on nullable values
      are three-valued ([option bool]) and [IF]/[WHERE] take only [Some true];
    - [auth.uid()] and [now()] are fixed for the duration of a statement or
      procedure call and are carried by a [session];
    - [gen_random_uuid()] draws from a counter kept in the database state;
    - the parameters of a procedure are not NULL, except the two declared
      [DEFAULT NULL];
    - a PL/pgSQL body is a computation in a state-and-exception monad whose
      state is the database {e at the point of the RAISE}; [transaction]
      restores the initial state when the body raised. *)

From Stdlib Require Import ZArith List String Ascii Bool Lia.
Import ListNotations.

Local Open Scope string_scope.
Local Open Scope list_scope.
Local Open Scope Z_scope.

(** ** Column types *)

Definition uuid := Z.
Definition timestamptz := Z.

(** [DECIMAL], as the parameter [p_sold_price] is declared: an amount of any
    size, in hundredths. *)
Definition decimal := Z.

(** [DECIMAL(10,2)], as [transactions.sold_price] and
    [inventory.selling_price] are declared: at most ten digits, two of them
    after the point, so an absolute value below [10^8], which is [10^10]
    hundredths. *)
Definition fits_decimal_10_2 (v : decimal) : bool := Z.abs v <? 10 ^ 10.

(** [CREATE TYPE role_enum AS ENUM ('owner', 'admin', 'member')] *)
Inductive role_enum := owner | admin | member.

(** [CREATE TYPE inventory_status_enum AS ENUM ('available', 'reserved', 'sold')] *)
Inductive inventory_status_enum := available | reserved | sold.

Definition role_eqb (a b : role_enum) : bool :=
  match a, b with
  | owner, owner | admin, admin | member, member => true
  | _, _ => false
  end.

Definition status_eqb (a b : inventory_status_enum) : bool :=
  match a, b with
  | available, available | reserved, reserved | sold, sold => true
  | _, _ => false
  end.

(** ** SQL values that may be NULL *)

Definition is_null {A} (x : option A) : bool :=
  match x with None => true | Some _ => false end.

Definition is_not_null {A} (x : option A) : bool := negb (is_null x).

Definition coalesce {A} (x y : option A) : option A :=
  match x with Some _ => x | None => y end.

(** [column = auth.uid()]: NULL when the caller is anonymous. *)
Definition sql_eq_uuid (col : uuid) (v : option uuid) : option bool :=
  option_map (fun u => col =? u) v.

(** [a != b] on nullable text. *)
Definition sql_neq_text (a b : option string) : option bool :=
  match a, b with
  | Some x, Some y => Some (negb (String.eqb x y))
  | _, _ => None
  end.

(** [a < b] where [a] is a nullable timestamp. *)
Definition sql_lt_ts (a : option timestamptz) (b : timestamptz) : option bool :=
  option_map (fun x => x <? b) a.

(** The truth test of [IF] and [WHERE]: NULL counts as false. *)
Definition is_true (b : option bool) : bool :=
  match b with Some true => true | _ => false end.

(** ** Text functions *)

(** [LOWER] on the ASCII range. *)
Definition lower_ascii (c : ascii) : ascii :=
  let n := nat_of_ascii c in
  if ((65 <=? n) && (n <=? 90))%nat then ascii_of_nat (n + 32) else c.

Fixpoint lower (s : string) : string :=
  match s with
  | EmptyString => EmptyString
  | String c s' => String (lower_ascii c) (lower s')
  end.

Definition in_range (lo hi : nat) (c : ascii) : bool :=
  let n := nat_of_ascii c in ((lo <=? n) && (n <=? hi))%nat.

(** The class [[a-z0-9]]. *)
Definition is_lower_alnum (c : ascii) : bool :=
  in_range 97 122 c || in_range 48 57 c.

(** The class [[a-z0-9-]]. *)
Definition is_slug_char (c : ascii) : bool :=
  is_lower_alnum c || Ascii.eqb c "-"%char.

(** [s ~ '^[a-z0-9][a-z0-9-]{0,30}[a-z0-9]$']: a first and a last
    character of [[a-z0-9]] around at most thirty of [[a-z0-9-]]. *)
Definition slug_format (s : string) : bool :=
  match list_ascii_of_string s with
  | [] => false
  | c :: rest =>
      is_lower_alnum c &&
      match rev rest with
      | [] => false
      | last :: middle =>
          is_lower_alnum last && forallb is_slug_char middle
          && (List.length middle <=? 30)%nat
      end
  end.

(** [slug NOT IN ('api', 'admin', 'www', 'app', 'auth', 'login', 'register')] *)
Definition reserved_slugs : list string :=
  ["api"; "admin"; "www"; "app"; "auth"; "login"; "register"].

Definition slug_not_reserved (s : string) : bool :=
  negb (existsb (String.eqb s) reserved_slugs).

Fixpoint drop_spaces (l : list ascii) : list ascii :=
  match l with
  | c :: l' => if Ascii.eqb c " "%char then drop_spaces l' else l
  | [] => []
  end.

(** [trim(name)]: strips spaces at both ends. *)
Definition trim (l : list ascii) : list ascii :=
  rev (drop_spaces (rev (drop_spaces l))).

(** [char_length(trim(name)) BETWEEN 1 AND 100] *)
Definition name_valid (name : string) : bool :=
  let n := List.length (trim (list_ascii_of_string name)) in
  ((1 <=? n) && (n <=? 100))%nat.

(** ** Rows *)

(** Modelled from the spec: [auth.users] belongs to the identity provider
    and is not declared by the migrations, which reference its [id] and
    read its [email]; a principal has an id and an email. The email is read
    through a scalar subquery, NULL when the row or the value is missing. *)
Record auth_user := mk_user {
  au_id : uuid;
  au_email : option string
}.

Record organization := mk_organization {
  org_id : uuid;
  org_name : string;
  org_slug : string;
  org_created_at : option timestamptz;
  org_updated_at : option timestamptz;
  org_deleted_at : option timestamptz
}.

Record membership := mk_membership {
  m_id : uuid;
  m_user_id : uuid;
  m_organization_id : uuid;
  m_role : role_enum;
  m_invited_by : option uuid;
  m_invited_at : option timestamptz;
  m_accepted_at : option timestamptz;
  m_created_at : option timestamptz
}.

(** [inventory]: the descriptive card columns other than [card_name]
    (set, number, rarity, language, foil, condition, grading, purchase
    price, notes) are read or written by no procedure, policy or trigger
    and are left out. *)
Record inventory_item := mk_inventory {
  inv_id : uuid;
  inv_organization_id : uuid;
  inv_card_name : string;
  inv_selling_price : option decimal;
  inv_status : inventory_status_enum;
  inv_created_at : option timestamptz;
  inv_created_by : option uuid;
  inv_updated_at : option timestamptz;
  inv_updated_by : option uuid;
  inv_deleted_at : option timestamptz
}.

Record transaction_row := mk_transaction {
  t_id : uuid;
  t_organization_id : uuid;
  t_inventory_id : uuid;
  t_sold_price : decimal;
  t_sold_at : option timestamptz;
  t_sold_by : option uuid;
  t_buyer_email : option string;
  t_buyer_notes : option string;
  t_created_at : option timestamptz
}.

Record invite := mk_invite {
  i_id : uuid;
  i_organization_id : uuid;
  i_email : string;
  i_role : role_enum;
  i_token : string;
  i_invited_by : option uuid;
  i_created_at : option timestamptz;
  i_expires_at : option timestamptz;
  i_accepted_at : option timestamptz;
  i_revoked_at : option timestamptz
}.

Record inventory_image := mk_image {
  img_id : uuid;
  img_inventory_id : uuid;
  img_organization_id : uuid;
  img_storage_path : string;
  img_is_primary : option bool;
  img_created_by : option uuid;
  img_created_at : option timestamptz
}.

(** [TG_OP] *)
Inductive tg_op := INSERT | UPDATE | DELETE.

(** [to_jsonb(OLD)] / [to_jsonb(NEW)]: the row itself, tagged by its table. *)
Inductive row_image :=
| OrganizationImage (r : organization)
| MembershipImage (r : membership)
| InventoryImage (r : inventory_item).

Record audit_entry := mk_audit {
  a_id : uuid;
  a_organization_id : uuid;
  a_table_name : string;
  a_record_id : uuid;
  a_action : tg_op;
  a_old_data : option row_image;
  a_new_data : option row_image;
  a_changed_by : option uuid;
  a_changed_at : option timestamptz
}.

(** ** The database *)

Record DB := mk_db {
  users : list auth_user;
  organizations : list organization;
  memberships : list membership;
  inventory : list inventory_item;
  transactions : list transaction_row;
  invites : list invite;
  audit_log : list audit_entry;
  next_uuid : uuid
}.

Definition set_organizations (l : list organization) (db : DB) : DB :=
  mk_db (users db) l (memberships db) (inventory db) (transactions db)
        (invites db) (audit_log db) (next_uuid db).

Definition set_memberships (l : list membership) (db : DB) : DB :=
  mk_db (users db) (organizations db) l (inventory db) (transactions db)
        (invites db) (audit_log db) (next_uuid db).

Definition set_inventory (l : list inventory_item) (db : DB) : DB :=
  mk_db (users db) (organizations db) (memberships db) l (transactions db)
        (invites db) (audit_log db) (next_uuid db).

Definition set_transactions (l : list transaction_row) (db : DB) : DB :=
  mk_db (users db) (organizations db) (memberships db) (inventory db) l
        (invites db) (audit_log db) (next_uuid db).

Definition set_invites (l : list invite) (db : DB) : DB :=
  mk_db (users db) (organizations db) (memberships db) (inventory db)
        (transactions db) l (audit_log db) (next_uuid db).

Definition set_audit_log (l : list audit_entry) (db : DB) : DB :=
  mk_db (users db) (organizations db) (memberships db) (inventory db)
        (transactions db) (invites db) l (next_uuid db).

Definition set_next_uuid (n : uuid) (db : DB) : DB :=
  mk_db (users db) (organizations db) (memberships db) (inventory db)
        (transactions db) (invites db) (audit_log db) n.

(** The caller's context: [auth.uid()] (NULL for an anonymous caller) and
    [now()], the start time of the current transaction. *)
Record session := mk_session {
  auth_uid : option uuid;
  now : timestamptz
}.

(** ** Errors

    One constructor per [RAISE EXCEPTION] of the procedures, and one per
    class of constraint failure, carrying the constraint's name. *)
Inductive error :=
| Invalid_slug_format
| Invalid_invite_token
| Invite_has_been_revoked
| Invite_has_already_been_used
| Invite_has_expired
| Organization_no_longer_exists
| Invite_is_for_a_different_email_address
| Inventory_item_not_found
| Card_is_not_available (status : inventory_status_enum)
| Access_denied
| Only_owners_can_delete_organizations
| Not_a_member_of_this_organization
| Cannot_leave_only_owner
| not_null_violation (column : string)
| check_violation (constraint : string)
| unique_violation (constraint : string)
| foreign_key_violation (constraint : string)
| row_security_violation (table : string)
| numeric_value_out_of_range (column : string).

(** ** The procedure monad *)

Definition M (A : Type) : Type := DB -> (error + A) * DB.

Definition ret {A} (a : A) : M A := fun db => (inr a, db).

Definition bind {A B} (c : M A) (k : A -> M B) : M B :=
  fun db =>
    match c db with
    | (inl e, db') => (inl e, db')
    | (inr a, db') => k a db'
    end.

Definition raise {A} (e : error) : M A := fun db => (inl e, db).

Definition get : M DB := fun db => (inr db, db).

Definition modify (f : DB -> DB) : M unit := fun db => (inr tt, f db).

(** [IF NOT ok THEN RAISE e] for a constraint. *)
Definition require (ok : bool) (e : error) : M unit :=
  if ok then ret tt else raise e.

Declare Scope proc_scope.
Delimit Scope proc_scope with proc.
Notation "x <- c ;; k" := (bind c (fun x => k))
  (at level 61, c at next level, right associativity) : proc_scope.
Notation "c ;; k" := (bind c (fun _ => k))
  (at level 61, right associativity) : proc_scope.
Local Open Scope proc_scope.

(** A call commits the state its body reached, or rolls back to the state
    it started from when the body raised. *)
Definition transaction {A} (body : M A) (db : DB) : (error + A) * DB :=
  match body db with
  | (inl e, _) => (inl e, db)
  | (inr a, db') => (inr a, db')
  end.

(** [FOR EACH ROW] *)
Fixpoint for_each {A} (f : A -> M unit) (l : list A) : M unit :=
  match l with
  | [] => ret tt
  | x :: l' => f x ;; for_each f l'
  end.

Definition gen_random_uuid : M uuid :=
  fun db => (inr (next_uuid db), set_next_uuid (next_uuid db + 1) db).

(** ** Foreign keys and keys *)

Definition user_exists (db : DB) (u : uuid) : bool :=
  existsb (fun r => au_id r =? u) (users db).

(** A nullable [REFERENCES auth.users(id)] column. *)
Definition fk_user (db : DB) (u : option uuid) : bool :=
  match u with None => true | Some u => user_exists db u end.

Definition org_exists (db : DB) (o : uuid) : bool :=
  existsb (fun r => org_id r =? o) (organizations db).

Definition item_exists (db : DB) (i : uuid) : bool :=
  existsb (fun r => inv_id r =? i) (inventory db).

(** Rows of other tables that reference organization [o]. *)
Definition org_referenced (db : DB) (o : uuid) : bool :=
  existsb (fun r => m_organization_id r =? o) (memberships db)
  || existsb (fun r => inv_organization_id r =? o) (inventory db)
  || existsb (fun r => t_organization_id r =? o) (transactions db)
  || existsb (fun r => i_organization_id r =? o) (invites db)
  || existsb (fun r => a_organization_id r =? o) (audit_log db).

Definition item_referenced (db : DB) (i : uuid) : bool :=
  existsb (fun r => t_inventory_id r =? i) (transactions db).

(** [accepted_at IS NULL AND revoked_at IS NULL]: the predicate of the
    partial index [idx_invites_org_email_pending]. *)
Definition in_pending_index (i : invite) : bool :=
  is_null (i_accepted_at i) && is_null (i_revoked_at i).

(** ** Audit triggers *)

Definition image_id (r : row_image) : uuid :=
  match r with
  | OrganizationImage o => org_id o
  | MembershipImage m => m_id m
  | InventoryImage i => inv_id i
  end.

(** The [organization_id] column of a row, for the tables that have one. *)
Definition image_organization_id (r : row_image) : option uuid :=
  match r with
  | OrganizationImage _ => None
  | MembershipImage m => Some (m_organization_id m)
  | InventoryImage i => Some (inv_organization_id i)
  end.

(** [INSERT INTO audit_log (organization_id, table_name, record_id, action,
    old_data, new_data, changed_by) VALUES (...)] *)
Definition insert_audit_log (ss : session)
    (organization_id : option uuid) (table_name : string)
    (record_id : option uuid) (action : tg_op)
    (old_data new_data : option row_image) (changed_by : option uuid) : M unit :=
  id <- gen_random_uuid ;;
  db <- get ;;
  match organization_id, record_id with
  | None, _ => raise (not_null_violation "organization_id")
  | _, None => raise (not_null_violation "record_id")
  | Some o, Some r =>
      require (negb (existsb (fun a => a_id a =? id) (audit_log db)))
              (unique_violation "audit_log_pkey") ;;
      require (org_exists db o)
              (foreign_key_violation "audit_log_organization_id_fkey") ;;
      require (fk_user db changed_by)
              (foreign_key_violation "audit_log_changed_by_fkey") ;;
      modify (fun db =>
        set_audit_log
          (audit_log db ++
           [mk_audit id o table_name r action old_data new_data changed_by
                     (Some (now ss))]) db)
  end.

Definition old_image (TG_OP : tg_op) (OLD : option row_image) : option row_image :=
  match TG_OP with UPDATE | DELETE => OLD | INSERT => None end.

Definition new_image (TG_OP : tg_op) (NEW : option row_image) : option row_image :=
  match TG_OP with INSERT | UPDATE => NEW | DELETE => None end.

(** [audit_trigger()], the generic trigger of tables with an
    [organization_id] column. *)
Definition audit_trigger (ss : session) (TG_TABLE_NAME : string) (TG_OP : tg_op)
    (OLD NEW : option row_image) : M unit :=
  insert_audit_log ss
    (coalesce (match NEW with Some r => image_organization_id r | None => None end)
              (match OLD with Some r => image_organization_id r | None => None end))
    TG_TABLE_NAME
    (coalesce (option_map image_id NEW) (option_map image_id OLD))
    TG_OP
    (old_image TG_OP OLD)
    (new_image TG_OP NEW)
    (auth_uid ss).

(** [audit_trigger_organizations()]: the organization's own id stands for
    the [organization_id]. *)
Definition audit_trigger_organizations (ss : session) (TG_TABLE_NAME : string)
    (TG_OP : tg_op) (OLD NEW : option row_image) : M unit :=
  insert_audit_log ss
    (coalesce (option_map image_id NEW) (option_map image_id OLD))
    TG_TABLE_NAME
    (coalesce (option_map image_id NEW) (option_map image_id OLD))
    TG_OP
    (old_image TG_OP OLD)
    (new_image TG_OP NEW)
    (auth_uid ss).

(** ** Row-level data manipulation

    Each primitive is one row of an [INSERT], [UPDATE] or [DELETE]: the
    BEFORE triggers, the CHECK constraints, the unique indexes, the foreign
    keys, and then the AFTER triggers of the table. An [UPDATE] or [DELETE]
    addresses its row by primary key and does nothing when no row has it. *)

(** *** organizations *)

(** [trg_organizations_updated_at] *)
Definition update_updated_at_org (ss : session) (NEW : organization) : organization :=
  mk_organization (org_id NEW) (org_name NEW) (org_slug NEW)
                  (org_created_at NEW) (Some (now ss)) (org_deleted_at NEW).

Definition check_organization (db : DB) (skip : uuid -> bool) (NEW : organization) : M unit :=
  require (name_valid (org_name NEW)) (check_violation "name_valid") ;;
  require (slug_format (org_slug NEW)) (check_violation "slug_format") ;;
  require (slug_not_reserved (org_slug NEW)) (check_violation "slug_not_reserved") ;;
  require (negb (existsb (fun o => negb (skip (org_id o)) && (org_id o =? org_id NEW))
                         (organizations db)))
          (unique_violation "organizations_pkey") ;;
  require (negb (existsb (fun o => negb (skip (org_id o))
                                   && String.eqb (org_slug o) (org_slug NEW))
                         (organizations db)))
          (unique_violation "organizations_slug_key").

(** [INSERT INTO organizations (name, slug) VALUES (name, slug) RETURNING *] *)
Definition insert_organization (ss : session) (name slug : string) : M organization :=
  id <- gen_random_uuid ;;
  let NEW := mk_organization id name slug (Some (now ss)) (Some (now ss)) None in
  db <- get ;;
  check_organization db (fun _ => false) NEW ;;
  modify (fun db => set_organizations (organizations db ++ [NEW]) db) ;;
  audit_trigger_organizations ss "organizations" INSERT None (Some (OrganizationImage NEW)) ;;
  ret NEW.

(** [UPDATE organizations SET ... WHERE id = id RETURNING *] *)
Definition update_organization (ss : session) (id : uuid)
    (set : organization -> organization) : M (option organization) :=
  db <- get ;;
  match find (fun o => org_id o =? id) (organizations db) with
  | None => ret None
  | Some OLD =>
      let NEW := update_updated_at_org ss (set OLD) in
      check_organization db (fun k => k =? id) NEW ;;
      require ((org_id NEW =? id) || negb (org_referenced db id))
              (foreign_key_violation "organization_id_fkey") ;;
      modify (fun db =>
        set_organizations
          (map (fun o => if org_id o =? id then NEW else o) (organizations db)) db) ;;
      audit_trigger_organizations ss "organizations" UPDATE
        (Some (OrganizationImage OLD)) (Some (OrganizationImage NEW)) ;;
      ret (Some NEW)
  end.

(** *** memberships *)

Definition check_membership (db : DB) (skip : uuid -> bool) (NEW : membership) : M unit :=
  require (negb (existsb (fun m => negb (skip (m_id m)) && (m_id m =? m_id NEW))
                         (memberships db)))
          (unique_violation "memberships_pkey") ;;
  require (negb (existsb (fun m => negb (skip (m_id m))
                                   && (m_user_id m =? m_user_id NEW)
                                   && (m_organization_id m =? m_organization_id NEW))
                         (memberships db)))
          (unique_violation "memberships_user_id_organization_id_key") ;;
  require (user_exists db (m_user_id NEW))
          (foreign_key_violation "memberships_user_id_fkey") ;;
  require (org_exists db (m_organization_id NEW))
          (foreign_key_violation "memberships_organization_id_fkey") ;;
  require (fk_user db (m_invited_by NEW))
          (foreign_key_violation "memberships_invited_by_fkey").

(** [INSERT INTO memberships (user_id, organization_id, role, invited_by,
    invited_at, accepted_at) VALUES (...) RETURNING *] *)
Definition insert_membership (ss : session) (user_id : option uuid)
    (organization_id : uuid) (role : role_enum) (invited_by : option uuid)
    (invited_at accepted_at : option timestamptz) : M membership :=
  id <- gen_random_uuid ;;
  match user_id with
  | None => raise (not_null_violation "user_id")
  | Some u =>
      let NEW := mk_membership id u organization_id role invited_by invited_at
                               accepted_at (Some (now ss)) in
      db <- get ;;
      check_membership db (fun _ => false) NEW ;;
      modify (fun db => set_memberships (memberships db ++ [NEW]) db) ;;
      audit_trigger ss "memberships" INSERT None (Some (MembershipImage NEW)) ;;
      ret NEW
  end.

(** [UPDATE memberships SET ... WHERE id = id] *)
Definition update_membership (ss : session) (id : uuid)
    (set : membership -> membership) : M (option membership) :=
  db <- get ;;
  match find (fun m => m_id m =? id) (memberships db) with
  | None => ret None
  | Some OLD =>
      let NEW := set OLD in
      check_membership db (fun k => k =? id) NEW ;;
      modify (fun db =>
        set_memberships
          (map (fun m => if m_id m =? id then NEW else m) (memberships db)) db) ;;
      audit_trigger ss "memberships" UPDATE
        (Some (MembershipImage OLD)) (Some (MembershipImage NEW)) ;;
      ret (Some NEW)
  end.

(** [DELETE FROM memberships WHERE id = id] *)
Definition delete_membership (ss : session) (id : uuid) : M unit :=
  db <- get ;;
  match find (fun m => m_id m =? id) (memberships db) with
  | None => ret tt
  | Some OLD =>
      modify (fun db =>
        set_memberships (filter (fun m => negb (m_id m =? id)) (memberships db)) db) ;;
      audit_trigger ss "memberships" DELETE (Some (MembershipImage OLD)) None
  end.

(** *** inventory *)

(** [trg_inventory_updated_at] *)
Definition update_updated_at_inv (ss : session) (NEW : inventory_item) : inventory_item :=
  mk_inventory (inv_id NEW) (inv_organization_id NEW) (inv_card_name NEW)
               (inv_selling_price NEW) (inv_status NEW) (inv_created_at NEW)
               (inv_created_by NEW) (Some (now ss)) (inv_updated_by NEW)
               (inv_deleted_at NEW).

Definition check_inventory (db : DB) (skip : uuid -> bool) (NEW : inventory_item) : M unit :=
  require (negb (existsb (fun r => negb (skip (inv_id r)) && (inv_id r =? inv_id NEW))
                         (inventory db)))
          (unique_violation "inventory_pkey") ;;
  require (org_exists db (inv_organization_id NEW))
          (foreign_key_violation "inventory_organization_id_fkey") ;;
  require (fk_user db (inv_created_by NEW))
          (foreign_key_violation "inventory_created_by_fkey") ;;
  require (fk_user db (inv_updated_by NEW))
          (foreign_key_violation "inventory_updated_by_fkey").

(** The assignment of a price to [selling_price DECIMAL(10,2)]: NULL is
    stored as it is, an amount has to fit. *)
Definition stores_selling_price (v : option decimal) : bool :=
  match v with None => true | Some x => fits_decimal_10_2 x end.

Definition same_price (a b : option decimal) : bool :=
  match a, b with
  | None, None => true
  | Some x, Some y => x =? y
  | _, _ => false
  end.

(** [INSERT INTO inventory VALUES (NEW)] *)
Definition insert_inventory (ss : session) (NEW : inventory_item) : M unit :=
  require (stores_selling_price (inv_selling_price NEW))
          (numeric_value_out_of_range "selling_price") ;;
  db <- get ;;
  check_inventory db (fun _ => false) NEW ;;
  modify (fun db => set_inventory (inventory db ++ [NEW]) db) ;;
  audit_trigger ss "inventory" INSERT None (Some (InventoryImage NEW)).

(** [UPDATE inventory SET ... WHERE id = id]; a price that the [SET] list
    changes is assigned to the column, one it leaves as stored is not. *)
Definition update_inventory (ss : session) (id : uuid)
    (set : inventory_item -> inventory_item) : M (option inventory_item) :=
  db <- get ;;
  match find (fun r => inv_id r =? id) (inventory db) with
  | None => ret None
  | Some OLD =>
      require (same_price (inv_selling_price OLD) (inv_selling_price (set OLD))
               || stores_selling_price (inv_selling_price (set OLD)))
              (numeric_value_out_of_range "selling_price") ;;
      let NEW := update_updated_at_inv ss (set OLD) in
      check_inventory db (fun k => k =? id) NEW ;;
      require ((inv_id NEW =? id) || negb (item_referenced db id))
              (foreign_key_violation "transactions_inventory_id_fkey") ;;
      modify (fun db =>
        set_inventory
          (map (fun r => if inv_id r =? id then NEW else r) (inventory db)) db) ;;
      audit_trigger ss "inventory" UPDATE
        (Some (InventoryImage OLD)) (Some (InventoryImage NEW)) ;;
      ret (Some NEW)
  end.

(** [DELETE FROM inventory WHERE id = id]; the transactions of the item go
    with it ([ON DELETE CASCADE]). *)
Definition delete_inventory (ss : session) (id : uuid) : M unit :=
  db <- get ;;
  match find (fun r => inv_id r =? id) (inventory db) with
  | None => ret tt
  | Some OLD =>
      modify (fun db =>
        set_inventory (filter (fun r => negb (inv_id r =? id)) (inventory db)) db) ;;
      modify (fun db =>
        set_transactions
          (filter (fun t => negb (t_inventory_id t =? id)) (transactions db)) db) ;;
      audit_trigger ss "inventory" DELETE (Some (InventoryImage OLD)) None
  end.

(** *** transactions *)

(** [INSERT INTO transactions (organization_id, inventory_id, sold_price,
    sold_by, buyer_email, buyer_notes) VALUES (...) RETURNING *]; the price
    is assigned to the column [sold_price DECIMAL(10,2) NOT NULL], which
    raises 'numeric field overflow' when it does not fit. *)
Definition insert_transaction (ss : session) (organization_id inventory_id : uuid)
    (sold_price : decimal) (sold_by : option uuid)
    (buyer_email buyer_notes : option string) : M transaction_row :=
  id <- gen_random_uuid ;;
  require (fits_decimal_10_2 sold_price)
          (numeric_value_out_of_range "sold_price") ;;
  let NEW := mk_transaction id organization_id inventory_id sold_price
                            (Some (now ss)) sold_by buyer_email buyer_notes
                            (Some (now ss)) in
  db <- get ;;
  require (negb (existsb (fun t => t_id t =? id) (transactions db)))
          (unique_violation "transactions_pkey") ;;
  require (org_exists db organization_id)
          (foreign_key_violation "transactions_organization_id_fkey") ;;
  require (item_exists db inventory_id)
          (foreign_key_violation "transactions_inventory_id_fkey") ;;
  require (fk_user db sold_by)
          (foreign_key_violation "transactions_sold_by_fkey") ;;
  modify (fun db => set_transactions (transactions db ++ [NEW]) db) ;;
  ret NEW.

(** *** invites *)

Definition check_invite (db : DB) (skip : uuid -> bool) (NEW : invite) : M unit :=
  require (negb (existsb (fun i => negb (skip (i_id i)) && (i_id i =? i_id NEW))
                         (invites db)))
          (unique_violation "invites_pkey") ;;
  require (negb (existsb (fun i => negb (skip (i_id i))
                                   && String.eqb (i_token i) (i_token NEW))
                         (invites db)))
          (unique_violation "invites_token_key") ;;
  require (negb (in_pending_index NEW &&
                 existsb (fun i => negb (skip (i_id i)) && in_pending_index i
                                   && (i_organization_id i =? i_organization_id NEW)
                                   && String.eqb (i_email i) (i_email NEW))
                         (invites db)))
          (unique_violation "idx_invites_org_email_pending") ;;
  require (org_exists db (i_organization_id NEW))
          (foreign_key_violation "invites_organization_id_fkey") ;;
  require (fk_user db (i_invited_by NEW))
          (foreign_key_violation "invites_invited_by_fkey").

(** [INSERT INTO invites VALUES (NEW)] *)
Definition insert_invite (NEW : invite) : M unit :=
  db <- get ;;
  check_invite db (fun _ => false) NEW ;;
  modify (fun db => set_invites (invites db ++ [NEW]) db).

(** [UPDATE invites SET ... WHERE id = id]: the SET clause is applied to
    every row the WHERE clause selects, each new row being checked against
    the rows the statement leaves alone. *)
Definition update_invite (id : uuid) (set : invite -> invite) : M unit :=
  db <- get ;;
  for_each (fun OLD => check_invite db (fun k => k =? id) (set OLD))
           (filter (fun i => i_id i =? id) (invites db)) ;;
  modify (fun db =>
    set_invites (map (fun i => if i_id i =? id then set i else i) (invites db)) db).

(** [DELETE FROM invites WHERE id = id] *)
Definition delete_invite (id : uuid) : M unit :=
  modify (fun db => set_invites (filter (fun i => negb (i_id i =? id)) (invites db)) db).

(** ** Privileged procedures (SECURITY DEFINER: row-level security is bypassed) *)

(** [auth.users.email] of a principal; NULL when the principal is unknown
    or has no email. *)
Definition user_email (db : DB) (u : option uuid) : option string :=
  match u with
  | None => None
  | Some u =>
      match find (fun r => au_id r =? u) (users db) with
      | Some r => au_email r
      | None => None
      end
  end.

(** [user_id = auth.uid()] *)
Definition is_caller (ss : session) (user_id : uuid) : bool :=
  is_true (sql_eq_uuid user_id (auth_uid ss)).

(** [create_organization(p_name, p_slug)] *)
Definition create_organization (ss : session) (p_name p_slug : string) : M organization :=
  if negb (slug_format p_slug) then raise Invalid_slug_format
  else
    v_org <- insert_organization ss p_name p_slug ;;
    insert_membership ss (auth_uid ss) (org_id v_org) owner None None (Some (now ss)) ;;
    ret v_org.

Definition set_accepted_at (t : option timestamptz) (i : invite) : invite :=
  mk_invite (i_id i) (i_organization_id i) (i_email i) (i_role i) (i_token i)
            (i_invited_by i) (i_created_at i) (i_expires_at i) t (i_revoked_at i).

Definition set_revoked_at (t : option timestamptz) (i : invite) : invite :=
  mk_invite (i_id i) (i_organization_id i) (i_email i) (i_role i) (i_token i)
            (i_invited_by i) (i_created_at i) (i_expires_at i) (i_accepted_at i) t.

(** [accept_invite(p_token)] *)
Definition accept_invite (ss : session) (p_token : string) : M membership :=
  db <- get ;;
  match find (fun i => String.eqb (i_token i) p_token) (invites db) with
  | None => raise Invalid_invite_token
  | Some v_invite =>
      if is_not_null (i_revoked_at v_invite) then raise Invite_has_been_revoked
      else if is_not_null (i_accepted_at v_invite) then raise Invite_has_already_been_used
      else if is_true (sql_lt_ts (i_expires_at v_invite) (now ss)) then raise Invite_has_expired
      else if existsb (fun o => (org_id o =? i_organization_id v_invite)
                                && is_not_null (org_deleted_at o))
                      (organizations db)
      then raise Organization_no_longer_exists
      else if is_true (sql_neq_text (option_map lower (user_email db (auth_uid ss)))
                                    (Some (lower (i_email v_invite))))
      then raise Invite_is_for_a_different_email_address
      else
        v_membership <-
          insert_membership ss (auth_uid ss) (i_organization_id v_invite)
            (i_role v_invite) (i_invited_by v_invite) (i_created_at v_invite)
            (Some (now ss)) ;;
        update_invite (i_id v_invite) (set_accepted_at (Some (now ss))) ;;
        ret v_membership
  end.

Definition set_sold (ss : session) (r : inventory_item) : inventory_item :=
  mk_inventory (inv_id r) (inv_organization_id r) (inv_card_name r)
               (inv_selling_price r) sold (inv_created_at r) (inv_created_by r)
               (Some (now ss)) (auth_uid ss) (inv_deleted_at r).

(** [mark_card_sold(p_inventory_id, p_sold_price, p_buyer_email, p_buyer_notes)] *)
Definition mark_card_sold (ss : session) (p_inventory_id : uuid)
    (p_sold_price : decimal) (p_buyer_email p_buyer_notes : option string)
    : M transaction_row :=
  db <- get ;;
  match find (fun r => (inv_id r =? p_inventory_id) && is_null (inv_deleted_at r))
             (inventory db) with
  | None => raise Inventory_item_not_found
  | Some r =>
      let v_org_id := inv_organization_id r in
      let v_status := inv_status r in
      if negb (status_eqb v_status available) then raise (Card_is_not_available v_status)
      else if negb (existsb (fun m => is_caller ss (m_user_id m)
                                      && (m_organization_id m =? v_org_id))
                            (memberships db))
      then raise Access_denied
      else
        update_inventory ss p_inventory_id (set_sold ss) ;;
        v_transaction <-
          insert_transaction ss v_org_id p_inventory_id p_sold_price (auth_uid ss)
                             p_buyer_email p_buyer_notes ;;
        ret v_transaction
  end.

Definition set_deleted_at (t : option timestamptz) (o : organization) : organization :=
  mk_organization (org_id o) (org_name o) (org_slug o) (org_created_at o)
                  (org_updated_at o) t.

(** [soft_delete_organization(p_org_id)] *)
Definition soft_delete_organization (ss : session) (p_org_id : uuid)
    : M (option organization) :=
  db <- get ;;
  if negb (existsb (fun m => is_caller ss (m_user_id m)
                             && (m_organization_id m =? p_org_id)
                             && role_eqb (m_role m) owner)
                   (memberships db))
  then raise Only_owners_can_delete_organizations
  else
    v_org <- update_organization ss p_org_id (set_deleted_at (Some (now ss))) ;;
    ret v_org.

(** [SELECT COUNT( * ) FROM memberships WHERE organization_id = p_org_id AND role = 'owner'] *)
Definition owner_count (db : DB) (p_org_id : uuid) : nat :=
  List.length (filter (fun m => (m_organization_id m =? p_org_id)
                                && role_eqb (m_role m) owner)
                      (memberships db)).

(** [leave_organization(p_org_id)] *)
Definition leave_organization (ss : session) (p_org_id : uuid) : M unit :=
  db <- get ;;
  match find (fun m => is_caller ss (m_user_id m) && (m_organization_id m =? p_org_id))
             (memberships db) with
  | None => raise Not_a_member_of_this_organization
  | Some m =>
      let v_my_membership_id := m_id m in
      let v_role := m_role m in
      (if role_eqb v_role owner then
         let v_owner_count := owner_count db p_org_id in
         if (v_owner_count <=? 1)%nat then raise Cannot_leave_only_owner else ret tt
       else ret tt) ;;
      delete_membership ss v_my_membership_id
  end.

(** ** Row-level security *)

(** [get_user_org_ids()] *)
Definition get_user_org_ids (ss : session) (db : DB) : list uuid :=
  map m_organization_id
    (filter (fun m =>
               is_caller ss (m_user_id m)
               && existsb (fun o => (org_id o =? m_organization_id m)
                                    && is_null (org_deleted_at o))
                          (organizations db))
            (memberships db)).

(** [is_org_owner(org_id)] *)
Definition is_org_owner (ss : session) (db : DB) (org : uuid) : bool :=
  existsb (fun m => is_caller ss (m_user_id m) && (m_organization_id m =? org)
                    && role_eqb (m_role m) owner)
          (memberships db).

(** [is_org_admin_or_owner(org_id)] *)
Definition is_org_admin_or_owner (ss : session) (db : DB) (org : uuid) : bool :=
  existsb (fun m => is_caller ss (m_user_id m) && (m_organization_id m =? org)
                    && (role_eqb (m_role m) owner || role_eqb (m_role m) admin))
          (memberships db).

(** [x IN (SELECT ...)] *)
Definition uuid_in (x : uuid) (l : list uuid) : bool := existsb (Z.eqb x) l.

(** [SELECT organization_id FROM public.memberships WHERE user_id = auth.uid()]
    written inside a policy: the subquery runs with the caller's rights, so
    it sees the membership rows that "Members view" on [memberships] shows
    the caller, those of the organizations in [get_user_org_ids()]. *)
Definition member_org_ids (ss : session) (db : DB) : list uuid :=
  map m_organization_id
    (filter (fun m => uuid_in (m_organization_id m) (get_user_org_ids ss db)
                      && is_caller ss (m_user_id m))
            (memberships db)).

(** [SELECT organization_id FROM public.memberships WHERE user_id = auth.uid()
    AND role IN ('owner', 'admin')], inside a policy as well. *)
Definition admin_org_ids (ss : session) (db : DB) : list uuid :=
  map m_organization_id
    (filter (fun m => uuid_in (m_organization_id m) (get_user_org_ids ss db)
                      && is_caller ss (m_user_id m)
                      && (role_eqb (m_role m) owner || role_eqb (m_role m) admin))
            (memberships db)).

Inductive table :=
| organizations_table | memberships_table | inventory_table | transactions_table
| invites_table | inventory_images_table | audit_log_table.

Inductive table_row :=
| OrganizationsRow (r : organization)
| MembershipsRow (r : membership)
| InventoryRow (r : inventory_item)
| TransactionsRow (r : transaction_row)
| InvitesRow (r : invite)
| InventoryImagesRow (r : inventory_image)
| AuditLogRow (r : audit_entry).

Definition table_of (r : table_row) : table :=
  match r with
  | OrganizationsRow _ => organizations_table
  | MembershipsRow _ => memberships_table
  | InventoryRow _ => inventory_table
  | TransactionsRow _ => transactions_table
  | InvitesRow _ => invites_table
  | InventoryImagesRow _ => inventory_images_table
  | AuditLogRow _ => audit_log_table
  end.

(** The organization a row belongs to. *)
Definition row_organization (r : table_row) : uuid :=
  match r with
  | OrganizationsRow r => org_id r
  | MembershipsRow r => m_organization_id r
  | InventoryRow r => inv_organization_id r
  | TransactionsRow r => t_organization_id r
  | InvitesRow r => i_organization_id r
  | InventoryImagesRow r => img_organization_id r
  | AuditLogRow r => a_organization_id r
  end.

Definition table_eqb (a b : table) : bool :=
  match a, b with
  | organizations_table, organizations_table
  | memberships_table, memberships_table
  | inventory_table, inventory_table
  | transactions_table, transactions_table
  | invites_table, invites_table
  | inventory_images_table, inventory_images_table
  | audit_log_table, audit_log_table => true
  | _, _ => false
  end.

(** The command of a policy ([FOR ...]) or of a statement. *)
Inductive command := SELECT_cmd | INSERT_cmd | UPDATE_cmd | DELETE_cmd | ALL_cmd.

Definition command_eqb (a b : command) : bool :=
  match a, b with
  | SELECT_cmd, SELECT_cmd | INSERT_cmd, INSERT_cmd | UPDATE_cmd, UPDATE_cmd
  | DELETE_cmd, DELETE_cmd | ALL_cmd, ALL_cmd => true
  | _, _ => false
  end.

Definition predicate := session -> DB -> table_row -> bool.

(** [CREATE POLICY name ON table FOR cmd USING (...) WITH CHECK (...)] *)
Record policy := mk_policy {
  pol_name : string;
  pol_table : table;
  pol_cmd : command;
  pol_using : option predicate;
  pol_with_check : option predicate
}.

Definition deleted_at_of (r : table_row) : option timestamptz :=
  match r with
  | OrganizationsRow r => org_deleted_at r
  | InventoryRow r => inv_deleted_at r
  | _ => None
  end.

Definition created_by_of (r : table_row) : option uuid :=
  match r with
  | InventoryRow r => inv_created_by r
  | InventoryImagesRow r => img_created_by r
  | _ => None
  end.

(** The predicates, on the row's [organization_id] (its [id] for an
    organization), [deleted_at] and [created_by] columns. *)
Definition in_user_orgs : predicate :=
  fun ss db r => uuid_in (row_organization r) (get_user_org_ids ss db).

Definition in_user_orgs_and_live : predicate :=
  fun ss db r => uuid_in (row_organization r) (get_user_org_ids ss db)
                 && is_null (deleted_at_of r).

Definition admin_or_owner : predicate :=
  fun ss db r => is_org_admin_or_owner ss db (row_organization r).

Definition admin_or_owner_and_live : predicate :=
  fun ss db r => is_org_admin_or_owner ss db (row_organization r)
                 && is_null (deleted_at_of r).

Definition live : predicate := fun _ _ r => is_null (deleted_at_of r).

Definition org_owner : predicate :=
  fun ss db r => is_org_owner ss db (row_organization r).

Definition never : predicate := fun _ _ _ => false.

Definition in_member_orgs : predicate :=
  fun ss db r => uuid_in (row_organization r) (member_org_ids ss db).

Definition uploader_or_admin : predicate :=
  fun ss db r =>
    is_true (match created_by_of r with
             | Some c => sql_eq_uuid c (auth_uid ss)
             | None => None
             end)
    || uuid_in (row_organization r) (admin_org_ids ss db).

(** The policies in force on the organization-scoped tables, in the order
    of the migrations; those of [inventory_images] are the ones recreated by
    [20260209000004_perf_fixes.sql]. *)
Definition policies : list policy :=
  [ mk_policy "Members view" organizations_table SELECT_cmd
      (Some in_user_orgs_and_live) None;
    mk_policy "Admins update settings" organizations_table UPDATE_cmd
      (Some admin_or_owner_and_live) (Some live);
    mk_policy "No direct inserts" organizations_table INSERT_cmd
      None (Some never);
    mk_policy "Members view" memberships_table SELECT_cmd
      (Some in_user_orgs) None;
    mk_policy "No direct inserts" memberships_table INSERT_cmd
      None (Some never);
    mk_policy "Owners update roles" memberships_table UPDATE_cmd
      (Some org_owner) None;
    mk_policy "No direct deletes" memberships_table DELETE_cmd
      (Some never) None;
    mk_policy "Members view" inventory_table SELECT_cmd
      (Some in_user_orgs_and_live) None;
    mk_policy "Members add" inventory_table INSERT_cmd
      None (Some in_user_orgs);
    mk_policy "Members update" inventory_table UPDATE_cmd
      (Some in_user_orgs_and_live) None;
    mk_policy "Admins delete" inventory_table DELETE_cmd
      (Some admin_or_owner) None;
    mk_policy "Members view" transactions_table SELECT_cmd
      (Some in_user_orgs) None;
    mk_policy "Via RPC only" transactions_table INSERT_cmd
      None (Some never);
    mk_policy "Admins manage" invites_table ALL_cmd
      (Some admin_or_owner) None;
    mk_policy "inventory_images_select" inventory_images_table SELECT_cmd
      (Some in_member_orgs) None;
    mk_policy "inventory_images_insert" inventory_images_table INSERT_cmd
      None (Some in_member_orgs);
    mk_policy "inventory_images_update" inventory_images_table UPDATE_cmd
      (Some in_member_orgs) None;
    mk_policy "inventory_images_delete" inventory_images_table DELETE_cmd
      (Some uploader_or_admin) None;
    mk_policy "Admins view" audit_log_table SELECT_cmd
      (Some admin_or_owner) None ].

(** A policy applies to a statement on its table, for its command or ALL. *)
Definition applies (p : policy) (t : table) (c : command) : bool :=
  table_eqb (pol_table p) t && (command_eqb (pol_cmd p) c || command_eqb (pol_cmd p) ALL_cmd).

Definition holds (q : option predicate) (ss : session) (db : DB) (r : table_row) : bool :=
  match q with Some f => f ss db r | None => false end.

(** The check on a new row: WITH CHECK, or USING when there is none. *)
Definition check_of (p : policy) : option predicate :=
  match pol_with_check p with Some f => Some f | None => pol_using p end.

(** An existing row is visible to command [c] when some applicable policy's
    USING holds (permissive policies are OR-ed; no policy, no access). *)
Definition admits_existing (c : command) (ss : session) (db : DB) (r : table_row) : bool :=
  existsb (fun p => applies p (table_of r) c && holds (pol_using p) ss db r) policies.

(** A new row is accepted for command [c] when some applicable policy's
    check holds. *)
Definition admits_new (c : command) (ss : session) (db : DB) (r : table_row) : bool :=
  existsb (fun p => applies p (table_of r) c && holds (check_of p) ss db r) policies.

(** ** Statements issued by a client (role [authenticated], under row-level security)

    An [UPDATE] or [DELETE] skips a row its USING policies hide (together
    with the SELECT policies, since the statement reads the row); an
    [INSERT] or [UPDATE] whose new row fails the check is an error. The
    policy functions are STABLE: they read the database as it stood when
    the statement started. *)

(** The values of the new row are assigned to the columns when the row is
    formed, before the policies see it: a price that does not fit raises
    first. *)
Definition direct_insert_inventory (ss : session) (NEW : inventory_item) : M unit :=
  require (stores_selling_price (inv_selling_price NEW))
          (numeric_value_out_of_range "selling_price") ;;
  db <- get ;;
  require (admits_new INSERT_cmd ss db (InventoryRow NEW))
          (row_security_violation "inventory") ;;
  insert_inventory ss NEW.

Definition direct_update_inventory (ss : session) (id : uuid)
    (set : inventory_item -> inventory_item) : M (option inventory_item) :=
  db <- get ;;
  match find (fun r => inv_id r =? id) (inventory db) with
  | None => ret None
  | Some OLD =>
      if admits_existing SELECT_cmd ss db (InventoryRow OLD)
         && admits_existing UPDATE_cmd ss db (InventoryRow OLD)
      then
        require (same_price (inv_selling_price OLD) (inv_selling_price (set OLD))
                 || stores_selling_price (inv_selling_price (set OLD)))
                (numeric_value_out_of_range "selling_price") ;;
        let NEW := update_updated_at_inv ss (set OLD) in
        require (admits_new UPDATE_cmd ss db (InventoryRow NEW)
                 && admits_existing SELECT_cmd ss db (InventoryRow NEW))
                (row_security_violation "inventory") ;;
        update_inventory ss id set
      else ret None
  end.

Definition direct_delete_inventory (ss : session) (id : uuid) : M unit :=
  db <- get ;;
  match find (fun r => inv_id r =? id) (inventory db) with
  | None => ret tt
  | Some OLD =>
      if admits_existing SELECT_cmd ss db (InventoryRow OLD)
         && admits_existing DELETE_cmd ss db (InventoryRow OLD)
      then delete_inventory ss id
      else ret tt
  end.

Definition direct_update_membership (ss : session) (id : uuid)
    (set : membership -> membership) : M (option membership) :=
  db <- get ;;
  match find (fun m => m_id m =? id) (memberships db) with
  | None => ret None
  | Some OLD =>
      if admits_existing SELECT_cmd ss db (MembershipsRow OLD)
         && admits_existing UPDATE_cmd ss db (MembershipsRow OLD)
      then
        let NEW := set OLD in
        require (admits_new UPDATE_cmd ss db (MembershipsRow NEW)
                 && admits_existing SELECT_cmd ss db (MembershipsRow NEW))
                (row_security_violation "memberships") ;;
        update_membership ss id set
      else ret None
  end.

Definition direct_insert_invite (ss : session) (NEW : invite) : M unit :=
  db <- get ;;
  require (admits_new INSERT_cmd ss db (InvitesRow NEW))
          (row_security_violation "invites") ;;
  insert_invite NEW.

Definition direct_update_invite (ss : session) (id : uuid)
    (set : invite -> invite) : M unit :=
  db <- get ;;
  let targets := filter (fun i => i_id i =? id) (invites db) in
  if forallb (fun OLD => admits_existing SELECT_cmd ss db (InvitesRow OLD)
                         && admits_existing UPDATE_cmd ss db (InvitesRow OLD))
             targets
  then
    for_each (fun OLD =>
                require (admits_new UPDATE_cmd ss db (InvitesRow (set OLD))
                         && admits_existing SELECT_cmd ss db (InvitesRow (set OLD)))
                        (row_security_violation "invites"))
             targets ;;
    update_invite id set
  else ret tt.

Definition direct_delete_invite (ss : session) (id : uuid) : M unit :=
  db <- get ;;
  let targets := filter (fun i => i_id i =? id) (invites db) in
  if forallb (fun OLD => admits_existing SELECT_cmd ss db (InvitesRow OLD)
                         && admits_existing DELETE_cmd ss db (InvitesRow OLD))
             targets
  then delete_invite id
  else ret tt.

Definition direct_insert_transaction (ss : session) (NEW : transaction_row) : M unit :=
  db <- get ;;
  require (admits_new INSERT_cmd ss db (TransactionsRow NEW))
          (row_security_violation "transactions") ;;
  modify (fun db => set_transactions (transactions db ++ [NEW]) db).

(** ** The error taxonomy *)

Inductive error_kind :=
| NotFound | PermissionDenied | Conflict | InvariantViolation | ValidationError.

(** Modelled from the spec: the classification of failures into kinds is
    not part of the migrations, which raise messages and constraint
    violations only; this follows the taxonomy of the specification
    (already used, expired, revoked and duplicates are conflicts, the sole
    owner leaving is an invariant violation, malformed input is a
    validation error). *)
Definition kind_of (e : error) : error_kind :=
  match e with
  | Invalid_slug_format => ValidationError
  | Invalid_invite_token => NotFound
  | Invite_has_been_revoked => Conflict
  | Invite_has_already_been_used => Conflict
  | Invite_has_expired => Conflict
  | Organization_no_longer_exists => NotFound
  | Invite_is_for_a_different_email_address => PermissionDenied
  | Inventory_item_not_found => NotFound
  | Card_is_not_available _ => Conflict
  | Access_denied => PermissionDenied
  | Only_owners_can_delete_organizations => PermissionDenied
  | Not_a_member_of_this_organization => PermissionDenied
  | Cannot_leave_only_owner => InvariantViolation
  | not_null_violation _ => ValidationError
  | check_violation _ => ValidationError
  | unique_violation _ => Conflict
  | foreign_key_violation _ => NotFound
  | row_security_violation _ => PermissionDenied
  | numeric_value_out_of_range _ => ValidationError
  end.

(** ** Consistency of a database state

    What the declared keys and foreign keys guarantee of any state the
    server can be in, and that [gen_random_uuid()] does not repeat an id. *)

Fixpoint distinct (l : list Z) : bool :=
  match l with
  | [] => true
  | x :: l' => negb (existsb (Z.eqb x) l') && distinct l'
  end.

Fixpoint distinct_pairs (l : list (Z * Z)) : bool :=
  match l with
  | [] => true
  | (x, y) :: l' =>
      negb (existsb (fun p => (fst p =? x) && (snd p =? y)) l') && distinct_pairs l'
  end.

Definition keys_ok (db : DB) : bool :=
  distinct (map m_id (memberships db))
  && distinct_pairs (map (fun m => (m_user_id m, m_organization_id m)) (memberships db))
  && distinct (map inv_id (inventory db))
  && distinct (map org_id (organizations db)).

Definition foreign_keys_ok (db : DB) : bool :=
  forallb (fun m => user_exists db (m_user_id m) && org_exists db (m_organization_id m))
          (memberships db)
  && forallb (fun r => org_exists db (inv_organization_id r)
                       && fk_user db (inv_created_by r))
             (inventory db)
  && forallb (fun t => item_exists db (t_inventory_id t)) (transactions db).

Definition uuids_fresh (db : DB) : bool :=
  forallb (fun a => a_id a <? next_uuid db) (audit_log db)
  && forallb (fun t => t_id t <? next_uuid db) (transactions db)
  && forallb (fun m => m_id m <? next_uuid db) (memberships db)
  && forallb (fun o => org_id o <? next_uuid db) (organizations db).

Definition consistent (db : DB) : bool :=
  keys_ok db && foreign_keys_ok db && uuids_fresh db.

(** ** Specification-level notions *)

(** [m] is the caller's membership row in organization [org]. *)
Definition caller_membership (ss : session) (db : DB) (org : uuid) (m : membership) : Prop :=
  In m (memberships db) /\ auth_uid ss = Some (m_user_id m) /\ m_organization_id m = org.

(** [SELECT * FROM invites WHERE token = t]: the row [accept_invite] reads. *)
Definition invite_by_token (db : DB) (t : string) : option invite :=
  find (fun i => String.eqb (i_token i) t) (invites db).

(** The invite has an expiry time and it is past. *)
Definition expired (ss : session) (v : invite) : Prop :=
  exists t, i_expires_at v = Some t /\ t < now ss.

(** Organization [o] carries a deletion marker. *)
Definition org_soft_deleted (db : DB) (o : uuid) : Prop :=
  exists r, In r (organizations db) /\ org_id r = o /\ org_deleted_at r <> None.

(** The invite of token [t] has been accepted and is not revoked. *)
Definition already_used (db : DB) (t : string) : Prop :=
  exists v, invite_by_token db t = Some v
            /\ i_revoked_at v = None /\ i_accepted_at v <> None.

(** The calls a client can make to the privileged procedures. *)
Inductive rpc :=
| Create_organization (p_name p_slug : string)
| Accept_invite (p_token : string)
| Mark_card_sold (p_inventory_id : uuid) (p_sold_price : decimal)
                 (p_buyer_email p_buyer_notes : option string)
| Soft_delete_organization (p_org_id : uuid)
| Leave_organization (p_org_id : uuid).

(** The state a call leaves behind: committed, or rolled back. *)
Definition call (ss : session) (r : rpc) (db : DB) : DB :=
  match r with
  | Create_organization p_name p_slug =>
      snd (transaction (create_organization ss p_name p_slug) db)
  | Accept_invite p_token =>
      snd (transaction (accept_invite ss p_token) db)
  | Mark_card_sold p_inventory_id p_sold_price p_buyer_email p_buyer_notes =>
      snd (transaction (mark_card_sold ss p_inventory_id p_sold_price
                                       p_buyer_email p_buyer_notes) db)
  | Soft_delete_organization p_org_id =>
      snd (transaction (soft_delete_organization ss p_org_id) db)
  | Leave_organization p_org_id =>
      snd (transaction (leave_organization ss p_org_id) db)
  end.

(** A sequence of calls, each by its own caller at its own time. *)
Fixpoint run (calls : list (session * rpc)) (db : DB) : DB :=
  match calls with
  | [] => db
  | (ss, r) :: rest => run rest (call ss r db)
  end.

(** A computation that leaves a part of the database as it found it,
    whatever its outcome. *)
Definition preserves {X} (part : DB -> X) {A} (c : M A) : Prop :=
  forall db r db', c db = (r, db') -> part db' = part db.

(** The number of transaction records that reference inventory item [i]. *)
Definition tx_count (db : DB) (i : uuid) : nat :=
  List.length (filter (fun t => t_inventory_id t =? i) (transactions db)).

(** Every item has at most one transaction, and exactly one iff it is sold. *)
Definition sale_recorded_once (db : DB) : Prop :=
  forall item, In item (inventory db) ->
    (tx_count db (inv_id item) <= 1)%nat
    /\ (tx_count db (inv_id item) = 1%nat <-> inv_status item = sold).

(** [transactions.inventory_id REFERENCES inventory(id)] *)
Definition transactions_reference_items (db : DB) : Prop :=
  forall t, In t (transactions db) -> item_exists db (t_inventory_id t) = true.

Definition sale_invariant (db : DB) : Prop :=
  sale_recorded_once db /\ transactions_reference_items db.

Definition set_status (s : inventory_status_enum) (r : inventory_item) : inventory_item :=
  mk_inventory (inv_id r) (inv_organization_id r) (inv_card_name r)
               (inv_selling_price r) s (inv_created_at r) (inv_created_by r)
               (inv_updated_at r) (inv_updated_by r) (inv_deleted_at r).

(** The ways the inventory and its sale records are written: the sale
    procedure, and the statements the policies leave to clients. *)
Inductive inventory_write :=
| Sale (p_inventory_id : uuid) (p_sold_price : decimal)
       (p_buyer_email p_buyer_notes : option string)
| Add (NEW : inventory_item)
| Edit (id : uuid) (set : inventory_item -> inventory_item)
| Remove (id : uuid).

Definition write (ss : session) (w : inventory_write) (db : DB) : DB :=
  match w with
  | Sale p_inventory_id p_sold_price p_buyer_email p_buyer_notes =>
      snd (transaction (mark_card_sold ss p_inventory_id p_sold_price
                                       p_buyer_email p_buyer_notes) db)
  | Add NEW => snd (transaction (direct_insert_inventory ss NEW) db)
  | Edit id set => snd (transaction (direct_update_inventory ss id set) db)
  | Remove id => snd (transaction (direct_delete_inventory ss id) db)
  end.

Fixpoint writes (l : list (session * inventory_write)) (db : DB) : DB :=
  match l with
  | [] => db
  | (ss, w) :: rest => writes rest (write ss w db)
  end.

(** A direct write that neither sets nor clears the status [sold]. *)
Definition keeps_sold_status (w : inventory_write) : Prop :=
  match w with
  | Sale _ _ _ _ => True
  | Add NEW => inv_status NEW <> sold
  | Edit _ set => forall r, inv_status (set r) = sold <-> inv_status r = sold
  | Remove _ => True
  end.

(** *** Mutations and their audit entries *)

(** One row-level mutation of a table of the tenancy core. *)
Inductive mutation :=
| Ins_organization (name slug : string)
| Upd_organization (id : uuid) (set : organization -> organization)
| Ins_membership (user_id : option uuid) (organization_id : uuid) (role : role_enum)
                 (invited_by : option uuid) (invited_at accepted_at : option timestamptz)
| Upd_membership (id : uuid) (set : membership -> membership)
| Del_membership (id : uuid)
| Ins_inventory (NEW : inventory_item)
| Upd_inventory (id : uuid) (set : inventory_item -> inventory_item)
| Del_inventory (id : uuid)
| Ins_transaction (organization_id inventory_id : uuid) (sold_price : decimal)
                  (sold_by : option uuid) (buyer_email buyer_notes : option string)
| Ins_invite (NEW : invite)
| Upd_invite (id : uuid) (set : invite -> invite)
| Del_invite (id : uuid).

Definition mutate (ss : session) (m : mutation) : M unit :=
  match m with
  | Ins_organization name slug => insert_organization ss name slug ;; ret tt
  | Upd_organization id set => update_organization ss id set ;; ret tt
  | Ins_membership u o r ib ia aa => insert_membership ss u o r ib ia aa ;; ret tt
  | Upd_membership id set => update_membership ss id set ;; ret tt
  | Del_membership id => delete_membership ss id
  | Ins_inventory NEW => insert_inventory ss NEW
  | Upd_inventory id set => update_inventory ss id set ;; ret tt
  | Del_inventory id => delete_inventory ss id
  | Ins_transaction o i p by_ e n => insert_transaction ss o i p by_ e n ;; ret tt
  | Ins_invite NEW => insert_invite NEW
  | Upd_invite id set => update_invite id set
  | Del_invite id => delete_invite id
  end.

Definition mutation_table (m : mutation) : table :=
  match m with
  | Ins_organization _ _ | Upd_organization _ _ => organizations_table
  | Ins_membership _ _ _ _ _ _ | Upd_membership _ _ | Del_membership _ => memberships_table
  | Ins_inventory _ | Upd_inventory _ _ | Del_inventory _ => inventory_table
  | Ins_transaction _ _ _ _ _ _ => transactions_table
  | Ins_invite _ | Upd_invite _ _ | Del_invite _ => invites_table
  end.

Definition mutation_op (m : mutation) : tg_op :=
  match m with
  | Ins_organization _ _ | Ins_membership _ _ _ _ _ _ | Ins_inventory _
  | Ins_transaction _ _ _ _ _ _ | Ins_invite _ => INSERT
  | Upd_organization _ _ | Upd_membership _ _ | Upd_inventory _ _ | Upd_invite _ _ => UPDATE
  | Del_membership _ | Del_inventory _ | Del_invite _ => DELETE
  end.

(** [TG_TABLE_NAME] *)
Definition table_name (t : table) : string :=
  match t with
  | organizations_table => "organizations"
  | memberships_table => "memberships"
  | inventory_table => "inventory"
  | transactions_table => "transactions"
  | invites_table => "invites"
  | inventory_images_table => "inventory_images"
  | audit_log_table => "audit_log"
  end.

(** The tables and operations that carry an audit trigger:
    [trg_inventory_audit] and [trg_memberships_audit] (INSERT OR UPDATE OR
    DELETE), [trg_organizations_audit] (INSERT OR UPDATE). *)
Definition audited (t : table) (op : tg_op) : bool :=
  match t, op with
  | inventory_table, _ | memberships_table, _ => true
  | organizations_table, INSERT | organizations_table, UPDATE => true
  | _, _ => false
  end.

(** The row the mutation finds and replaces or removes, if any. *)
Definition pre_image (m : mutation) (db : DB) : option row_image :=
  match m with
  | Upd_organization id _ =>
      option_map OrganizationImage (find (fun o => org_id o =? id) (organizations db))
  | Upd_membership id _ | Del_membership id =>
      option_map MembershipImage (find (fun x => m_id x =? id) (memberships db))
  | Upd_inventory id _ | Del_inventory id =>
      option_map InventoryImage (find (fun r => inv_id r =? id) (inventory db))
  | _ => None
  end.

(** The row the mutation stores, if any. *)
Definition post_image (ss : session) (m : mutation) (db : DB) : option row_image :=
  match m with
  | Ins_organization name slug =>
      Some (OrganizationImage
              (mk_organization (next_uuid db) name slug (Some (now ss)) (Some (now ss)) None))
  | Upd_organization id set =>
      option_map (fun OLD => OrganizationImage (update_updated_at_org ss (set OLD)))
                 (find (fun o => org_id o =? id) (organizations db))
  | Ins_membership u o r ib ia aa =>
      option_map (fun u => MembershipImage
                             (mk_membership (next_uuid db) u o r ib ia aa (Some (now ss))))
                 u
  | Upd_membership id set =>
      option_map (fun OLD => MembershipImage (set OLD))
                 (find (fun x => m_id x =? id) (memberships db))
  | Ins_inventory NEW => Some (InventoryImage NEW)
  | Upd_inventory id set =>
      option_map (fun OLD => InventoryImage (update_updated_at_inv ss (set OLD)))
                 (find (fun r => inv_id r =? id) (inventory db))
  | _ => None
  end.

(** The mutation touches a row: an INSERT always, an UPDATE or DELETE when
    a row has the key. *)
Definition rows_affected (m : mutation) (db : DB) : bool :=
  match m with
  | Upd_organization id _ => existsb (fun o => org_id o =? id) (organizations db)
  | Upd_membership id _ | Del_membership id =>
      existsb (fun x => m_id x =? id) (memberships db)
  | Upd_inventory id _ | Del_inventory id =>
      existsb (fun r => inv_id r =? id) (inventory db)
  | Upd_invite id _ | Del_invite id => existsb (fun i => i_id i =? id) (invites db)
  | _ => true
  end.

(** The row is in its table. *)
Definition stored (img : row_image) (db : DB) : Prop :=
  match img with
  | OrganizationImage r => In r (organizations db)
  | MembershipImage r => In r (memberships db)
  | InventoryImage r => In r (inventory db)
  end.

(** The organization a row belongs to (itself, for an organization). *)
Definition image_tenant (img : row_image) : uuid :=
  match img with
  | OrganizationImage r => org_id r
  | MembershipImage r => m_organization_id r
  | InventoryImage r => inv_organization_id r
  end.

(** The audit entry that matches a mutation: its table, record id,
    operation, images and acting principal. *)
Definition audit_entry_matches (ss : session) (m : mutation) (db : DB) (e : audit_entry) : Prop :=
  a_table_name e = table_name (mutation_table m)
  /\ a_action e = mutation_op m
  /\ a_old_data e = pre_image m db
  /\ a_new_data e = post_image ss m db
  /\ Some (a_record_id e)
     = option_map image_id (coalesce (post_image ss m db) (pre_image m db))
  /\ Some (a_organization_id e)
     = option_map image_tenant (coalesce (post_image ss m db) (pre_image m db))
  /\ a_changed_by e = auth_uid ss.

(** Every organization in the table has at least one owner. *)
Definition every_organization_owned (db : DB) : Prop :=
  forall o, In o (organizations db) -> (1 <= owner_count db (org_id o))%nat.

Definition set_role (r : role_enum) (m : membership) : membership :=
  mk_membership (m_id m) (m_user_id m) (m_organization_id m) r (m_invited_by m)
                (m_invited_at m) (m_accepted_at m) (m_created_at m).

(** Re-points a membership row to another user and organization. *)
Definition set_user_and_organization (u o : uuid) (m : membership) : membership :=
  mk_membership (m_id m) u o (m_role m) (m_invited_by m)
                (m_invited_at m) (m_accepted_at m) (m_created_at m).

(** Row [r] belongs to a soft-deleted organization: no row of
    [organizations] with its organization's id is live, and an organization
    row carries the marker itself. *)
Definition belongs_to_soft_deleted (db : DB) (r : table_row) : Prop :=
  (forall o, In o (organizations db) -> org_id o = row_organization r ->
             org_deleted_at o <> None)
  /\ match r with
     | OrganizationsRow o => org_deleted_at o <> None
     | _ => True
     end.

(** The policies whose predicates never consult the deletion marker. *)
Definition ignores_soft_delete : list (table * string) :=
  [ (memberships_table, "Owners update roles");
    (inventory_table, "Admins delete");
    (invites_table, "Admins manage");
    (inventory_images_table, "inventory_images_delete");
    (audit_log_table, "Admins view") ].

(** *** Invites *)

(** The partial unique index, as a property of the table: the rows are
    distinct by id, and two unaccepted, unrevoked invites for the same
    organization and email are the same row. *)
Definition one_pending_per_pair (db : DB) : Prop :=
  NoDup (map i_id (invites db))
  /\ forall i j, In i (invites db) -> In j (invites db) ->
       in_pending_index i = true -> in_pending_index j = true ->
       i_organization_id i = i_organization_id j -> i_email i = i_email j ->
       i = j.

(** Pending in the sense of the invite lifecycle: neither accepted nor
    revoked, and not past its expiry at the caller's time. *)
Definition pending (ss : session) (i : invite) : Prop :=
  in_pending_index i = true /\ ~ expired ss i.

(** The ways the invites are written: the statements "Admins manage"
    leaves to clients, and the procedures. *)
Inductive invite_write :=
| Create (NEW : invite)
| Change (id : uuid) (set : invite -> invite)
| Drop (id : uuid)
| Procedure (r : rpc).

Definition invite_step (ss : session) (w : invite_write) (db : DB) : DB :=
  match w with
  | Create NEW => snd (transaction (direct_insert_invite ss NEW) db)
  | Change id set => snd (transaction (direct_update_invite ss id set) db)
  | Drop id => snd (transaction (direct_delete_invite ss id) db)
  | Procedure r => call ss r db
  end.

Fixpoint invite_steps (l : list (session * invite_write)) (db : DB) : DB :=
  match l with
  | [] => db
  | (ss, w) :: rest => invite_steps rest (invite_step ss w db)
  end.

(** *** States the procedures leave behind *)

(** The state after the caller's membership [m] is deleted and audited. *)
Definition after_leave (ss : session) (db : DB) (m : membership) : DB :=
  set_audit_log
    (audit_log db ++
     [mk_audit (next_uuid db) (m_organization_id m) "memberships" (m_id m) DELETE
               (Some (MembershipImage m)) None (auth_uid ss) (Some (now ss))])
    (set_next_uuid (next_uuid db + 1)
       (set_memberships (filter (fun x => negb (m_id x =? m_id m)) (memberships db)) db)).

(** The inventory table after [UPDATE ... WHERE id = id] has put [NEW]. *)
Definition put_item (id : uuid) (NEW : inventory_item) (l : list inventory_item)
    : list inventory_item :=
  map (fun r => if inv_id r =? id then NEW else r) l.

(** The row [mark_card_sold] leaves in place of [item]. *)
Definition sold_item (ss : session) (item : inventory_item) : inventory_item :=
  update_updated_at_inv ss (set_sold ss item).

(** The state after a sale of [item] by the caller. *)
Definition after_sale (ss : session) (db : DB) (item : inventory_item)
    (price : decimal) (email notes : option string) : DB :=
  mk_db (users db) (organizations db) (memberships db)
        (put_item (inv_id item) (sold_item ss item) (inventory db))
        (transactions db ++
         [mk_transaction (next_uuid db + 1) (inv_organization_id item) (inv_id item) price
                         (Some (now ss)) (auth_uid ss) email notes (Some (now ss))])
        (invites db)
        (audit_log db ++
         [mk_audit (next_uuid db) (inv_organization_id item) "inventory" (inv_id item)
                   UPDATE (Some (InventoryImage item))
                   (Some (InventoryImage (sold_item ss item)))
                   (auth_uid ss) (Some (now ss))])
        (next_uuid db + 1 + 1).

(** The error a reserved slug meets: the CHECK constraints of the table,
    in the order of their names. *)
Definition reserved_slug_error (p_name : string) : error :=
  if name_valid p_name then check_violation "slug_not_reserved"
  else check_violation "name_valid".

(** ** Constraints of [organizations] on stored rows

    What the CHECK constraints [name_valid], [slug_format] and
    [slug_not_reserved] and the UNIQUE constraint on [slug] guarantee of
    every row of the table. *)
Definition organizations_ok (db : DB) : bool :=
  forallb (fun o =>
             name_valid (org_name o) && slug_format (org_slug o)
             && slug_not_reserved (org_slug o)
             && negb (existsb (fun x => negb (org_id x =? org_id o)
                                        && String.eqb (org_slug x) (org_slug o))
                              (organizations db)))
          (organizations db).

(** ** Constraints of [invites] on stored rows

    What the foreign keys of the table ([organization_id], [invited_by])
    and the UNIQUE constraint on [token] guarantee of every row. *)
Definition invites_ok (db : DB) : bool :=
  forallb (fun i =>
             org_exists db (i_organization_id i) && fk_user db (i_invited_by i)
             && negb (existsb (fun x => negb (i_id x =? i_id i)
                                        && String.eqb (i_token x) (i_token i))
                              (invites db)))
          (invites db).

(** The row [soft_delete_organization] leaves in place of [OLD]. *)
Definition soft_deleted (ss : session) (OLD : organization) : organization :=
  update_updated_at_org ss (set_deleted_at (Some (now ss)) OLD).

(** The state after the caller has soft-deleted [OLD]. *)
Definition after_soft_delete (ss : session) (db : DB) (OLD : organization) : DB :=
  mk_db (users db)
        (map (fun o => if org_id o =? org_id OLD then soft_deleted ss OLD else o)
             (organizations db))
        (memberships db) (inventory db) (transactions db) (invites db)
        (audit_log db ++
         [mk_audit (next_uuid db) (org_id OLD) "organizations" (org_id OLD) UPDATE
                   (Some (OrganizationImage OLD))
                   (Some (OrganizationImage (soft_deleted ss OLD)))
                   (auth_uid ss) (Some (now ss))])
        (next_uuid db + 1).

(** [UPDATE organizations SET ... WHERE id = id], by a client. *)
Definition direct_update_organization (ss : session) (id : uuid)
    (set : organization -> organization) : M (option organization) :=
  db <- get ;;
  match find (fun o => org_id o =? id) (organizations db) with
  | None => ret None
  | Some OLD =>
      if admits_existing SELECT_cmd ss db (OrganizationsRow OLD)
         && admits_existing UPDATE_cmd ss db (OrganizationsRow OLD)
      then
        let NEW := update_updated_at_org ss (set OLD) in
        require (admits_new UPDATE_cmd ss db (OrganizationsRow NEW)
                 && admits_existing SELECT_cmd ss db (OrganizationsRow NEW))
                (row_security_violation "organizations") ;;
        update_organization ss id set
      else ret None
  end.

(** [db'] has the audit log of [db] followed by entries written for the
    caller at the caller's time. *)
Definition audit_appended (ss : session) (db db' : DB) : Prop :=
  exists l, audit_log db' = audit_log db ++ l
            /\ Forall (fun e => a_changed_by e = auth_uid ss
                                /\ a_changed_at e = Some (now ss)) l.

(** A computation that only appends to the audit log, whatever its outcome. *)
Definition appends (ss : session) {A} (c : M A) : Prop :=
  forall db r db', c db = (r, db') -> audit_appended ss db db'.

(** ** Profiles *)

Record profile := mk_profile {
  p_user_id : uuid;
  p_display_name : option string;
  p_avatar_url : option string;
  p_created_at : option timestamptz;
  p_updated_at : option timestamptz
}.

(** [get_co_member_user_ids()]: the join of [memberships] with itself and
    with [organizations], row by row; [SELECT DISTINCT] drops repeats. *)
Definition get_co_member_user_ids (ss : session) (db : DB) : list uuid :=
  nodup Z.eq_dec
    (flat_map
       (fun m1 =>
          flat_map
            (fun m2 =>
               flat_map
                 (fun o =>
                    if (m_organization_id m1 =? m_organization_id m2)
                       && (org_id o =? m_organization_id m1)
                       && is_caller ss (m_user_id m1)
                       && is_null (org_deleted_at o)
                    then [m_user_id m2] else [])
                 (organizations db))
            (memberships db))
       (memberships db)).

Definition profile_predicate := session -> DB -> profile -> bool.

(** A policy on [profiles]. *)
Record profile_policy := mk_profile_policy {
  pp_name : string;
  pp_cmd : command;
  pp_using : option profile_predicate;
  pp_with_check : option profile_predicate
}.

(** [user_id = auth.uid()] *)
Definition own_profile : profile_predicate :=
  fun ss _ p => is_caller ss (p_user_id p).

(** [user_id IN (SELECT get_co_member_user_ids())] *)
Definition co_member_profile : profile_predicate :=
  fun ss db p => uuid_in (p_user_id p) (get_co_member_user_ids ss db).

(** [user_id = auth.uid() OR user_id IN (SELECT get_co_member_user_ids())]:
    true when either side is. *)
Definition own_or_co_member_profile : profile_predicate :=
  fun ss db p => own_profile ss db p || co_member_profile ss db p.

(** The policies of [20260209000001_initial_schema.sql]. *)
Definition initial_profiles_policies : list profile_policy :=
  [ mk_profile_policy "Own profile" ALL_cmd (Some own_profile) None;
    mk_profile_policy "Co-members view" SELECT_cmd (Some co_member_profile) None ].

(** Those of [20260209000002_security_fixes.sql]. *)
Definition consolidated_profiles_policies : list profile_policy :=
  [ mk_profile_policy "profiles_select" SELECT_cmd (Some own_or_co_member_profile) None;
    mk_profile_policy "profiles_modify" ALL_cmd (Some own_profile) (Some own_profile) ].

(** Those of [20260209000004_perf_fixes.sql], the ones in force. *)
Definition profiles_policies : list profile_policy :=
  [ mk_profile_policy "profiles_view" SELECT_cmd (Some own_or_co_member_profile) None;
    mk_profile_policy "profiles_insert" INSERT_cmd None (Some own_profile);
    mk_profile_policy "profiles_update" UPDATE_cmd (Some own_profile) (Some own_profile);
    mk_profile_policy "profiles_delete" DELETE_cmd (Some own_profile) None ].

Definition profile_holds (q : option profile_predicate) (ss : session) (db : DB)
    (p : profile) : bool :=
  match q with Some f => f ss db p | None => false end.

Definition profile_check_of (q : profile_policy) : option profile_predicate :=
  match pp_with_check q with Some f => Some f | None => pp_using q end.

Definition profile_applies (q : profile_policy) (c : command) : bool :=
  command_eqb (pp_cmd q) c || command_eqb (pp_cmd q) ALL_cmd.

(** An existing profile is visible to command [c] under the policies [ps]. *)
Definition profile_admits_existing (ps : list profile_policy) (c : command)
    (ss : session) (db : DB) (p : profile) : bool :=
  existsb (fun q => profile_applies q c && profile_holds (pp_using q) ss db p) ps.

(** A new profile row is accepted for command [c] under the policies [ps]. *)
Definition profile_admits_new (ps : list profile_policy) (c : command)
    (ss : session) (db : DB) (p : profile) : bool :=
  existsb (fun q => profile_applies q c && profile_holds (profile_check_of q) ss db p) ps.

(** ** The policies of [inventory_images] before [20260209000004_perf_fixes.sql] *)

(** [created_by = auth.uid() OR is_org_admin_or_owner(organization_id)] *)
Definition uploader_or_org_admin : predicate :=
  fun ss db r =>
    is_true (match created_by_of r with
             | Some c => sql_eq_uuid c (auth_uid ss)
             | None => None
             end)
    || is_org_admin_or_owner ss db (row_organization r).

Definition initial_inventory_images_policies : list policy :=
  [ mk_policy "Members view" inventory_images_table SELECT_cmd (Some in_user_orgs) None;
    mk_policy "Members add" inventory_images_table INSERT_cmd None (Some in_user_orgs);
    mk_policy "Members update" inventory_images_table UPDATE_cmd (Some in_user_orgs) None;
    mk_policy "Uploader or admin delete" inventory_images_table DELETE_cmd
      (Some uploader_or_org_admin) None ].

(** [admits_existing] and [admits_new], for a given list of policies. *)
Definition admits_existing_under (ps : list policy) (c : command) (ss : session) (db : DB)
    (r : table_row) : bool :=
  existsb (fun p => applies p (table_of r) c && holds (pol_using p) ss db r) ps.

Definition admits_new_under (ps : list policy) (c : command) (ss : session) (db : DB)
    (r : table_row) : bool :=
  existsb (fun p => applies p (table_of r) c && holds (check_of p) ss db r) ps.

(** ** Example data

    The fixtures of the pgTAP test: three users, the store "test-store"
    with its owner and one member, one available card; and an invite for
    the outsider, written with capitals. *)

Definition test_users : list auth_user :=
  [ mk_user 1 (Some "owner@test.com");
    mk_user 2 (Some "member@test.com");
    mk_user 3 (Some "outsider@test.com") ].

Definition test_store : organization :=
  mk_organization 10 "Test Store" "test-store" (Some 0) (Some 0) None.

Definition test_owner : membership :=
  mk_membership 20 1 10 owner None None (Some 0) (Some 0).

Definition test_member : membership :=
  mk_membership 21 2 10 member None None (Some 0) (Some 0).

Definition test_card : inventory_item :=
  mk_inventory 100 10 "Test Card" None available (Some 0) None (Some 0) None None.

Definition test_invite : invite :=
  mk_invite 30 10 "Outsider@Test.com" member "token-1" (Some 1) (Some 0) (Some 700)
            None None.

Definition test_db : DB :=
  mk_db test_users [test_store] [test_owner; test_member] [test_card] []
        [test_invite] [] 1000.

(** The same state once the store has been soft-deleted. *)
Definition deleted_db : DB :=
  set_organizations [set_deleted_at (Some 3) test_store] test_db.

(** A second store, owned by the owner of the first alone. *)
Definition second_store : organization :=
  mk_organization 11 "Second Store" "second-store" (Some 0) (Some 0) None.

Definition second_owner : membership :=
  mk_membership 22 1 11 owner None None (Some 0) (Some 0).

Definition two_stores_db : DB :=
  mk_db test_users [test_store; second_store] [test_owner; test_member; second_owner]
        [test_card] [] [test_invite] [] 1000.

Definition test_image : inventory_image :=
  mk_image 40 100 10 "cards/100/front.jpg" (Some true) (Some 2) (Some 0).

Definition test_audit_entry : audit_entry :=
  mk_audit 50 10 "inventory" 100 INSERT None (Some (InventoryImage test_card)) (Some 1)
           (Some 0).

(** A second invite for the address of [test_invite]. *)
Definition second_invite : invite :=
  mk_invite 31 10 "Outsider@Test.com" member "token-2" (Some 1) (Some 800) (Some 1500)
            None None.

Definition as_owner : session := mk_session (Some 1) 5.
Definition as_member : session := mk_session (Some 2) 5.
Definition as_outsider : session := mk_session (Some 3) 5.
Definition as_anonymous : session := mk_session None 5.

(** The owner, after [test_invite] has expired. *)
Definition as_owner_later : session := mk_session (Some 1) 800.

(** An invite addressed to the member of the test store, and the test
    database holding it. *)
Definition member_invite : invite :=
  mk_invite 32 10 "Member@Test.com" admin "token-3" (Some 1) (Some 0) (Some 700)
            None None.

Definition member_invite_db : DB := set_invites [test_invite; member_invite] test_db.

(** The profiles of the owner and of the member of the test store. *)
Definition owner_profile : profile := mk_profile 1 (Some "Owner") None (Some 0) (Some 0).
Definition member_profile : profile := mk_profile 2 (Some "Member") None (Some 0) (Some 0).

(** Calls by the three users of the test, in turn. *)
Definition test_calls : list (session * rpc) :=
  [ (as_outsider, Create_organization "Moody Cards" "moody-cards");
    (as_member, Mark_card_sold 100 24999 None None);
    (as_member, Leave_organization 10);
    (as_owner, Soft_delete_organization 10) ].

(** A principal registered without an email address (by phone, or
    anonymously), in the test database, with an invite to ownership
    addressed to the outsider. *)
Definition no_email_user : auth_user := mk_user 4 None.

Definition owner_invite : invite :=
  mk_invite 33 10 "Outsider@Test.com" owner "token-4" (Some 1) (Some 0) (Some 700)
            None None.

Definition no_email_db : DB :=
  mk_db (test_users ++ [no_email_user]) [test_store] [test_owner; test_member]
        [test_card] [] [test_invite; owner_invite] [] 1000.

Definition as_no_email : session := mk_session (Some 4) 5.

(** * Theorems *)

(** ** Enumerations *)

Lemma role_eqb_eq a b : role_eqb a b = true <-> a = b.
Proof. destruct a, b; simpl; split; congruence. Qed.

Lemma status_eqb_eq a b : status_eqb a b = true <-> a = b.
Proof. destruct a, b; simpl; split; congruence. Qed.

Lemma status_eqb_refl a : status_eqb a a = true.
Proof. now destruct a. Qed.

(** ** Reasoning about procedure bodies *)

Lemma bind_inr {A B} (c : M A) (k : A -> M B) db b db' :
  bind c k db = (inr b, db') ->
  exists a db1, c db = (inr a, db1) /\ k a db1 = (inr b, db').
Proof.
  unfold bind. destruct (c db) as [[e | a] db1]; [discriminate | eauto].
Qed.

Lemma bind_eq {A B} (c : M A) (k : A -> M B) db a db1 :
  c db = (inr a, db1) -> bind c k db = k a db1.
Proof. unfold bind. now intros ->. Qed.

Lemma bind_inl {A B} (c : M A) (k : A -> M B) db e db1 :
  c db = (inl e, db1) -> bind c k db = (inl e, db1).
Proof. intros H. unfold bind. now rewrite H. Qed.

Lemma require_inr ok e db u db' :
  require ok e db = (inr u, db') -> ok = true /\ db' = db.
Proof. destruct ok; simpl; unfold ret, raise; intros H; inversion H; auto. Qed.

Lemma require_true e db : require true e db = (inr tt, db).
Proof. reflexivity. Qed.

Lemma transaction_error {A} (body : M A) db e db1 :
  body db = (inl e, db1) -> transaction body db = (inl e, db).
Proof. unfold transaction. now intros ->. Qed.

Lemma transaction_ok {A} (body : M A) db a db1 :
  body db = (inr a, db1) -> transaction body db = (inr a, db1).
Proof. unfold transaction. now intros ->. Qed.

(** Splits a successful run [(x <- c ;; k) db = (inr _, _)] into its steps. *)
Ltac inv_run H :=
  lazymatch type of H with
  | bind (require _ _) _ _ = (inr _, _) =>
      let a := fresh "u" in let d := fresh "db" in
      let H1 := fresh "Hreq" in let H2 := fresh "Hrun" in
      apply bind_inr in H; destruct H as (a & d & H1 & H2);
      apply require_inr in H1; destruct H1 as [H1 ->]; inv_run H2
  | bind get _ _ = (inr _, _) =>
      unfold bind at 1, get at 1 in H; inv_run H
  | bind (modify _) _ _ = (inr _, _) =>
      unfold bind at 1, modify at 1 in H; inv_run H
  | bind gen_random_uuid _ _ = (inr _, _) =>
      unfold bind at 1, gen_random_uuid at 1 in H; inv_run H
  | bind _ _ _ = (inr _, _) =>
      let a := fresh "v" in let d := fresh "db" in
      let H1 := fresh "Hstep" in let H2 := fresh "Hrun" in
      apply bind_inr in H; destruct H as (a & d & H1 & H2); inv_run H2
  | require _ _ _ = (inr _, _) =>
      let H1 := fresh "Hreq" in
      apply require_inr in H; destruct H as [H1 ->]
  | ret _ _ = (inr _, _) => unfold ret in H; inversion H; subst; clear H
  | modify _ _ = (inr _, _) => unfold modify in H; inversion H; subst; clear H
  | raise _ _ = (inr _, _) => discriminate H
  | _ => idtac
  end.

(** ** Lists and keys *)

Lemma existsb_false_forall {A} (f : A -> bool) l :
  existsb f l = false <-> forall x, In x l -> f x = false.
Proof.
  induction l as [| a l IH]; simpl.
  - split; [intros _ x [] | reflexivity].
  - rewrite orb_false_iff, IH. split.
    + intros [Ha Hl] x [<- | Hx]; auto.
    + intros H. split; [apply H; auto | intros x Hx; apply H; auto].
Qed.

(** Rows of a table with distinct keys are determined by their key. *)
Lemma distinct_key_inj {A} (key : A -> Z) l x y :
  distinct (map key l) = true -> In x l -> In y l -> key x = key y -> x = y.
Proof.
  induction l as [| a l IH]; simpl; [intros _ [] |].
  intros H Hx Hy Hk. apply andb_prop in H as [Ha Hl].
  apply negb_true_iff in Ha. rewrite existsb_false_forall in Ha.
  destruct Hx as [<- | Hx], Hy as [<- | Hy]; auto.
  - specialize (Ha (key y) (in_map key _ _ Hy)). rewrite Hk, Z.eqb_refl in Ha. discriminate.
  - specialize (Ha (key x) (in_map key _ _ Hx)). rewrite <- Hk, Z.eqb_refl in Ha. discriminate.
Qed.

Lemma distinct_pairs_inj {A} (key : A -> Z * Z) l x y :
  distinct_pairs (map key l) = true -> In x l -> In y l -> key x = key y -> x = y.
Proof.
  induction l as [| a l IH]; simpl; [intros _ [] |].
  destruct (key a) as [k1 k2] eqn:Eka.
  intros H Hx Hy Hk. apply andb_prop in H as [Ha Hl].
  apply negb_true_iff in Ha. rewrite existsb_false_forall in Ha.
  destruct Hx as [<- | Hx], Hy as [<- | Hy]; auto.
  - specialize (Ha (key y) (in_map key _ _ Hy)).
    rewrite <- Hk, Eka in Ha. simpl in Ha. rewrite !Z.eqb_refl in Ha. discriminate.
  - specialize (Ha (key x) (in_map key _ _ Hx)).
    rewrite Hk, Eka in Ha. simpl in Ha. rewrite !Z.eqb_refl in Ha. discriminate.
Qed.

(** With distinct keys, deleting by key removes exactly the one row. *)
Lemma filter_key_neq {A} (key : A -> Z) l x y :
  distinct (map key l) = true -> In x l ->
  (In y (filter (fun r => negb (key r =? key x)) l) <-> In y l /\ y <> x).
Proof.
  intros Hd Hx. rewrite filter_In, negb_true_iff, Z.eqb_neq. split.
  - intros [Hy Hk]. split; [assumption | congruence].
  - intros [Hy Hne]. split; [assumption |].
    intros Hk. apply Hne. eapply distinct_key_inj; eauto.
Qed.

Lemma filter_all {A} (l : list A) : filter (fun _ => true) l = l.
Proof. induction l as [| a l IH]; simpl; [reflexivity | now rewrite IH]. Qed.

(** With distinct keys, deleting by key takes one row out of every count
    that counted it. *)
Lemma count_after_delete {A} (key : A -> Z) (P : A -> bool) l m :
  distinct (map key l) = true -> In m l ->
  Nat.add (List.length (filter P (filter (fun x => negb (key x =? key m)) l)))
          (if P m then 1%nat else 0%nat)
  = List.length (filter P l).
Proof.
  induction l as [| a l IH]; simpl; [intros _ [] |].
  intros Hd Hin. apply andb_prop in Hd as [Ha Hd].
  apply negb_true_iff in Ha. rewrite existsb_false_forall in Ha.
  destruct Hin as [-> | Hin].
  - rewrite Z.eqb_refl. simpl.
    assert (Hsame : filter (fun x => negb (key x =? key m)) l = l).
    { apply forallb_filter_id. apply forallb_forall. intros x Hx.
      specialize (Ha (key x) (in_map key _ _ Hx)).
      rewrite Z.eqb_sym in Ha. now rewrite Ha. }
    rewrite Hsame. destruct (P m); simpl; lia.
  - assert (Hne : (key a =? key m) = false).
    { specialize (Ha (key m) (in_map key _ _ Hin)). exact Ha. }
    rewrite Hne. simpl. specialize (IH Hd Hin).
    destruct (P a); simpl; lia.
Qed.

Lemma consistent_parts db :
  consistent db = true ->
  keys_ok db = true /\ foreign_keys_ok db = true /\ uuids_fresh db = true.
Proof.
  unfold consistent. intros H.
  apply andb_prop in H as [H H3]. apply andb_prop in H as [H1 H2]. auto.
Qed.

Lemma fresh_not_in {A} (key : A -> Z) l n :
  forallb (fun a => key a <? n) l = true ->
  existsb (fun a => key a =? n) l = false.
Proof.
  rewrite forallb_forall, existsb_false_forall.
  intros H x Hx. specialize (H x Hx). apply Z.ltb_lt in H. apply Z.eqb_neq. lia.
Qed.

(** ** The audit trigger *)

Lemma insert_audit_log_ok ss o t r op old new by_ db :
  forallb (fun a => a_id a <? next_uuid db) (audit_log db) = true ->
  org_exists db o = true ->
  fk_user db by_ = true ->
  insert_audit_log ss (Some o) t (Some r) op old new by_ db =
  (inr tt,
   set_audit_log
     (audit_log db ++
      [mk_audit (next_uuid db) o t r op old new by_ (Some (now ss))])
     (set_next_uuid (next_uuid db + 1) db)).
Proof.
  intros Hfresh Horg Huser.
  unfold insert_audit_log, bind, gen_random_uuid, get. simpl.
  rewrite (fresh_not_in a_id _ _ Hfresh). simpl.
  change (org_exists (set_next_uuid (next_uuid db + 1) db) o) with (org_exists db o).
  rewrite Horg. simpl.
  change (fk_user (set_next_uuid (next_uuid db + 1) db) by_) with (fk_user db by_).
  rewrite Huser. reflexivity.
Qed.

Lemma insert_audit_log_inr ss o t r op old new by_ db u db' :
  insert_audit_log ss o t r op old new by_ db = (inr u, db') ->
  exists o' r',
    o = Some o' /\ r = Some r' /\
    db' = set_audit_log
            (audit_log db ++
             [mk_audit (next_uuid db) o' t r' op old new by_ (Some (now ss))])
            (set_next_uuid (next_uuid db + 1) db).
Proof.
  unfold insert_audit_log. intros H.
  unfold bind at 1, gen_random_uuid at 1 in H.
  unfold bind at 1, get at 1 in H.
  destruct o as [o' |]; [| discriminate H].
  destruct r as [r' |]; [| discriminate H].
  inv_run H. exists o', r'. auto.
Qed.

(** ** leave_organization *)

Lemma is_caller_iff ss u : is_caller ss u = true <-> auth_uid ss = Some u.
Proof.
  unfold is_caller, sql_eq_uuid. destruct (auth_uid ss) as [v |]; simpl.
  - destruct (Z.eqb_spec u v); split; intros H; congruence.
  - split; discriminate.
Qed.

Lemma find_caller_membership ss db org m :
  keys_ok db = true ->
  caller_membership ss db org m ->
  find (fun m => is_caller ss (m_user_id m) && (m_organization_id m =? org))
       (memberships db) = Some m.
Proof.
  intros Hk (Hin & Hu & Ho).
  unfold keys_ok in Hk. repeat (apply andb_prop in Hk as [Hk ?]).
  destruct (find _ (memberships db)) as [m0 |] eqn:E.
  - apply find_some in E as [Hin0 Hp]. apply andb_prop in Hp as [Hc Hq].
    apply is_caller_iff in Hc. apply Z.eqb_eq in Hq. f_equal.
    eapply (distinct_pairs_inj (fun m => (m_user_id m, m_organization_id m))); eauto.
    simpl. f_equal; congruence.
  - exfalso. eapply find_none in E; eauto. simpl in E.
    rewrite (proj2 (is_caller_iff ss (m_user_id m)) Hu) in E.
    rewrite Ho, Z.eqb_refl in E. discriminate.
Qed.

Lemma find_by_m_id db m :
  keys_ok db = true -> In m (memberships db) ->
  find (fun x => m_id x =? m_id m) (memberships db) = Some m.
Proof.
  intros Hk Hin. unfold keys_ok in Hk. repeat (apply andb_prop in Hk as [Hk ?]).
  destruct (find _ (memberships db)) as [m0 |] eqn:E.
  - apply find_some in E as [Hin0 Hp]. apply Z.eqb_eq in Hp. f_equal.
    eapply (distinct_key_inj m_id); eauto.
  - eapply find_none in E; eauto. simpl in E. rewrite Z.eqb_refl in E. discriminate.
Qed.

Lemma membership_fk db m :
  foreign_keys_ok db = true -> In m (memberships db) ->
  user_exists db (m_user_id m) = true /\ org_exists db (m_organization_id m) = true.
Proof.
  unfold foreign_keys_ok. intros H Hin. repeat (apply andb_prop in H as [H ?]).
  rewrite forallb_forall in H. apply andb_prop. now apply H.
Qed.

Lemma delete_membership_ok ss db m :
  consistent db = true -> In m (memberships db) ->
  auth_uid ss = Some (m_user_id m) ->
  delete_membership ss (m_id m) db = (inr tt, after_leave ss db m).
Proof.
  intros Hc Hin Hu. apply consistent_parts in Hc as (Hk & Hf & Hfresh).
  unfold delete_membership, bind at 1, get at 1.
  rewrite (find_by_m_id db m Hk Hin).
  unfold bind at 1, modify at 1, audit_trigger. simpl coalesce.
  destruct (membership_fk db m Hf Hin) as [Huser Horg].
  rewrite insert_audit_log_ok; [reflexivity | | exact Horg |].
  - unfold uuids_fresh in Hfresh. repeat (apply andb_prop in Hfresh as [Hfresh ?]).
    exact Hfresh.
  - rewrite Hu. exact Huser.
Qed.

(** C7. [leave_organization] called by the sole owner raises the
    sole-owner error (an invariant violation) and writes nothing; called by
    a member who is not the sole owner it deletes the caller's own
    membership row and no other; called by a non-member it raises and
    writes nothing. *)
Theorem leave_organization_cases (ss : session) (p_org_id : uuid) (db : DB) :
  consistent db = true ->
  (forall m, caller_membership ss db p_org_id m ->
     m_role m = owner -> owner_count db p_org_id = 1%nat ->
     leave_organization ss p_org_id db = (inl Cannot_leave_only_owner, db)
     /\ transaction (leave_organization ss p_org_id) db = (inl Cannot_leave_only_owner, db)
     /\ kind_of Cannot_leave_only_owner = InvariantViolation)
  /\ (forall m, caller_membership ss db p_org_id m ->
        m_role m <> owner \/ (2 <= owner_count db p_org_id)%nat ->
        exists db',
          transaction (leave_organization ss p_org_id) db = (inr tt, db')
          /\ (forall x, In x (memberships db') <-> In x (memberships db) /\ x <> m)
          /\ S (List.length (memberships db')) = List.length (memberships db)
          /\ users db' = users db /\ organizations db' = organizations db
          /\ inventory db' = inventory db /\ transactions db' = transactions db
          /\ invites db' = invites db)
  /\ ((forall m, ~ caller_membership ss db p_org_id m) ->
        leave_organization ss p_org_id db = (inl Not_a_member_of_this_organization, db)
        /\ transaction (leave_organization ss p_org_id) db
           = (inl Not_a_member_of_this_organization, db)).
Proof.
  intros Hc. pose proof (consistent_parts db Hc) as (Hk & Hf & Hfresh).
  split; [| split].
  - intros m Hm Hrole Hcount.
    assert (E : leave_organization ss p_org_id db = (inl Cannot_leave_only_owner, db)).
    { unfold leave_organization, bind at 1, get at 1.
      rewrite (find_caller_membership ss db p_org_id m Hk Hm).
      rewrite Hrole, Hcount. reflexivity. }
    split; [exact E | split; [| reflexivity]].
    eapply transaction_error; exact E.
  - intros m Hm Hnot. exists (after_leave ss db m).
    assert (E : leave_organization ss p_org_id db = (inr tt, after_leave ss db m)).
    { unfold leave_organization, bind at 1, get at 1.
      rewrite (find_caller_membership ss db p_org_id m Hk Hm).
      destruct Hm as (Hin & Hu & Ho).
      assert (Hguard :
        (if role_eqb (m_role m) owner
         then if (owner_count db p_org_id <=? 1)%nat
              then raise Cannot_leave_only_owner else ret tt
         else ret tt) db = (inr tt, db)).
      { destruct (role_eqb (m_role m) owner) eqn:Er; [| reflexivity].
        apply role_eqb_eq in Er. destruct Hnot as [Hne | Hge]; [contradiction |].
        destruct (Nat.leb_spec (owner_count db p_org_id) 1); [lia | reflexivity]. }
      rewrite (bind_eq _ _ _ _ _ Hguard).
      now apply delete_membership_ok. }
    split; [eapply transaction_ok; exact E |].
    assert (Hids : distinct (map m_id (memberships db)) = true).
    { unfold keys_ok in Hk. repeat (apply andb_prop in Hk as [Hk ?]). exact Hk. }
    split; [| split; [| repeat split]].
    + intros x. simpl. apply filter_key_neq; [exact Hids | apply Hm].
    + simpl.
      pose proof (count_after_delete m_id (fun _ => true) (memberships db) m Hids
                    (proj1 Hm)) as Hcount.
      rewrite !filter_all in Hcount. lia.
  - intros Hnone.
    assert (E : leave_organization ss p_org_id db
                = (inl Not_a_member_of_this_organization, db)).
    { unfold leave_organization, bind at 1, get at 1.
      destruct (find _ (memberships db)) as [m |] eqn:Efind; [| reflexivity].
      exfalso. apply find_some in Efind as [Hin Hp].
      apply andb_prop in Hp as [Hcaller Horg].
      apply (Hnone m). repeat split; [exact Hin | | now apply Z.eqb_eq].
      now apply is_caller_iff. }
    split; [exact E | eapply transaction_error; exact E].
Qed.

Lemma leave_organization_cases_witness :
  consistent test_db = true
  /\ leave_organization as_owner 10 test_db = (inl Cannot_leave_only_owner, test_db)
  /\ (exists db',
        transaction (leave_organization as_member 10) test_db = (inr tt, db')
        /\ forall x, In x (memberships db') <-> In x (memberships test_db) /\ x <> test_member)
  /\ leave_organization as_outsider 10 test_db
     = (inl Not_a_member_of_this_organization, test_db).
Proof.
  split; [reflexivity | split; [| split]].
  - destruct (leave_organization_cases as_owner 10 test_db eq_refl) as (Hsole & _ & _).
    apply (Hsole test_owner); [| reflexivity | reflexivity].
    repeat split. simpl. auto.
  - destruct (leave_organization_cases as_member 10 test_db eq_refl) as (_ & Hleave & _).
    destruct (Hleave test_member) as (db' & Hrun & Hrows & _ & _).
    + repeat split. simpl. auto.
    + left. discriminate.
    + exists db'. auto.
  - destruct (leave_organization_cases as_outsider 10 test_db eq_refl) as (_ & _ & Hnone).
    apply Hnone. intros m (Hin & Hu & _). simpl in Hin, Hu.
    destruct Hin as [<- | [<- | []]]; discriminate Hu.
Defined.

(** ** Inserting a membership *)

Lemma check_membership_inr db skip NEW d u d' :
  check_membership db skip NEW d = (inr u, d') ->
  d' = d
  /\ user_exists db (m_user_id NEW) = true
  /\ org_exists db (m_organization_id NEW) = true
  /\ existsb (fun m => negb (skip (m_id m))
                       && (m_user_id m =? m_user_id NEW)
                       && (m_organization_id m =? m_organization_id NEW))
             (memberships db) = false.
Proof.
  unfold check_membership. intros H. inv_run H.
  repeat match goal with
         | Hn : negb _ = true |- _ => apply negb_true_iff in Hn
         end.
  auto.
Qed.

Lemma insert_membership_inr ss user_id org role invited_by invited_at accepted_at db m db' :
  insert_membership ss user_id org role invited_by invited_at accepted_at db = (inr m, db') ->
  exists u,
    user_id = Some u
    /\ m = mk_membership (next_uuid db) u org role invited_by invited_at accepted_at
                         (Some (now ss))
    /\ db' = mk_db (users db) (organizations db) (memberships db ++ [m]) (inventory db)
                   (transactions db) (invites db)
                   (audit_log db ++
                    [mk_audit (next_uuid db + 1) org "memberships" (next_uuid db) INSERT
                              None (Some (MembershipImage m)) (auth_uid ss) (Some (now ss))])
                   (next_uuid db + 1 + 1)
    /\ existsb (fun x => (m_user_id x =? u) && (m_organization_id x =? org))
               (memberships db) = false.
Proof.
  unfold insert_membership. intros H.
  unfold bind at 1, gen_random_uuid at 1 in H.
  destruct user_id as [u |]; [| discriminate H].
  inv_run H.
  apply check_membership_inr in Hstep as (-> & _ & _ & Huniq).
  unfold audit_trigger in Hstep0. apply insert_audit_log_inr in Hstep0 as (o' & r' & Ho & Hr & ->).
  simpl in Ho, Hr. inversion Ho; inversion Hr; subst o' r'.
  exists u. repeat split. exact Huniq.
Qed.

(** ** accept_invite *)

Lemma for_each_checks_state {A} (f : A -> M unit) l db u db' :
  (forall x d v d', f x d = (inr v, d') -> d' = d) ->
  for_each f l db = (inr u, db') -> db' = db.
Proof.
  intros Hf. revert db. induction l as [| x l IH]; simpl; intros db H.
  - inversion H. reflexivity.
  - apply bind_inr in H as (v & d1 & H1 & H2).
    apply Hf in H1 as ->. now apply IH.
Qed.

Lemma check_invite_state db skip NEW d u d' :
  check_invite db skip NEW d = (inr u, d') -> d' = d.
Proof.
  unfold check_invite. intros H. inv_run H. reflexivity.
Qed.

Lemma update_invite_inr id set db u db' :
  update_invite id set db = (inr u, db') ->
  db' = set_invites (map (fun i => if i_id i =? id then set i else i) (invites db)) db.
Proof.
  unfold update_invite. intros H. inv_run H.
  apply for_each_checks_state in Hstep as ->; [reflexivity |].
  intros ? ? ? ?. apply check_invite_state.
Qed.

Lemma find_map_token (f : invite -> invite) t l :
  (forall i, i_token (f i) = i_token i) ->
  find (fun i => String.eqb (i_token i) t) (map f l)
  = option_map f (find (fun i => String.eqb (i_token i) t) l).
Proof.
  intros Hf. induction l as [| a l IH]; simpl; [reflexivity |].
  rewrite Hf. destruct (String.eqb (i_token a) t); [reflexivity | exact IH].
Qed.

Lemma is_not_null_true {A} (x : option A) : is_not_null x = true <-> x <> None.
Proof. destruct x; cbv; split; intros H; congruence. Qed.

Lemma is_not_null_false {A} (x : option A) : is_not_null x = false <-> x = None.
Proof. destruct x; cbv; split; intros H; congruence. Qed.

Lemma expired_iff ss v :
  is_true (sql_lt_ts (i_expires_at v) (now ss)) = true <-> expired ss v.
Proof.
  unfold expired, sql_lt_ts. destruct (i_expires_at v) as [t |]; simpl.
  - destruct (Z.ltb_spec t (now ss)); split.
    + intros _. eauto.
    + reflexivity.
    + discriminate.
    + intros (t' & Ht & Hlt). inversion Ht. lia.
  - split; [discriminate | intros (t' & Ht & _); discriminate].
Qed.

Lemma org_soft_deleted_iff db o :
  existsb (fun r => (org_id r =? o) && is_not_null (org_deleted_at r))
          (organizations db) = true
  <-> org_soft_deleted db o.
Proof.
  unfold org_soft_deleted. rewrite existsb_exists. split.
  - intros (r & Hin & H). apply andb_prop in H as [H1 H2].
    exists r. repeat split; [exact Hin | now apply Z.eqb_eq | now apply is_not_null_true].
  - intros (r & Hin & H1 & H2). exists r. split; [exact Hin |].
    apply andb_true_intro. split; [now apply Z.eqb_eq | now apply is_not_null_true].
Qed.

Lemma sql_neq_text_iff a b :
  is_true (sql_neq_text (Some a) (Some b)) = true <-> a <> b.
Proof.
  simpl. destruct (String.eqb_spec a b); simpl; split; congruence.
Qed.

Lemma not_true_false b : b <> true -> b = false.
Proof. now destruct b. Qed.

(** ** Frame reasoning *)

Section Frame.
Context {X : Type} (part : DB -> X).

Lemma preserves_ret {A} (a : A) : preserves part (ret a).
Proof. intros db r db' H. inversion H. reflexivity. Qed.

Lemma preserves_raise {A} e : preserves part (@raise A e).
Proof. intros db r db' H. inversion H. reflexivity. Qed.

Lemma preserves_get : preserves part get.
Proof. intros db r db' H. inversion H. reflexivity. Qed.

Lemma preserves_require ok e : preserves part (require ok e).
Proof. destruct ok; [apply preserves_ret | apply preserves_raise]. Qed.

Lemma preserves_bind {A B} (c : M A) (k : A -> M B) :
  preserves part c -> (forall a, preserves part (k a)) -> preserves part (bind c k).
Proof.
  intros Hc Hk db r db'. unfold bind.
  destruct (c db) as [[e | a] db1] eqn:E; intros H.
  - inversion H; subst. eapply Hc; eauto.
  - apply Hk in H. apply Hc in E. congruence.
Qed.

Lemma preserves_modify f :
  (forall db, part (f db) = part db) -> preserves part (modify f).
Proof. intros Hf db r db' H. inversion H. apply Hf. Qed.

Lemma preserves_gen_random_uuid :
  (forall n db, part (set_next_uuid n db) = part db) -> preserves part gen_random_uuid.
Proof. intros Hf db r db' H. inversion H. apply Hf. Qed.

Lemma preserves_for_each {A} (f : A -> M unit) l :
  (forall x, preserves part (f x)) -> preserves part (for_each f l).
Proof.
  intros Hf. induction l as [| x l IH]; simpl.
  - apply preserves_ret.
  - apply preserves_bind; [apply Hf | intros _; exact IH].
Qed.

Lemma preserves_transaction {A} (c : M A) db :
  preserves part c -> part (snd (transaction c db)) = part db.
Proof.
  intros Hc. unfold transaction.
  destruct (c db) as [[e | a] db1] eqn:E; simpl; [reflexivity |].
  eapply Hc; eauto.
Qed.
End Frame.

(** Decomposes a frame goal along the structure of the computation. *)
Ltac frame_step :=
  first
    [ apply preserves_ret | apply preserves_raise | apply preserves_get
    | apply preserves_require
    | apply preserves_modify; intros; reflexivity
    | apply preserves_gen_random_uuid; intros; reflexivity
    | apply preserves_for_each; intros
    | apply preserves_bind; [| intros]
    | match goal with
      | |- preserves _ (match ?x with _ => _ end) => destruct x
      end ].

Ltac frame := repeat frame_step.

Lemma insert_audit_log_frame {X} (part : DB -> X) ss o t r op old new by_ :
  (forall n db, part (set_next_uuid n db) = part db) ->
  (forall l db, part (set_audit_log l db) = part db) ->
  preserves part (insert_audit_log ss o t r op old new by_).
Proof.
  intros H1 H2. unfold insert_audit_log.
  apply preserves_bind; [now apply preserves_gen_random_uuid | intros].
  apply preserves_bind; [apply preserves_get | intros].
  destruct o; [destruct r |]; frame.
  apply preserves_modify. intros. apply H2.
Qed.

(** No procedure other than [accept_invite] writes to [invites]. *)
Lemma create_organization_invites ss n s : preserves invites (create_organization ss n s).
Proof.
  unfold create_organization, insert_organization, insert_membership,
    check_organization, check_membership, audit_trigger_organizations, audit_trigger.
  destruct (negb (slug_format s)); frame;
    apply insert_audit_log_frame; intros; reflexivity.
Qed.

Lemma mark_card_sold_invites ss i p e n : preserves invites (mark_card_sold ss i p e n).
Proof.
  unfold mark_card_sold, update_inventory, insert_transaction, check_inventory,
    audit_trigger.
  frame; apply insert_audit_log_frame; intros; reflexivity.
Qed.

Lemma soft_delete_organization_invites ss o :
  preserves invites (soft_delete_organization ss o).
Proof.
  unfold soft_delete_organization, update_organization, check_organization,
    audit_trigger_organizations.
  frame; apply insert_audit_log_frame; intros; reflexivity.
Qed.

Lemma leave_organization_invites ss o : preserves invites (leave_organization ss o).
Proof.
  unfold leave_organization, delete_membership, audit_trigger.
  frame; apply insert_audit_log_frame; intros; reflexivity.
Qed.

(** What a successful [accept_invite] went through and wrote. *)
Lemma accept_invite_inr ss p_token db m db' :
  accept_invite ss p_token db = (inr m, db') ->
  exists v u,
    invite_by_token db p_token = Some v
    /\ is_not_null (i_revoked_at v) = false
    /\ is_not_null (i_accepted_at v) = false
    /\ is_true (sql_lt_ts (i_expires_at v) (now ss)) = false
    /\ existsb (fun o => (org_id o =? i_organization_id v)
                         && is_not_null (org_deleted_at o))
               (organizations db) = false
    /\ is_true (sql_neq_text (option_map lower (user_email db (auth_uid ss)))
                             (Some (lower (i_email v)))) = false
    /\ auth_uid ss = Some u
    /\ m = mk_membership (next_uuid db) u (i_organization_id v) (i_role v)
                         (i_invited_by v) (i_created_at v) (Some (now ss))
                         (Some (now ss))
    /\ memberships db' = memberships db ++ [m]
    /\ invites db'
       = map (fun i => if i_id i =? i_id v then set_accepted_at (Some (now ss)) i else i)
             (invites db).
Proof.
  unfold accept_invite, invite_by_token. intros H.
  unfold bind at 1, get at 1 in H.
  destruct (find _ (invites db)) as [v |]; [| discriminate H].
  destruct (is_not_null (i_revoked_at v)) eqn:E1; [discriminate H |].
  destruct (is_not_null (i_accepted_at v)) eqn:E2; [discriminate H |].
  destruct (is_true (sql_lt_ts (i_expires_at v) (now ss))) eqn:E3; [discriminate H |].
  destruct (existsb _ (organizations db)) eqn:E4; [discriminate H |].
  destruct (is_true (sql_neq_text _ _)) eqn:E5; [discriminate H |].
  inv_run H.
  match goal with
  | Hi : insert_membership _ _ _ _ _ _ _ _ = _ |- _ =>
      apply insert_membership_inr in Hi as (u & Hu & Hm & Hdb & _)
  end.
  match goal with
  | Hi : update_invite _ _ _ = _ |- _ => apply update_invite_inr in Hi
  end.
  exists v, u. subst. repeat split; auto.
Qed.

Lemma accepted_invite_by_token db t v f :
  invite_by_token db t = Some v ->
  (forall i, i_token (f i) = i_token i) ->
  find (fun i => String.eqb (i_token i) t) (map f (invites db)) = Some (f v).
Proof.
  unfold invite_by_token. intros Hv Hf. rewrite find_map_token by exact Hf.
  now rewrite Hv.
Qed.

(** ** Runs that succeed

    What the inserts and the update of [accept_invite] and
    [create_organization] do when every constraint is met. *)

Lemma skip_own_key {A} (key : A -> Z) (k : Z) l :
  existsb (fun r => negb (key r =? k) && (key r =? k)) l = false.
Proof.
  apply existsb_false_forall. intros x _. now destruct (key x =? k).
Qed.

Lemma for_each_ok {A} (f : A -> M unit) l db :
  (forall x, In x l -> f x db = (inr tt, db)) ->
  for_each f l db = (inr tt, db).
Proof.
  induction l as [| a l IH]; intros H; simpl; [reflexivity |].
  rewrite (bind_eq _ _ db tt db) by (apply H; now left).
  apply IH. intros x Hx. apply H. now right.
Qed.

Lemma forallb_lt_weaken {A} (key : A -> Z) l n k :
  forallb (fun a => key a <? n) l = true -> n <= k ->
  forallb (fun a => key a <? k) l = true.
Proof.
  rewrite !forallb_forall. intros H Hle x Hx. specialize (H x Hx).
  apply Z.ltb_lt in H. apply Z.ltb_lt. lia.
Qed.

Lemma check_organization_ok db skip NEW d :
  name_valid (org_name NEW) = true -> slug_format (org_slug NEW) = true ->
  slug_not_reserved (org_slug NEW) = true ->
  existsb (fun o => negb (skip (org_id o)) && (org_id o =? org_id NEW))
          (organizations db) = false ->
  existsb (fun o => negb (skip (org_id o)) && String.eqb (org_slug o) (org_slug NEW))
          (organizations db) = false ->
  check_organization db skip NEW d = (inr tt, d).
Proof.
  intros H1 H2 H3 H4 H5. unfold check_organization. now rewrite H1, H2, H3, H4, H5.
Qed.

Lemma check_membership_ok db skip NEW d :
  existsb (fun m => negb (skip (m_id m)) && (m_id m =? m_id NEW)) (memberships db) = false ->
  existsb (fun m => negb (skip (m_id m)) && (m_user_id m =? m_user_id NEW)
                    && (m_organization_id m =? m_organization_id NEW))
          (memberships db) = false ->
  user_exists db (m_user_id NEW) = true ->
  org_exists db (m_organization_id NEW) = true ->
  fk_user db (m_invited_by NEW) = true ->
  check_membership db skip NEW d = (inr tt, d).
Proof.
  intros H1 H2 H3 H4 H5. unfold check_membership. now rewrite H1, H2, H3, H4, H5.
Qed.

Lemma insert_membership_ok ss u org role invited_by invited_at accepted_at db :
  forallb (fun a => a_id a <? next_uuid db) (audit_log db) = true ->
  forallb (fun m => m_id m <? next_uuid db) (memberships db) = true ->
  existsb (fun x => (m_user_id x =? u) && (m_organization_id x =? org))
          (memberships db) = false ->
  user_exists db u = true -> org_exists db org = true ->
  fk_user db invited_by = true -> auth_uid ss = Some u ->
  insert_membership ss (Some u) org role invited_by invited_at accepted_at db
  = (inr (mk_membership (next_uuid db) u org role invited_by invited_at accepted_at
                        (Some (now ss))),
     mk_db (users db) (organizations db)
           (memberships db ++
            [mk_membership (next_uuid db) u org role invited_by invited_at accepted_at
                           (Some (now ss))])
           (inventory db) (transactions db) (invites db)
           (audit_log db ++
            [mk_audit (next_uuid db + 1) org "memberships" (next_uuid db) INSERT None
                      (Some (MembershipImage
                               (mk_membership (next_uuid db) u org role invited_by invited_at
                                              accepted_at (Some (now ss)))))
                      (auth_uid ss) (Some (now ss))])
           (next_uuid db + 1 + 1)).
Proof.
  intros Haudit Hfresh Hpair Huser Horg Hinv Hcaller.
  unfold insert_membership, bind at 1, gen_random_uuid at 1.
  unfold bind at 1, get at 1.
  rewrite (bind_eq _ _ _ tt (set_next_uuid (next_uuid db + 1) db)).
  2:{ apply check_membership_ok; simpl; try assumption.
      apply (fresh_not_in m_id _ _ Hfresh). }
  unfold bind at 1, modify at 1. unfold audit_trigger. simpl coalesce.
  erewrite bind_eq.
  2:{ apply insert_audit_log_ok.
      - simpl. apply (forallb_lt_weaken a_id _ _ _ Haudit). lia.
      - exact Horg.
      - rewrite Hcaller. exact Huser. }
  reflexivity.
Qed.

Lemma invites_ok_row db i :
  invites_ok db = true -> In i (invites db) ->
  org_exists db (i_organization_id i) = true
  /\ fk_user db (i_invited_by i) = true
  /\ existsb (fun x => negb (i_id x =? i_id i) && String.eqb (i_token x) (i_token i))
             (invites db) = false.
Proof.
  unfold invites_ok. rewrite forallb_forall. intros H Hin. specialize (H i Hin).
  apply andb_prop in H as [H H3]. apply andb_prop in H as [H1 H2].
  apply negb_true_iff in H3. auto.
Qed.

(** [UPDATE invites SET accepted_at = t WHERE id = id]: an accepted row
    leaves the partial index, so only the keys and the foreign keys are
    checked. *)
Lemma update_invite_accepted_ok id t db :
  (forall i, In i (invites db) -> i_id i = id ->
     org_exists db (i_organization_id i) = true
     /\ fk_user db (i_invited_by i) = true
     /\ existsb (fun x => negb (i_id x =? i_id i) && String.eqb (i_token x) (i_token i))
                (invites db) = false) ->
  update_invite id (set_accepted_at (Some t)) db
  = (inr tt,
     set_invites (map (fun i => if i_id i =? id then set_accepted_at (Some t) i else i)
                      (invites db)) db).
Proof.
  intros Hrows. unfold update_invite, bind at 1, get at 1.
  rewrite (bind_eq _ _ db tt db); [reflexivity |].
  apply for_each_ok. intros OLD Hin. apply filter_In in Hin as [Hin Hid].
  apply Z.eqb_eq in Hid. destruct (Hrows OLD Hin Hid) as (Horg & Hby & Htok).
  unfold check_invite. simpl i_id. simpl i_token. simpl i_organization_id.
  simpl i_invited_by. rewrite <- Hid.
  rewrite (skip_own_key i_id). rewrite Htok.
  change (in_pending_index (set_accepted_at (Some t) OLD)) with false.
  rewrite Horg, Hby. reflexivity.
Qed.

(** A caller who passes the six checks of [accept_invite] and is not yet a
    member of the organization is made one; the email check is passed when
    the three-valued [!=] is not true. *)
Lemma accept_invite_ok ss p_token db v u :
  consistent db = true -> invites_ok db = true ->
  invite_by_token db p_token = Some v ->
  i_revoked_at v = None -> i_accepted_at v = None -> ~ expired ss v ->
  ~ org_soft_deleted db (i_organization_id v) ->
  is_true (sql_neq_text (option_map lower (user_email db (auth_uid ss)))
                        (Some (lower (i_email v)))) = false ->
  auth_uid ss = Some u -> user_exists db u = true ->
  (forall m, ~ caller_membership ss db (i_organization_id v) m) ->
  exists m db',
    accept_invite ss p_token db = (inr m, db')
    /\ m = mk_membership (next_uuid db) u (i_organization_id v) (i_role v)
                         (i_invited_by v) (i_created_at v) (Some (now ss)) (Some (now ss))
    /\ memberships db' = memberships db ++ [m]
    /\ invites db'
       = map (fun i => if i_id i =? i_id v then set_accepted_at (Some (now ss)) i else i)
             (invites db).
Proof.
  intros Hc Hinv Hv Hrev Hacc Hexp Hlive Hmail Hu Huser Hnot.
  apply consistent_parts in Hc as (Hk & Hf & Hfresh).
  unfold uuids_fresh in Hfresh. repeat (apply andb_prop in Hfresh as [Hfresh ?]).
  unfold invite_by_token in Hv. pose proof (find_some _ _ Hv) as [Hin _].
  destruct (invites_ok_row db v Hinv Hin) as (Horg & Hby & _).
  assert (Hpair :
    existsb (fun x => (m_user_id x =? u) && (m_organization_id x =? i_organization_id v))
            (memberships db) = false).
  { apply not_true_is_false. intros E. apply existsb_exists in E as (m & Hm & Hp).
    apply andb_prop in Hp as [Hp1 Hp2]. apply Z.eqb_eq in Hp1, Hp2.
    apply (Hnot m). repeat split; [exact Hm | rewrite Hu; now f_equal | exact Hp2]. }
  eexists. eexists. split.
  - unfold accept_invite, bind at 1, get at 1. rewrite Hv, Hrev, Hacc.
    change (is_not_null (@None timestamptz)) with false. cbv iota.
    rewrite (not_true_false _ (fun E => Hexp (proj1 (expired_iff ss v) E))).
    rewrite (not_true_false _ (fun E => Hlive (proj1 (org_soft_deleted_iff db _) E))).
    rewrite Hmail. rewrite Hu.
    erewrite bind_eq
      by (apply insert_membership_ok; assumption).
    erewrite bind_eq.
    2:{ apply update_invite_accepted_ok. intros i Hi _. simpl in Hi.
        exact (invites_ok_row db i Hinv Hi). }
    reflexivity.
  - repeat split.
Qed.

Lemma insert_organization_ok ss name slug db :
  forallb (fun a => a_id a <? next_uuid db) (audit_log db) = true ->
  forallb (fun o => org_id o <? next_uuid db) (organizations db) = true ->
  name_valid name = true -> slug_format slug = true -> slug_not_reserved slug = true ->
  existsb (fun o => String.eqb (org_slug o) slug) (organizations db) = false ->
  fk_user db (auth_uid ss) = true ->
  insert_organization ss name slug db
  = (inr (mk_organization (next_uuid db) name slug (Some (now ss)) (Some (now ss)) None),
     mk_db (users db)
           (organizations db ++
            [mk_organization (next_uuid db) name slug (Some (now ss)) (Some (now ss)) None])
           (memberships db) (inventory db) (transactions db) (invites db)
           (audit_log db ++
            [mk_audit (next_uuid db + 1) (next_uuid db) "organizations" (next_uuid db) INSERT
                      None
                      (Some (OrganizationImage
                               (mk_organization (next_uuid db) name slug (Some (now ss))
                                                (Some (now ss)) None)))
                      (auth_uid ss) (Some (now ss))])
           (next_uuid db + 1 + 1)).
Proof.
  intros Haudit Hfresh Hname Hfmt Hres Hslug Hcaller.
  unfold insert_organization, bind at 1, gen_random_uuid at 1.
  unfold bind at 1, get at 1.
  rewrite (bind_eq _ _ _ tt (set_next_uuid (next_uuid db + 1) db)).
  2:{ apply check_organization_ok; simpl; try assumption.
      apply (fresh_not_in org_id _ _ Hfresh). }
  unfold bind at 1, modify at 1. unfold audit_trigger_organizations. simpl coalesce.
  erewrite bind_eq.
  2:{ apply insert_audit_log_ok.
      - simpl. apply (forallb_lt_weaken a_id _ _ _ Haudit). lia.
      - unfold org_exists. simpl. rewrite existsb_app. simpl.
        rewrite Z.eqb_refl. apply orb_true_r.
      - exact Hcaller. }
  reflexivity.
Qed.

Lemma slug_not_reserved_iff s : slug_not_reserved s = true <-> ~ In s reserved_slugs.
Proof.
  unfold slug_not_reserved. rewrite negb_true_iff. split.
  - intros H Hin. apply not_true_iff_false in H. apply H.
    apply existsb_exists. exists s. split; [exact Hin | apply String.eqb_refl].
  - intros H. apply not_true_is_false. intros E.
    apply existsb_exists in E as (x & Hx & E). apply String.eqb_eq in E. now subst x.
Qed.

Lemma slug_unused db slug :
  (forall o, In o (organizations db) -> org_slug o <> slug) ->
  existsb (fun o => String.eqb (org_slug o) slug) (organizations db) = false.
Proof.
  intros Hfree. apply existsb_false_forall. intros o Ho.
  apply String.eqb_neq. exact (Hfree o Ho).
Qed.

(** The state after [create_organization] by user [u]: the organization,
    its audit entry, the owner membership and its audit entry. *)
Lemma create_organization_ok ss p_name p_slug db u :
  consistent db = true ->
  name_valid p_name = true -> slug_format p_slug = true -> slug_not_reserved p_slug = true ->
  (forall o, In o (organizations db) -> org_slug o <> p_slug) ->
  auth_uid ss = Some u -> user_exists db u = true ->
  create_organization ss p_name p_slug db
  = (inr (mk_organization (next_uuid db) p_name p_slug (Some (now ss)) (Some (now ss)) None),
     mk_db (users db)
           (organizations db ++
            [mk_organization (next_uuid db) p_name p_slug (Some (now ss)) (Some (now ss))
                             None])
           (memberships db ++
            [mk_membership (next_uuid db + 1 + 1) u (next_uuid db) owner None None
                           (Some (now ss)) (Some (now ss))])
           (inventory db) (transactions db) (invites db)
           (audit_log db ++
            [mk_audit (next_uuid db + 1) (next_uuid db) "organizations" (next_uuid db) INSERT
                      None
                      (Some (OrganizationImage
                               (mk_organization (next_uuid db) p_name p_slug (Some (now ss))
                                                (Some (now ss)) None)))
                      (auth_uid ss) (Some (now ss));
             mk_audit (next_uuid db + 1 + 1 + 1) (next_uuid db) "memberships"
                      (next_uuid db + 1 + 1) INSERT None
                      (Some (MembershipImage
                               (mk_membership (next_uuid db + 1 + 1) u (next_uuid db) owner
                                              None None (Some (now ss)) (Some (now ss)))))
                      (auth_uid ss) (Some (now ss))])
           (next_uuid db + 1 + 1 + 1 + 1)).
Proof.
  intros Hc Hname Hfmt Hres Hfree Hu Huser.
  apply consistent_parts in Hc as (Hk & Hf & Hfresh).
  unfold uuids_fresh in Hfresh. repeat (apply andb_prop in Hfresh as [Hfresh ?]).
  pose proof (slug_unused db p_slug Hfree) as Hslug.
  unfold create_organization. rewrite Hfmt. change (negb true) with false. cbv iota.
  erewrite bind_eq.
  2:{ apply insert_organization_ok; try assumption. rewrite Hu. exact Huser. }
  cbv beta. simpl org_id.
  erewrite bind_eq.
  2:{ rewrite Hu. apply insert_membership_ok.
      - simpl. apply forallb_forall. intros a Ha. apply in_app_or in Ha as [Ha | [<- | []]].
        + rewrite forallb_forall in Hfresh. specialize (Hfresh a Ha).
          apply Z.ltb_lt in Hfresh. apply Z.ltb_lt. lia.
        + simpl. apply Z.ltb_lt. lia.
      - simpl. match goal with
               | Hm : forallb _ (memberships db) = true |- _ =>
                   apply (forallb_lt_weaken m_id _ _ _ Hm); lia
               end.
      - simpl. apply existsb_false_forall. intros m Hm.
        destruct (membership_fk db m Hf Hm) as [_ Hex].
        apply existsb_exists in Hex as (o & Ho & Eo). apply Z.eqb_eq in Eo.
        match goal with
        | Ho' : forallb _ (organizations db) = true |- _ =>
            rewrite forallb_forall in Ho'; specialize (Ho' o Ho); apply Z.ltb_lt in Ho'
        end.
        apply andb_false_iff. right. apply Z.eqb_neq. lia.
      - exact Huser.
      - unfold org_exists. simpl. rewrite existsb_app. simpl.
        rewrite Z.eqb_refl. apply orb_true_r.
      - reflexivity.
      - exact Hu. }
  rewrite Hu. simpl. unfold ret. rewrite <- app_assoc. reflexivity.
Qed.

(** For an anonymous caller the organization is inserted and the insert of
    the membership then fails on [user_id NOT NULL]. *)
Lemma create_organization_anonymous ss p_name p_slug db :
  consistent db = true ->
  name_valid p_name = true -> slug_format p_slug = true -> slug_not_reserved p_slug = true ->
  (forall o, In o (organizations db) -> org_slug o <> p_slug) ->
  auth_uid ss = None ->
  exists d,
    create_organization ss p_name p_slug db = (inl (not_null_violation "user_id"), d)
    /\ organizations d
       = organizations db ++
         [mk_organization (next_uuid db) p_name p_slug (Some (now ss)) (Some (now ss)) None].
Proof.
  intros Hc Hname Hfmt Hres Hfree Hu.
  apply consistent_parts in Hc as (Hk & Hf & Hfresh).
  unfold uuids_fresh in Hfresh. repeat (apply andb_prop in Hfresh as [Hfresh ?]).
  pose proof (slug_unused db p_slug Hfree) as Hslug.
  unfold create_organization. rewrite Hfmt. change (negb true) with false. cbv iota.
  erewrite bind_eq.
  2:{ apply insert_organization_ok; try assumption. rewrite Hu. reflexivity. }
  cbv beta. rewrite Hu. eexists. split; reflexivity.
Qed.

Ltac success H Hv :=
  let v' := fresh "v'" in
  apply accept_invite_inr in H
    as (v' & ?u & ?Hv' & ?E1 & ?E2 & ?E3 & ?E4 & ?E5 & ?Hu & ?Hm & ?Hms & ?Hinv);
  match goal with
  | Hf : invite_by_token _ _ = Some v' |- _ =>
      unfold invite_by_token in Hf; rewrite Hv in Hf; inversion Hf; subst v'; clear Hf
  end.


(** The checks of [accept_invite], in order and before any write: that
    the token exists, that the invite is not revoked, not already accepted
    and not expired, that the organization is not soft-deleted, and the
    comparison of the caller's registered email with the invite's, up to
    case; the first failed check decides the error and the state is
    untouched. The comparison is the three-valued [!=]: it raises for a
    caller whose registered email differs, and for a caller who has no
    registered email it raises nothing. A successful call passed the
    checks in that sense, appended a membership of the caller with the
    invite's role and organization, and marked the invite accepted; and in
    a consistent state, a registered caller who passes them and is not yet
    a member of the organization does succeed. *)
Theorem accept_invite_validation (ss : session) (p_token : string) (db : DB) :
  (invite_by_token db p_token = None ->
     accept_invite ss p_token db = (inl Invalid_invite_token, db))
  /\ (forall v, invite_by_token db p_token = Some v ->
        (i_revoked_at v <> None ->
           accept_invite ss p_token db = (inl Invite_has_been_revoked, db))
        /\ (i_revoked_at v = None -> i_accepted_at v <> None ->
              accept_invite ss p_token db = (inl Invite_has_already_been_used, db))
        /\ (i_revoked_at v = None -> i_accepted_at v = None -> expired ss v ->
              accept_invite ss p_token db = (inl Invite_has_expired, db))
        /\ (i_revoked_at v = None -> i_accepted_at v = None -> ~ expired ss v ->
              org_soft_deleted db (i_organization_id v) ->
              accept_invite ss p_token db = (inl Organization_no_longer_exists, db))
        /\ (forall caller_email,
              i_revoked_at v = None -> i_accepted_at v = None -> ~ expired ss v ->
              ~ org_soft_deleted db (i_organization_id v) ->
              user_email db (auth_uid ss) = Some caller_email ->
              lower caller_email <> lower (i_email v) ->
              accept_invite ss p_token db
              = (inl Invite_is_for_a_different_email_address, db))
        /\ (forall m db',
              accept_invite ss p_token db = (inr m, db') ->
              (i_revoked_at v = None /\ i_accepted_at v = None /\ ~ expired ss v
               /\ ~ org_soft_deleted db (i_organization_id v)
               /\ (forall caller_email,
                     user_email db (auth_uid ss) = Some caller_email ->
                     lower caller_email = lower (i_email v)))
              /\ memberships db' = memberships db ++ [m]
              /\ auth_uid ss = Some (m_user_id m)
              /\ m_organization_id m = i_organization_id v
              /\ m_role m = i_role v
              /\ invite_by_token db' p_token = Some (set_accepted_at (Some (now ss)) v))
        /\ (forall u,
              consistent db = true -> invites_ok db = true ->
              i_revoked_at v = None -> i_accepted_at v = None -> ~ expired ss v ->
              ~ org_soft_deleted db (i_organization_id v) ->
              (forall caller_email,
                 user_email db (auth_uid ss) = Some caller_email ->
                 lower caller_email = lower (i_email v)) ->
              auth_uid ss = Some u -> user_exists db u = true ->
              (forall m, ~ caller_membership ss db (i_organization_id v) m) ->
              exists m db',
                accept_invite ss p_token db = (inr m, db')
                /\ memberships db' = memberships db ++ [m]
                /\ m_user_id m = u /\ m_role m = i_role v)).
Proof.
  unfold invite_by_token. split.
  - intros Hnone. unfold accept_invite, bind at 1, get at 1. now rewrite Hnone.
  - intros v Hv.
    assert (Hrev : forall x : option timestamptz, x = None -> is_not_null x = false)
      by (intros x ->; reflexivity).
    split; [| split; [| split; [| split; [| split; [| split]]]]].
    + intros H1. unfold accept_invite, bind at 1, get at 1. rewrite Hv.
      now rewrite (proj2 (is_not_null_true _) H1).
    + intros H1 H2. unfold accept_invite, bind at 1, get at 1. rewrite Hv.
      rewrite (Hrev _ H1). now rewrite (proj2 (is_not_null_true _) H2).
    + intros H1 H2 H3. unfold accept_invite, bind at 1, get at 1. rewrite Hv.
      rewrite (Hrev _ H1), (Hrev _ H2). now rewrite (proj2 (expired_iff ss v) H3).
    + intros H1 H2 H3 H4. unfold accept_invite, bind at 1, get at 1. rewrite Hv.
      rewrite (Hrev _ H1), (Hrev _ H2).
      rewrite (not_true_false _ (fun E => H3 (proj1 (expired_iff ss v) E))).
      now rewrite (proj2 (org_soft_deleted_iff db _) H4).
    + intros caller_email H1 H2 H3 H4 Hemail H5.
      unfold accept_invite, bind at 1, get at 1. rewrite Hv.
      rewrite (Hrev _ H1), (Hrev _ H2).
      rewrite (not_true_false _ (fun E => H3 (proj1 (expired_iff ss v) E))).
      rewrite (not_true_false _ (fun E => H4 (proj1 (org_soft_deleted_iff db _) E))).
      rewrite Hemail.
      change (option_map lower (Some caller_email)) with (Some (lower caller_email)).
      now rewrite (proj2 (sql_neq_text_iff _ _) H5).
    + intros m db' H. success H Hv.
      split; [split; [| split; [| split; [| split]]] |].
      * now apply is_not_null_false.
      * now apply is_not_null_false.
      * intros Hexp. apply expired_iff in Hexp. congruence.
      * intros Hdel. apply org_soft_deleted_iff in Hdel. congruence.
      * intros caller_email Hemail. rewrite Hemail in E5.
        change (option_map lower (Some caller_email)) with (Some (lower caller_email)) in E5.
        destruct (String.eqb_spec (lower caller_email) (lower (i_email v))) as [E | E];
          [exact E |].
        apply sql_neq_text_iff in E. congruence.
      * split; [exact Hms |]. subst m. split; [exact Hu |].
        split; [reflexivity | split; [reflexivity |]].
        unfold invite_by_token. rewrite Hinv.
        rewrite (accepted_invite_by_token db p_token v); [now rewrite Z.eqb_refl | exact Hv |].
        intros i. now destruct (i_id i =? i_id v).
    + intros u Hc Hok H1 H2 H3 H4 Hemail Hu Huser Hnot.
      assert (Hmail :
        is_true (sql_neq_text (option_map lower (user_email db (auth_uid ss)))
                              (Some (lower (i_email v)))) = false).
      { destruct (user_email db (auth_uid ss)) as [e |]; [| reflexivity].
        change (option_map lower (Some e)) with (Some (lower e)).
        apply not_true_is_false. intros E. apply sql_neq_text_iff in E.
        apply E. now apply Hemail. }
      destruct (accept_invite_ok ss p_token db v u Hc Hok Hv H1 H2 H3 H4 Hmail Hu Huser Hnot)
        as (m & db' & Hrun & Hm & Hms & _).
      exists m, db'. subst m. repeat split; assumption.
Qed.

Lemma accept_invite_validation_witness :
  (exists m db',
     accept_invite as_outsider "token-1" test_db = (inr m, db')
     /\ memberships db' = memberships test_db ++ [m]
     /\ m_user_id m = 3 /\ m_role m = member)
  /\ accept_invite as_member "token-1" test_db
     = (inl Invite_is_for_a_different_email_address, test_db).
Proof.
  destruct (accept_invite_validation as_outsider "token-1" test_db) as [_ Hv].
  destruct (Hv test_invite eq_refl) as (_ & _ & _ & _ & _ & _ & Hok).
  destruct (accept_invite_validation as_member "token-1" test_db) as [_ Hv'].
  destruct (Hv' test_invite eq_refl) as (_ & _ & _ & _ & Hmail & _).
  assert (Hexp : forall ss, now ss = 5 -> ~ expired ss test_invite).
  { intros ss Hn (t & Ht & Hlt). inversion Ht; subst. rewrite Hn in Hlt. discriminate Hlt. }
  assert (Hlive : ~ org_soft_deleted test_db 10).
  { intros (r & [<- | []] & _ & Hdel). now apply Hdel. }
  split.
  - apply (Hok 3); try reflexivity.
    + now apply Hexp.
    + exact Hlive.
    + intros e He. injection He as <-. reflexivity.
    + intros m (Hin & Hu & _). simpl in Hin, Hu.
      destruct Hin as [<- | [<- | []]]; discriminate Hu.
  - apply (Hmail "member@test.com"); try reflexivity.
    + now apply Hexp.
    + exact Hlive.
    + discriminate.
Defined.

(** A caller without a registered email passes the comparison, whatever
    the address of the invite. *)
Lemma accept_invite_null_email_ok ss p_token db v u :
  consistent db = true -> invites_ok db = true ->
  invite_by_token db p_token = Some v ->
  i_revoked_at v = None -> i_accepted_at v = None -> ~ expired ss v ->
  ~ org_soft_deleted db (i_organization_id v) ->
  auth_uid ss = Some u -> user_exists db u = true ->
  user_email db (auth_uid ss) = None ->
  (forall m, ~ caller_membership ss db (i_organization_id v) m) ->
  exists m db',
    transaction (accept_invite ss p_token) db = (inr m, db')
    /\ memberships db' = memberships db ++ [m]
    /\ m_user_id m = u /\ m_organization_id m = i_organization_id v
    /\ m_role m = i_role v.
Proof.
  intros Hc Hok Hv H1 H2 H3 H4 Hu Huser Hnull Hnot.
  assert (Hmail :
    is_true (sql_neq_text (option_map lower (user_email db (auth_uid ss)))
                          (Some (lower (i_email v)))) = false)
    by (rewrite Hnull; reflexivity).
  destruct (accept_invite_ok ss p_token db v u Hc Hok Hv H1 H2 H3 H4 Hmail Hu Huser Hnot)
    as (m & db' & Hrun & Hm & Hms & _).
  exists m, db'. subst m. repeat split; [| assumption].
  now apply transaction_ok.
Qed.

(** C5, the failing input: a principal whose [auth.users] row has no email
    calls [accept_invite] with the token of an invite to ownership that is
    addressed to the outsider. [LOWER(NULL) != LOWER(email)] is NULL, the
    [IF] is not taken, and the call inserts an owner membership for the
    caller and marks the invite accepted: the email check has not passed,
    and the membership is there. The outsider's own acceptance of the same
    invite is how the check is meant to pass, and the member, whose email
    differs, is refused. *)
Theorem accept_invite_null_email_is_not_refused :
  user_email no_email_db (auth_uid as_no_email) = None
  /\ i_email owner_invite = "Outsider@Test.com"
  /\ invite_by_token no_email_db "token-4" = Some owner_invite
  /\ accept_invite as_member "token-4" no_email_db
     = (inl Invite_is_for_a_different_email_address, no_email_db)
  /\ exists m db',
       transaction (accept_invite as_no_email "token-4") no_email_db = (inr m, db')
       /\ memberships db' = memberships no_email_db ++ [m]
       /\ m_user_id m = 4 /\ m_organization_id m = 10 /\ m_role m = owner
       /\ is_org_owner as_no_email no_email_db 10 = false
       /\ is_org_owner as_no_email db' 10 = true
       /\ invite_by_token db' "token-4" = Some (set_accepted_at (Some 5) owner_invite).
Proof.
  split; [reflexivity | split; [reflexivity | split; [reflexivity | split; [reflexivity |]]]].
  eexists. eexists. split; [reflexivity |]. repeat split.
Qed.

(** The same holds of any consistent state, any invite that passes the
    first five checks and any caller without a registered email. *)
Example accept_invite_null_email :
  exists m db',
    transaction (accept_invite as_no_email "token-1") no_email_db = (inr m, db')
    /\ memberships db' = memberships no_email_db ++ [m]
    /\ m_user_id m = 4 /\ m_organization_id m = 10 /\ m_role m = member.
Proof.
  apply (accept_invite_null_email_ok as_no_email "token-1" no_email_db test_invite 4);
    try reflexivity.
  - intros (t & Ht & Hlt). inversion Ht; subst. discriminate Hlt.
  - intros (r & [<- | []] & _ & Hdel). now apply Hdel.
  - intros m (Hin & Hu & _). simpl in Hin, Hu.
    destruct Hin as [<- | [<- | []]]; discriminate Hu.
Qed.

(** ** An invite is accepted at most once *)

Lemma already_used_fails ss t db :
  already_used db t ->
  accept_invite ss t db = (inl Invite_has_already_been_used, db).
Proof.
  intros (v & Hv & Hrev & Hacc). unfold invite_by_token in Hv.
  unfold accept_invite, bind at 1, get at 1. rewrite Hv, Hrev. simpl.
  now rewrite (proj2 (is_not_null_true _) Hacc).
Qed.

Lemma accept_invite_marks_used ss t db m db' :
  accept_invite ss t db = (inr m, db') -> already_used db' t.
Proof.
  intros H.
  apply accept_invite_inr in H
    as (v & u & Hv & E1 & E2 & E3 & E4 & E5 & Hu & Hm & Hms & Hinv).
  exists (set_accepted_at (Some (now ss)) v). split; [| split].
  - unfold invite_by_token. rewrite Hinv.
    rewrite (accepted_invite_by_token db t v); [now rewrite Z.eqb_refl | exact Hv |].
    intros i. now destruct (i_id i =? i_id v).
  - simpl. now apply is_not_null_false.
  - simpl. discriminate.
Qed.

Lemma already_used_invites db db' t :
  invites db' = invites db -> already_used db t -> already_used db' t.
Proof. unfold already_used, invite_by_token. now intros ->. Qed.

Lemma call_preserves_used ss r db t :
  already_used db t -> already_used (call ss r db) t.
Proof.
  intros Hused. destruct r; simpl.
  - eapply already_used_invites; [| exact Hused].
    apply (preserves_transaction invites), create_organization_invites.
  - unfold transaction.
    destruct (accept_invite ss p_token db) as [[e | m] db1] eqn:E; simpl; [exact Hused |].
    apply accept_invite_inr in E
      as (v2 & u & Hv2 & _ & _ & _ & _ & _ & _ & _ & _ & Hinv).
    destruct Hused as (v & Hv & Hrev & Hacc).
    set (f := fun i => if i_id i =? i_id v2 then set_accepted_at (Some (now ss)) i else i) in *.
    exists (f v). split; [| split].
    + unfold invite_by_token. rewrite Hinv.
      apply accepted_invite_by_token; [exact Hv |].
      intros i. unfold f. now destruct (i_id i =? i_id v2).
    + unfold f. now destruct (i_id v =? i_id v2).
    + unfold f. destruct (i_id v =? i_id v2); [simpl; discriminate | exact Hacc].
  - eapply already_used_invites; [| exact Hused].
    apply (preserves_transaction invites), mark_card_sold_invites.
  - eapply already_used_invites; [| exact Hused].
    apply (preserves_transaction invites), soft_delete_organization_invites.
  - eapply already_used_invites; [| exact Hused].
    apply (preserves_transaction invites), leave_organization_invites.
Qed.

Lemma run_preserves_used calls db t :
  already_used db t -> already_used (run calls db) t.
Proof.
  revert db. induction calls as [| [ss r] calls IH]; simpl; intros db H; [exact H |].
  apply IH. now apply call_preserves_used.
Qed.

(** Through the procedures alone an invite is single-use: once
    [accept_invite] has succeeded on a token, every later call with that
    token, by any caller at any time and after any further calls to the
    five procedures, raises "already been used" (a conflict), creates no
    membership and leaves the state as it was. No procedure clears
    [accepted_at]; the statements that "Admins manage" leaves to clients
    are not among the calls here. *)
Theorem accept_invite_at_most_once (ss : session) (p_token : string) (db db1 : DB)
    (m : membership) :
  transaction (accept_invite ss p_token) db = (inr m, db1) ->
  forall (later : list (session * rpc)) (ss' : session),
    let db2 := run later db1 in
    transaction (accept_invite ss' p_token) db2
    = (inl Invite_has_already_been_used, db2)
    /\ accept_invite ss' p_token db2 = (inl Invite_has_already_been_used, db2)
    /\ kind_of Invite_has_already_been_used = Conflict.
Proof.
  intros Hfirst later ss' db2.
  assert (Hused : already_used db2 p_token).
  { apply run_preserves_used. unfold transaction in Hfirst.
    destruct (accept_invite ss p_token db) as [[e | m1] d1] eqn:E; [discriminate Hfirst |].
    inversion Hfirst; subst. eapply accept_invite_marks_used; eauto. }
  pose proof (already_used_fails ss' p_token db2 Hused) as E.
  split; [eapply transaction_error; exact E | split; [exact E | reflexivity]].
Qed.

Lemma accept_invite_at_most_once_witness :
  exists m db1,
    transaction (accept_invite as_outsider "token-1") test_db = (inr m, db1)
    /\ let db2 := run [(as_member, Leave_organization 10);
                       (as_outsider, Accept_invite "token-1")] db1 in
       transaction (accept_invite as_outsider "token-1") db2
       = (inl Invite_has_already_been_used, db2).
Proof.
  eexists. eexists. split; [reflexivity |].
  refine (proj1 (accept_invite_at_most_once as_outsider "token-1" test_db _ _ _
                   [(as_member, Leave_organization 10);
                    (as_outsider, Accept_invite "token-1")] as_outsider)).
  reflexivity.
Defined.

(** C4, the failing input: the outsider accepts the invite "token-1", and
    a second call is refused as already used. The outsider then leaves the
    store, and the owner, whom "Admins manage" (FOR ALL, no WITH CHECK)
    lets write every column of the invites of the store, runs [UPDATE
    invites SET accepted_at = NULL] on the accepted invite. The outsider's
    next call with the same token succeeds and creates a membership again:
    the token has been accepted twice. And once the owner has deleted the
    accepted invite instead, a later call raises "Invalid invite token",
    which is no conflict. *)
Theorem accepted_invite_is_accepted_again :
  let db1 := snd (transaction (accept_invite as_outsider "token-1") test_db) in
  let db2 := invite_step as_outsider (Procedure (Leave_organization 10)) db1 in
  let db3 := invite_step as_owner (Change 30 (set_accepted_at None)) db2 in
  let db4 := invite_step as_owner (Drop 30) db1 in
  (exists m1,
     transaction (accept_invite as_outsider "token-1") test_db = (inr m1, db1)
     /\ memberships db1 = memberships test_db ++ [m1])
  /\ transaction (accept_invite as_outsider "token-1") db1
     = (inl Invite_has_already_been_used, db1)
  /\ invite_by_token db2 "token-1" = Some (set_accepted_at (Some 5) test_invite)
  /\ admits_existing UPDATE_cmd as_owner db2
       (InvitesRow (set_accepted_at (Some 5) test_invite)) = true
  /\ admits_new UPDATE_cmd as_owner db2 (InvitesRow test_invite) = true
  /\ invite_by_token db3 "token-1" = Some test_invite
  /\ (exists m2 db5,
        transaction (accept_invite as_outsider "token-1") db3 = (inr m2, db5)
        /\ memberships db5 = memberships db3 ++ [m2]
        /\ m_user_id m2 = 3 /\ m_organization_id m2 = 10)
  /\ transaction (accept_invite as_outsider "token-1") db4 = (inl Invalid_invite_token, db4)
  /\ kind_of Invalid_invite_token = NotFound.
Proof.
  cbv zeta. split.
  { eexists. split; reflexivity. }
  split; [reflexivity |].
  split; [reflexivity |].
  split; [reflexivity |].
  split; [reflexivity |].
  split; [reflexivity |].
  split.
  { eexists. eexists. split; [reflexivity |]. repeat split. }
  split; reflexivity.
Qed.


(** ** create_organization *)

Lemma check_organization_inr db skip NEW d u d' :
  check_organization db skip NEW d = (inr u, d') ->
  d' = d
  /\ name_valid (org_name NEW) = true
  /\ slug_format (org_slug NEW) = true
  /\ slug_not_reserved (org_slug NEW) = true.
Proof.
  unfold check_organization. intros H. inv_run H. auto.
Qed.

Lemma insert_organization_inr ss name slug db v_org db' :
  insert_organization ss name slug db = (inr v_org, db') ->
  v_org = mk_organization (next_uuid db) name slug (Some (now ss)) (Some (now ss)) None
  /\ db' = mk_db (users db) (organizations db ++ [v_org]) (memberships db) (inventory db)
                 (transactions db) (invites db)
                 (audit_log db ++
                  [mk_audit (next_uuid db + 1) (next_uuid db) "organizations"
                            (next_uuid db) INSERT None (Some (OrganizationImage v_org))
                            (auth_uid ss) (Some (now ss))])
                 (next_uuid db + 1 + 1)
  /\ name_valid name = true /\ slug_not_reserved slug = true.
Proof.
  unfold insert_organization. intros H.
  unfold bind at 1, gen_random_uuid at 1 in H.
  inv_run H.
  match goal with
  | Hc : check_organization _ _ _ _ = _ |- _ =>
      apply check_organization_inr in Hc as (-> & Hname & _ & Hres)
  end.
  match goal with
  | Ha : audit_trigger_organizations _ _ _ _ _ _ = _ |- _ =>
      unfold audit_trigger_organizations in Ha;
      apply insert_audit_log_inr in Ha as (o' & r' & Ho & Hr & ->)
  end.
  simpl in Ho, Hr. inversion Ho; inversion Hr; subst o' r'.
  repeat split; assumption.
Qed.

Lemma reserved_slugs_well_formed s :
  In s reserved_slugs -> slug_format s = true /\ slug_not_reserved s = false.
Proof.
  unfold reserved_slugs. simpl.
  intros H. repeat (destruct H as [<- | H]; [split; reflexivity |]). destruct H.
Qed.

(** C6. [create_organization] rejects a malformed slug before any write
    and rejects every reserved slug, both with a validation error and no
    state change; a successful call has appended the organization and an
    owner membership of the caller for it; and a call that fails at any
    point leaves the state it started from, so neither insert persists
    without the other. The call does succeed, inserting both rows, for a
    registered caller, a valid name and a well-formed slug that is neither
    reserved nor taken, in a consistent state; and for an anonymous caller
    with the same arguments the organization has been inserted when the
    insert of the membership fails, and the call leaves no organization
    behind. *)
Theorem create_organization_contract (ss : session) (p_name p_slug : string) (db : DB) :
  (slug_format p_slug = false ->
     create_organization ss p_name p_slug db = (inl Invalid_slug_format, db)
     /\ kind_of Invalid_slug_format = ValidationError)
  /\ (In p_slug reserved_slugs ->
        transaction (create_organization ss p_name p_slug) db
        = (inl (reserved_slug_error p_name), db)
        /\ kind_of (reserved_slug_error p_name) = ValidationError)
  /\ (forall v_org db',
        transaction (create_organization ss p_name p_slug) db = (inr v_org, db') ->
        org_name v_org = p_name /\ org_slug v_org = p_slug
        /\ org_deleted_at v_org = None
        /\ slug_format p_slug = true /\ ~ In p_slug reserved_slugs
        /\ organizations db' = organizations db ++ [v_org]
        /\ exists m,
             memberships db' = memberships db ++ [m]
             /\ auth_uid ss = Some (m_user_id m)
             /\ m_organization_id m = org_id v_org
             /\ m_role m = owner)
  /\ (forall e db',
        transaction (create_organization ss p_name p_slug) db = (inl e, db') ->
        db' = db)
  /\ (forall u,
        consistent db = true -> name_valid p_name = true ->
        slug_format p_slug = true -> ~ In p_slug reserved_slugs ->
        (forall o, In o (organizations db) -> org_slug o <> p_slug) ->
        auth_uid ss = Some u -> user_exists db u = true ->
        exists v_org m db',
          transaction (create_organization ss p_name p_slug) db = (inr v_org, db')
          /\ org_name v_org = p_name /\ org_slug v_org = p_slug
          /\ org_deleted_at v_org = None
          /\ organizations db' = organizations db ++ [v_org]
          /\ memberships db' = memberships db ++ [m]
          /\ m_user_id m = u /\ m_organization_id m = org_id v_org /\ m_role m = owner)
  /\ (consistent db = true -> name_valid p_name = true ->
      slug_format p_slug = true -> ~ In p_slug reserved_slugs ->
      (forall o, In o (organizations db) -> org_slug o <> p_slug) ->
      auth_uid ss = None ->
      (exists d v_org,
         create_organization ss p_name p_slug db = (inl (not_null_violation "user_id"), d)
         /\ organizations d = organizations db ++ [v_org]
         /\ org_slug v_org = p_slug)
      /\ transaction (create_organization ss p_name p_slug) db
         = (inl (not_null_violation "user_id"), db)).
Proof.
  split; [| split; [| split; [| split; [| split]]]].
  5:{ intros u Hc Hname Hfmt Hres Hfree Hu Huser.
      apply slug_not_reserved_iff in Hres.
      eexists. eexists. eexists. split.
      - apply transaction_ok.
        exact (create_organization_ok ss p_name p_slug db u Hc Hname Hfmt Hres Hfree Hu Huser).
      - repeat split. }
  5:{ intros Hc Hname Hfmt Hres Hfree Hu.
      apply slug_not_reserved_iff in Hres.
      destruct (create_organization_anonymous ss p_name p_slug db Hc Hname Hfmt Hres Hfree Hu)
        as (d & Hrun & Horgs).
      split.
      - exists d. eexists. split; [exact Hrun | split; [exact Horgs | reflexivity]].
      - exact (transaction_error _ _ _ _ Hrun). }
  - intros Hbad. unfold create_organization. rewrite Hbad. simpl. split; reflexivity.
  - intros Hres. apply reserved_slugs_well_formed in Hres as [Hfmt Hres].
    split.
    + unfold reserved_slug_error, transaction, create_organization. rewrite Hfmt. simpl.
      unfold insert_organization, bind at 2, gen_random_uuid at 1.
      unfold bind at 2, get at 1, check_organization. simpl.
      destruct (name_valid p_name); simpl; [| reflexivity].
      rewrite Hfmt, Hres. reflexivity.
    + unfold reserved_slug_error. now destruct (name_valid p_name).
  - intros v_org db' H. unfold transaction in H.
    destruct (create_organization ss p_name p_slug db) as [[e | v] d] eqn:E;
      [discriminate H |].
    inversion H; subst v d; clear H.
    unfold create_organization in E.
    destruct (slug_format p_slug) eqn:Hfmt; simpl in E; [| discriminate E].
    inv_run E.
    match goal with
    | Hi : insert_organization _ _ _ _ = _ |- _ =>
        apply insert_organization_inr in Hi as (Hv & Hdb1 & _ & Hres)
    end.
    match goal with
    | Hi : insert_membership _ _ _ _ _ _ _ _ = _ |- _ =>
        apply insert_membership_inr in Hi as (u & Hu & Hm & Hdb2 & _)
    end.
    subst. simpl. repeat split; auto.
    + intros Hin. apply reserved_slugs_well_formed in Hin as [_ Hin]. congruence.
    + eexists. repeat split. exact Hu.
  - intros e db' H. unfold transaction in H.
    destruct (create_organization ss p_name p_slug db) as [[e' | v] d];
      now inversion H.
Qed.

(** The roll-back is not vacuous: for an anonymous caller the body has
    already inserted the organization when the membership insert fails. *)
Example create_organization_rolls_back :
  exists db1,
    create_organization as_anonymous "Moody Cards" "moody-cards" test_db
    = (inl (not_null_violation "user_id"), db1)
    /\ List.length (organizations db1) = 2%nat
    /\ transaction (create_organization as_anonymous "Moody Cards" "moody-cards") test_db
       = (inl (not_null_violation "user_id"), test_db).
Proof. eexists. repeat split. Qed.

Example create_organization_scenario :
  exists v_org db',
    transaction (create_organization as_outsider "Moody Cards" "moody-cards") test_db
    = (inr v_org, db')
    /\ org_slug v_org = "moody-cards"
    /\ is_org_owner as_outsider db' (org_id v_org) = true
    /\ uuid_in (org_id v_org) (get_user_org_ids as_outsider db') = true.
Proof. eexists. eexists. repeat split. Qed.

Lemma create_organization_contract_witness :
  In "admin" reserved_slugs
  /\ transaction (create_organization as_outsider "Admin Store" "admin") test_db
     = (inl (check_violation "slug_not_reserved"), test_db)
  /\ slug_format "Moody Cards" = false
  /\ create_organization as_outsider "Moody Cards" "Moody Cards" test_db
     = (inl Invalid_slug_format, test_db)
  /\ (exists v_org m db',
        transaction (create_organization as_outsider "Moody Cards" "moody-cards") test_db
        = (inr v_org, db')
        /\ org_slug v_org = "moody-cards"
        /\ organizations db' = [test_store; v_org]
        /\ memberships db' = [test_owner; test_member; m]
        /\ m_user_id m = 3 /\ m_organization_id m = org_id v_org /\ m_role m = owner)
  /\ transaction (create_organization as_anonymous "Moody Cards" "moody-cards") test_db
     = (inl (not_null_violation "user_id"), test_db).
Proof.
  pose proof (create_organization_contract as_outsider "Admin Store" "admin" test_db)
    as (_ & Hres & _).
  pose proof (create_organization_contract as_outsider "Moody Cards" "Moody Cards" test_db)
    as (Hbad & _).
  pose proof (create_organization_contract as_outsider "Moody Cards" "moody-cards" test_db)
    as (_ & _ & _ & _ & Hok & _).
  pose proof (create_organization_contract as_anonymous "Moody Cards" "moody-cards" test_db)
    as (_ & _ & _ & _ & _ & Hanon).
  assert (Hin : In "admin" reserved_slugs) by (simpl; auto).
  assert (Hfree : ~ In "moody-cards" reserved_slugs).
  { apply slug_not_reserved_iff. reflexivity. }
  assert (Hnew : forall o, In o (organizations test_db) -> org_slug o <> "moody-cards").
  { intros o [<- | []]. discriminate. }
  split; [exact Hin | split; [exact (proj1 (Hres Hin)) | split; [reflexivity |]]].
  split; [exact (proj1 (Hbad eq_refl)) | split].
  - destruct (Hok 3 eq_refl eq_refl eq_refl Hfree Hnew eq_refl eq_refl)
      as (v_org & m & db' & Hrun & _ & Hslug & _ & Horgs & Hms & Hu & Ho & Hr).
    exists v_org, m, db'. repeat split; assumption.
  - exact (proj2 (Hanon eq_refl eq_refl eq_refl Hfree Hnew eq_refl)).
Defined.

(** ** mark_card_sold *)

Lemma fresh_below {A} (key : A -> Z) l n k :
  forallb (fun a => key a <? n) l = true -> n <= k ->
  existsb (fun a => key a =? k) l = false.
Proof.
  rewrite forallb_forall, existsb_false_forall.
  intros H Hle x Hx. specialize (H x Hx). apply Z.ltb_lt in H. apply Z.eqb_neq. lia.
Qed.

Lemma find_by_inv_id db item :
  keys_ok db = true -> In item (inventory db) ->
  find (fun r => inv_id r =? inv_id item) (inventory db) = Some item.
Proof.
  intros Hk Hin. unfold keys_ok in Hk. repeat (apply andb_prop in Hk as [Hk ?]).
  destruct (find _ (inventory db)) as [r |] eqn:E.
  - apply find_some in E as [Hin0 Hp]. apply Z.eqb_eq in Hp. f_equal.
    eapply (distinct_key_inj inv_id); eauto.
  - eapply find_none in E; eauto. simpl in E. rewrite Z.eqb_refl in E. discriminate.
Qed.

Lemma find_live_item db item :
  keys_ok db = true -> In item (inventory db) -> inv_deleted_at item = None ->
  find (fun r => (inv_id r =? inv_id item) && is_null (inv_deleted_at r)) (inventory db)
  = Some item.
Proof.
  intros Hk Hin Hlive. pose proof Hk as Hk'.
  unfold keys_ok in Hk. repeat (apply andb_prop in Hk as [Hk ?]).
  destruct (find _ (inventory db)) as [r |] eqn:E.
  - apply find_some in E as [Hin0 Hp]. apply andb_prop in Hp as [Hp _].
    apply Z.eqb_eq in Hp. f_equal. eapply (distinct_key_inj inv_id); eauto.
  - eapply find_none in E; eauto. simpl in E.
    rewrite Z.eqb_refl, Hlive in E. discriminate.
Qed.

Lemma inventory_fk db item :
  foreign_keys_ok db = true -> In item (inventory db) ->
  org_exists db (inv_organization_id item) = true
  /\ fk_user db (inv_created_by item) = true.
Proof.
  unfold foreign_keys_ok. intros H Hin. repeat (apply andb_prop in H as [H ?]).
  match goal with
  | Hf : forallb _ (inventory db) = true |- _ =>
      rewrite forallb_forall in Hf; apply andb_prop; now apply Hf
  end.
Qed.

Lemma check_inventory_ok db skip NEW d :
  existsb (fun r => negb (skip (inv_id r)) && (inv_id r =? inv_id NEW)) (inventory db) = false ->
  org_exists db (inv_organization_id NEW) = true ->
  fk_user db (inv_created_by NEW) = true ->
  fk_user db (inv_updated_by NEW) = true ->
  check_inventory db skip NEW d = (inr tt, d).
Proof.
  intros H1 H2 H3 H4. unfold check_inventory. now rewrite H1, H2, H3, H4.
Qed.

Lemma same_price_refl p : same_price p p = true.
Proof. destruct p; simpl; [apply Z.eqb_refl | reflexivity]. Qed.

Lemma update_inventory_ok ss db item set :
  keys_ok db = true -> In item (inventory db) ->
  inv_id (set item) = inv_id item ->
  inv_selling_price (set item) = inv_selling_price item ->
  org_exists db (inv_organization_id (set item)) = true ->
  fk_user db (inv_created_by (set item)) = true ->
  fk_user db (inv_updated_by (set item)) = true ->
  fk_user db (auth_uid ss) = true ->
  forallb (fun a => a_id a <? next_uuid db) (audit_log db) = true ->
  update_inventory ss (inv_id item) set db
  = (inr (Some (update_updated_at_inv ss (set item))),
     mk_db (users db) (organizations db) (memberships db)
           (put_item (inv_id item) (update_updated_at_inv ss (set item)) (inventory db))
           (transactions db) (invites db)
           (audit_log db ++
            [mk_audit (next_uuid db) (inv_organization_id (set item)) "inventory"
                      (inv_id item) UPDATE (Some (InventoryImage item))
                      (Some (InventoryImage (update_updated_at_inv ss (set item))))
                      (auth_uid ss) (Some (now ss))])
           (next_uuid db + 1)).
Proof.
  intros Hk Hin Hid Hprice Horg Hcreated Hupdated Hcaller Hfresh.
  unfold update_inventory, bind at 1, get at 1.
  rewrite (find_by_inv_id db item Hk Hin).
  rewrite Hprice, same_price_refl. simpl orb.
  unfold bind at 1. rewrite require_true.
  rewrite (bind_eq _ _ db tt db).
  2:{ apply check_inventory_ok; simpl; try assumption.
      rewrite Hid. apply (skip_own_key inv_id). }
  simpl inv_id. rewrite Hid, Z.eqb_refl. simpl orb.
  unfold bind at 1. rewrite require_true.
  unfold bind at 1, modify at 1.
  unfold audit_trigger. simpl coalesce. rewrite Hid.
  erewrite bind_eq;
    [| apply insert_audit_log_ok; [exact Hfresh | exact Horg | exact Hcaller]].
  reflexivity.
Qed.

Lemma insert_transaction_ok ss org inv price by_ email notes db :
  forallb (fun t => t_id t <? next_uuid db) (transactions db) = true ->
  org_exists db org = true -> item_exists db inv = true -> fk_user db by_ = true ->
  fits_decimal_10_2 price = true ->
  insert_transaction ss org inv price by_ email notes db
  = (inr (mk_transaction (next_uuid db) org inv price (Some (now ss)) by_ email notes
                         (Some (now ss))),
     mk_db (users db) (organizations db) (memberships db) (inventory db)
           (transactions db ++
            [mk_transaction (next_uuid db) org inv price (Some (now ss)) by_ email notes
                            (Some (now ss))])
           (invites db) (audit_log db) (next_uuid db + 1)).
Proof.
  intros Hfresh Horg Hitem Huser Hfits.
  unfold insert_transaction, bind at 1, gen_random_uuid at 1.
  rewrite Hfits. unfold bind at 1. rewrite require_true.
  unfold bind at 1, get at 1. simpl transactions.
  rewrite (fresh_not_in t_id _ _ Hfresh). simpl negb.
  change (org_exists (set_next_uuid (next_uuid db + 1) db) org) with (org_exists db org).
  change (item_exists (set_next_uuid (next_uuid db + 1) db) inv) with (item_exists db inv).
  change (fk_user (set_next_uuid (next_uuid db + 1) db) by_) with (fk_user db by_).
  rewrite Horg, Hitem, Huser. reflexivity.
Qed.

Lemma mark_card_sold_ok ss db item m price email notes :
  consistent db = true ->
  In item (inventory db) -> inv_deleted_at item = None ->
  inv_status item = available ->
  caller_membership ss db (inv_organization_id item) m ->
  fits_decimal_10_2 price = true ->
  mark_card_sold ss (inv_id item) price email notes db
  = (inr (mk_transaction (next_uuid db + 1) (inv_organization_id item) (inv_id item)
                         price (Some (now ss)) (auth_uid ss) email notes (Some (now ss))),
     after_sale ss db item price email notes).
Proof.
  intros Hc Hin Hlive Hstatus (Hm & Hu & Ho) Hfits.
  apply consistent_parts in Hc as (Hk & Hf & Hfresh).
  destruct (inventory_fk db item Hf Hin) as [Horg Hcreated].
  destruct (membership_fk db m Hf Hm) as [Huser _].
  assert (Hcaller : fk_user db (auth_uid ss) = true) by (rewrite Hu; exact Huser).
  unfold uuids_fresh in Hfresh. repeat (apply andb_prop in Hfresh as [Hfresh ?]).
  unfold mark_card_sold, bind at 1, get at 1.
  rewrite (find_live_item db item Hk Hin Hlive), Hstatus.
  assert (Hmember :
    existsb (fun m0 => is_caller ss (m_user_id m0)
                       && (m_organization_id m0 =? inv_organization_id item))
            (memberships db) = true).
  { apply existsb_exists. exists m. split; [exact Hm |].
    rewrite (proj2 (is_caller_iff _ _) Hu), Ho, Z.eqb_refl. reflexivity. }
  rewrite Hmember.
  change (negb (status_eqb available available)) with false.
  change (negb true) with false. cbv iota.
  rewrite (bind_eq _ _ _ _ _
             (update_inventory_ok ss db item (set_sold ss) Hk Hin eq_refl eq_refl Horg
                                  Hcreated Hcaller Hcaller Hfresh)).
  erewrite bind_eq.
  2:{ apply insert_transaction_ok.
      - simpl. apply forallb_forall. intros t Ht.
        match goal with
        | Hfr : forallb _ (transactions db) = true |- _ =>
            rewrite forallb_forall in Hfr; specialize (Hfr t Ht);
            apply Z.ltb_lt in Hfr; apply Z.ltb_lt; lia
        end.
      - exact Horg.
      - unfold item_exists, put_item. simpl. apply existsb_exists.
        exists (update_updated_at_inv ss (set_sold ss item)). split; [| apply Z.eqb_refl].
        apply in_map_iff. exists item. now rewrite Z.eqb_refl.
      - exact Hcaller.
      - exact Hfits. }
  reflexivity.
Qed.

Lemma insert_transaction_overflow ss org inv price by_ email notes db :
  fits_decimal_10_2 price = false ->
  insert_transaction ss org inv price by_ email notes db
  = (inl (numeric_value_out_of_range "sold_price"), set_next_uuid (next_uuid db + 1) db).
Proof.
  intros Hfits. unfold insert_transaction, bind at 1, gen_random_uuid at 1.
  rewrite Hfits. reflexivity.
Qed.

(** A price that does not fit the column is refused by the INSERT, after the
    item has been updated: the call raises and is rolled back as a whole. *)
Lemma mark_card_sold_overflow ss db item m price email notes :
  consistent db = true ->
  In item (inventory db) -> inv_deleted_at item = None ->
  inv_status item = available ->
  caller_membership ss db (inv_organization_id item) m ->
  fits_decimal_10_2 price = false ->
  exists d,
    mark_card_sold ss (inv_id item) price email notes db
    = (inl (numeric_value_out_of_range "sold_price"), d)
    /\ In (sold_item ss item) (inventory d).
Proof.
  intros Hc Hin Hlive Hstatus (Hm & Hu & Ho) Hfits.
  apply consistent_parts in Hc as (Hk & Hf & Hfresh).
  destruct (inventory_fk db item Hf Hin) as [Horg Hcreated].
  destruct (membership_fk db m Hf Hm) as [Huser _].
  assert (Hcaller : fk_user db (auth_uid ss) = true) by (rewrite Hu; exact Huser).
  unfold uuids_fresh in Hfresh. repeat (apply andb_prop in Hfresh as [Hfresh ?]).
  unfold mark_card_sold, bind at 1, get at 1.
  rewrite (find_live_item db item Hk Hin Hlive), Hstatus.
  assert (Hmember :
    existsb (fun m0 => is_caller ss (m_user_id m0)
                       && (m_organization_id m0 =? inv_organization_id item))
            (memberships db) = true).
  { apply existsb_exists. exists m. split; [exact Hm |].
    rewrite (proj2 (is_caller_iff _ _) Hu), Ho, Z.eqb_refl. reflexivity. }
  rewrite Hmember.
  change (negb (status_eqb available available)) with false.
  change (negb true) with false. cbv iota.
  rewrite (bind_eq _ _ _ _ _
             (update_inventory_ok ss db item (set_sold ss) Hk Hin eq_refl eq_refl Horg
                                  Hcreated Hcaller Hcaller Hfresh)).
  eexists. split.
  - apply bind_inl. apply insert_transaction_overflow. exact Hfits.
  - simpl. unfold put_item. apply in_map_iff. exists item. now rewrite Z.eqb_refl.
Qed.

(** C10 (amended). [mark_card_sold] does not look at the organization's
    deletion marker: for an available, live item of a soft-deleted
    organization, a caller with any membership in that organization who
    passes a price that fits [sold_price DECIMAL(10,2)] succeeds; the item
    is left sold and one transaction for it is appended. With a price that
    does not fit, the INSERT raises 'numeric field overflow' and the call is
    rolled back: no state change. [accept_invite], on an invite of the same
    organization that passes the earlier checks, raises "Organization no
    longer exists". *)
Theorem mark_card_sold_ignores_soft_delete (ss : session) (db : DB)
    (item : inventory_item) (m : membership)
    (p_sold_price : decimal) (p_buyer_email p_buyer_notes : option string) :
  consistent db = true ->
  In item (inventory db) -> inv_deleted_at item = None ->
  inv_status item = available ->
  org_soft_deleted db (inv_organization_id item) ->
  caller_membership ss db (inv_organization_id item) m ->
  (fits_decimal_10_2 p_sold_price = true ->
   exists t db',
     transaction (mark_card_sold ss (inv_id item) p_sold_price p_buyer_email p_buyer_notes) db
     = (inr t, db')
     /\ t_inventory_id t = inv_id item
     /\ t_organization_id t = inv_organization_id item
     /\ t_sold_price t = p_sold_price
     /\ transactions db' = transactions db ++ [t]
     /\ In (sold_item ss item) (inventory db')
     /\ inv_id (sold_item ss item) = inv_id item
     /\ inv_status (sold_item ss item) = sold)
  /\ (fits_decimal_10_2 p_sold_price = false ->
      transaction (mark_card_sold ss (inv_id item) p_sold_price p_buyer_email p_buyer_notes) db
      = (inl (numeric_value_out_of_range "sold_price"), db))
  /\ (forall ss' p_token v,
        invite_by_token db p_token = Some v ->
        i_organization_id v = inv_organization_id item ->
        i_revoked_at v = None -> i_accepted_at v = None -> ~ expired ss' v ->
        accept_invite ss' p_token db = (inl Organization_no_longer_exists, db)).
Proof.
  intros Hc Hin Hlive Hstatus Hdel Hm. split; [| split].
  - intros Hfits. eexists. eexists. split.
    + apply transaction_ok. now apply (mark_card_sold_ok ss db item m).
    + repeat split. simpl. unfold put_item. apply in_map_iff.
      exists item. now rewrite Z.eqb_refl.
  - intros Hfits.
    destruct (mark_card_sold_overflow ss db item m p_sold_price p_buyer_email p_buyer_notes
                Hc Hin Hlive Hstatus Hm Hfits) as (d & Hrun & _).
    exact (transaction_error _ _ _ _ Hrun).
  - intros ss' p_token v Hv Horg Hrev Hacc Hexp. unfold invite_by_token in Hv.
    unfold accept_invite, bind at 1, get at 1. rewrite Hv, Hrev, Hacc. simpl.
    rewrite (not_true_false _ (fun E => Hexp (proj1 (expired_iff ss' v) E))).
    rewrite Horg. now rewrite (proj2 (org_soft_deleted_iff db _) Hdel).
Qed.

Lemma mark_card_sold_ignores_soft_delete_witness :
  consistent deleted_db = true
  /\ org_soft_deleted deleted_db 10
  /\ (exists t db',
        transaction (mark_card_sold as_member 100 24999 None None) deleted_db = (inr t, db')
        /\ transactions db' = [t]
        /\ In (sold_item as_member test_card) (inventory db'))
  /\ accept_invite as_outsider "token-1" deleted_db
     = (inl Organization_no_longer_exists, deleted_db).
Proof.
  assert (Hdel : org_soft_deleted deleted_db 10).
  { exists (set_deleted_at (Some 3) test_store). simpl. repeat split; auto. discriminate. }
  assert (Hm : caller_membership as_member deleted_db 10 test_member).
  { repeat split. simpl. auto. }
  destruct (mark_card_sold_ignores_soft_delete as_member deleted_db test_card test_member
              24999 None None eq_refl (or_introl eq_refl) eq_refl eq_refl Hdel Hm)
    as (Hsale & _ & Hinvite).
  destruct (Hsale eq_refl) as (t & db' & Hrun & _ & _ & _ & Htx & Hitem & _).
  split; [reflexivity | split; [exact Hdel | split]].
  - exists t, db'. auto.
  - apply (Hinvite as_outsider "token-1" test_invite); try reflexivity.
    intros (t' & Ht & Hlt). inversion Ht; subst. discriminate Hlt.
Defined.

(** The bounds of [sold_price]: 99999999.99 on either side of zero is
    stored, 100000000.00 is not. *)
Example sold_price_bounds :
  fits_decimal_10_2 9999999999 = true /\ fits_decimal_10_2 (-9999999999) = true
  /\ fits_decimal_10_2 (10 ^ 10) = false /\ fits_decimal_10_2 (- 10 ^ 10) = false
  /\ (exists t db',
        transaction (mark_card_sold as_member 100 9999999999 None None) deleted_db
        = (inr t, db')
        /\ t_sold_price t = 9999999999).
Proof.
  repeat split. eexists. eexists. split; reflexivity.
Qed.

(** [inventory.selling_price] has the same type: a member's statement that
    sets a price of eleven digits raises, one that sets a price that fits
    goes through, and so does one that leaves the price alone. *)
Example selling_price_bounds :
  let priced p (r : inventory_item) :=
    mk_inventory (inv_id r) (inv_organization_id r) (inv_card_name r) p (inv_status r)
                 (inv_created_at r) (inv_created_by r) (inv_updated_at r)
                 (inv_updated_by r) (inv_deleted_at r) in
  transaction (direct_update_inventory as_member 100 (priced (Some (10 ^ 10)))) test_db
  = (inl (numeric_value_out_of_range "selling_price"), test_db)
  /\ transaction (direct_insert_inventory as_member (priced (Some (10 ^ 10)) test_card))
                 test_db
     = (inl (numeric_value_out_of_range "selling_price"), test_db)
  /\ (exists r db',
        transaction (direct_update_inventory as_member 100 (priced (Some 24999))) test_db
        = (inr (Some r), db')
        /\ inv_selling_price r = Some 24999)
  /\ (exists r db',
        transaction (direct_update_inventory as_member 100 (set_status reserved)) test_db
        = (inr (Some r), db')
        /\ inv_status r = reserved).
Proof.
  cbv zeta. split; [reflexivity | split; [reflexivity | split]];
    eexists; eexists; split; reflexivity.
Qed.

(** C10 (as stated) fails on the price: in the soft-deleted store, the
    member's sale of the available card at 100000000.00 ([10 ^ 10]
    hundredths, eleven digits) does not succeed; the INSERT raises and the
    call changes nothing. *)
Lemma sale_price_overflow_is_refused :
  consistent deleted_db = true
  /\ In test_card (inventory deleted_db)
  /\ inv_deleted_at test_card = None
  /\ inv_status test_card = available
  /\ org_soft_deleted deleted_db (inv_organization_id test_card)
  /\ caller_membership as_member deleted_db (inv_organization_id test_card) test_member
  /\ transaction (mark_card_sold as_member (inv_id test_card) (10 ^ 10) None None) deleted_db
     = (inl (numeric_value_out_of_range "sold_price"), deleted_db)
  /\ ~ (exists t db',
          transaction (mark_card_sold as_member (inv_id test_card) (10 ^ 10) None None)
                      deleted_db
          = (inr t, db')).
Proof.
  assert (Hrun :
    transaction (mark_card_sold as_member (inv_id test_card) (10 ^ 10) None None) deleted_db
    = (inl (numeric_value_out_of_range "sold_price"), deleted_db)) by (vm_compute; reflexivity).
  split; [reflexivity |].
  split; [simpl; auto |].
  split; [reflexivity |].
  split; [reflexivity |].
  split.
  { exists (set_deleted_at (Some 3) test_store). simpl. repeat split; auto. discriminate. }
  split.
  { repeat split. simpl. auto. }
  split; [exact Hrun |].
  intros (t & db' & H). rewrite Hrun in H. discriminate H.
Qed.

(** ** What the inventory primitives write *)

Lemma check_inventory_inr db skip NEW d u d' :
  check_inventory db skip NEW d = (inr u, d') ->
  d' = d
  /\ existsb (fun r => negb (skip (inv_id r)) && (inv_id r =? inv_id NEW))
             (inventory db) = false.
Proof.
  unfold check_inventory. intros H. inv_run H.
  repeat match goal with
         | Hn : negb _ = true |- _ => apply negb_true_iff in Hn
         end.
  auto.
Qed.

Lemma audit_trigger_inr ss table op OLD NEW db u db' :
  audit_trigger ss table op OLD NEW db = (inr u, db') ->
  exists o r,
    coalesce (match NEW with Some x => image_organization_id x | None => None end)
             (match OLD with Some x => image_organization_id x | None => None end) = Some o
    /\ coalesce (option_map image_id NEW) (option_map image_id OLD) = Some r
    /\ db' = set_audit_log
               (audit_log db ++
                [mk_audit (next_uuid db) o table r op (old_image op OLD) (new_image op NEW)
                          (auth_uid ss) (Some (now ss))])
               (set_next_uuid (next_uuid db + 1) db).
Proof.
  unfold audit_trigger. intros H.
  apply insert_audit_log_inr in H as (o & r & Ho & Hr & Hdb). eauto.
Qed.

Lemma insert_inventory_inr ss NEW db u db' :
  insert_inventory ss NEW db = (inr u, db') ->
  db' = mk_db (users db) (organizations db) (memberships db) (inventory db ++ [NEW])
              (transactions db) (invites db)
              (audit_log db ++
               [mk_audit (next_uuid db) (inv_organization_id NEW) "inventory" (inv_id NEW)
                         INSERT None (Some (InventoryImage NEW)) (auth_uid ss)
                         (Some (now ss))])
              (next_uuid db + 1)
  /\ item_exists db (inv_id NEW) = false.
Proof.
  unfold insert_inventory. intros H. inv_run H.
  match goal with
  | Hc : check_inventory _ _ _ _ = _ |- _ =>
      apply check_inventory_inr in Hc as (-> & Hpk)
  end.
  match goal with
  | Ha : audit_trigger _ _ _ _ _ _ = _ |- _ =>
      apply audit_trigger_inr in Ha as (o & r & Ho & Hr & ->)
  end.
  simpl in Ho, Hr. inversion Ho; inversion Hr; subst o r.
  split; [reflexivity | exact Hpk].
Qed.

Lemma update_inventory_inr ss id set db r db' :
  update_inventory ss id set db = (inr r, db') ->
  (find (fun x => inv_id x =? id) (inventory db) = None /\ r = None /\ db' = db)
  \/ exists OLD,
       find (fun x => inv_id x =? id) (inventory db) = Some OLD
       /\ r = Some (update_updated_at_inv ss (set OLD))
       /\ db' = mk_db (users db) (organizations db) (memberships db)
                      (put_item id (update_updated_at_inv ss (set OLD)) (inventory db))
                      (transactions db) (invites db)
                      (audit_log db ++
                       [mk_audit (next_uuid db) (inv_organization_id (set OLD)) "inventory"
                                 (inv_id (set OLD)) UPDATE (Some (InventoryImage OLD))
                                 (Some (InventoryImage (update_updated_at_inv ss (set OLD))))
                                 (auth_uid ss) (Some (now ss))])
                      (next_uuid db + 1)
       /\ (inv_id (set OLD) = id \/ item_referenced db id = false)
       /\ existsb (fun x => negb (inv_id x =? id) && (inv_id x =? inv_id (set OLD)))
                  (inventory db) = false.
Proof.
  unfold update_inventory. intros H. unfold bind at 1, get at 1 in H.
  destruct (find _ (inventory db)) as [OLD |] eqn:Efind.
  - right. exists OLD. inv_run H.
    match goal with
    | Hc : check_inventory _ _ _ _ = _ |- _ =>
        apply check_inventory_inr in Hc as (-> & Hpk)
    end.
    match goal with
    | Ha : audit_trigger _ _ _ _ _ _ = _ |- _ =>
        apply audit_trigger_inr in Ha as (o & r & Ho & Hr & ->)
    end.
    simpl in Ho, Hr. inversion Ho; inversion Hr; subst o r.
    repeat split; try reflexivity; [| exact Hpk].
    match goal with
    | Hq : (_ || _)%bool = true |- _ =>
        apply orb_prop in Hq as [Hq | Hq];
        [left; now apply Z.eqb_eq | right; now apply negb_true_iff]
    end.
  - left. inversion H. auto.
Qed.

Lemma delete_inventory_inr ss id db u db' :
  delete_inventory ss id db = (inr u, db') ->
  (find (fun x => inv_id x =? id) (inventory db) = None /\ db' = db)
  \/ exists OLD,
       find (fun x => inv_id x =? id) (inventory db) = Some OLD
       /\ db' = mk_db (users db) (organizations db) (memberships db)
                      (filter (fun x => negb (inv_id x =? id)) (inventory db))
                      (filter (fun t => negb (t_inventory_id t =? id)) (transactions db))
                      (invites db)
                      (audit_log db ++
                       [mk_audit (next_uuid db) (inv_organization_id OLD) "inventory"
                                 (inv_id OLD) DELETE (Some (InventoryImage OLD)) None
                                 (auth_uid ss) (Some (now ss))])
                      (next_uuid db + 1).
Proof.
  unfold delete_inventory. intros H. unfold bind at 1, get at 1 in H.
  destruct (find _ (inventory db)) as [OLD |] eqn:Efind.
  - right. exists OLD. inv_run H.
    match goal with
    | Ha : audit_trigger _ _ _ _ _ _ = _ |- _ =>
        apply audit_trigger_inr in Ha as (o & r & Ho & Hr & ->)
    end.
    simpl in Ho, Hr. inversion Ho; inversion Hr; subst o r.
    split; reflexivity.
  - left. inversion H. auto.
Qed.

Lemma insert_transaction_inr ss org inv price by_ email notes db t db' :
  insert_transaction ss org inv price by_ email notes db = (inr t, db') ->
  t = mk_transaction (next_uuid db) org inv price (Some (now ss)) by_ email notes
                     (Some (now ss))
  /\ db' = mk_db (users db) (organizations db) (memberships db) (inventory db)
                 (transactions db ++ [t]) (invites db) (audit_log db) (next_uuid db + 1)
  /\ item_exists db inv = true.
Proof.
  unfold insert_transaction. intros H.
  unfold bind at 1, gen_random_uuid at 1 in H. inv_run H.
  repeat split. assumption.
Qed.

Lemma mark_card_sold_inr ss id price email notes db t db' :
  mark_card_sold ss id price email notes db = (inr t, db') ->
  exists item OLD,
    find (fun r => (inv_id r =? id) && is_null (inv_deleted_at r)) (inventory db) = Some item
    /\ inv_status item = available
    /\ find (fun x => inv_id x =? id) (inventory db) = Some OLD
    /\ t = mk_transaction (next_uuid db + 1) (inv_organization_id item) id price
                          (Some (now ss)) (auth_uid ss) email notes (Some (now ss))
    /\ db' = mk_db (users db) (organizations db) (memberships db)
                   (put_item id (sold_item ss OLD) (inventory db))
                   (transactions db ++ [t]) (invites db)
                   (audit_log db ++
                    [mk_audit (next_uuid db) (inv_organization_id OLD) "inventory" id
                              UPDATE (Some (InventoryImage OLD))
                              (Some (InventoryImage (sold_item ss OLD)))
                              (auth_uid ss) (Some (now ss))])
                   (next_uuid db + 1 + 1).
Proof.
  unfold mark_card_sold. intros H. unfold bind at 1, get at 1 in H.
  destruct (find _ (inventory db)) as [item |] eqn:Efind; [| discriminate H].
  destruct (status_eqb (inv_status item) available) eqn:Es; simpl in H; [| discriminate H].
  destruct (existsb _ (memberships db)); simpl in H; [| discriminate H].
  apply status_eqb_eq in Es. inv_run H.
  match goal with
  | Hu : update_inventory _ _ _ _ = _ |- _ =>
      apply update_inventory_inr in Hu
        as [(Hnone & _ & _) | (OLD & Hold & _ & -> & Hid & _)]
  end.
  - exfalso. apply find_some in Efind as [Hin Hp]. apply andb_prop in Hp as [Hp _].
    eapply find_none in Hnone; eauto. simpl in Hnone. congruence.
  - match goal with
    | Hi : insert_transaction _ _ _ _ _ _ _ _ = _ |- _ =>
        apply insert_transaction_inr in Hi as (-> & -> & _)
    end.
    pose proof (find_some _ _ Hold) as [_ Hoid]. apply Z.eqb_eq in Hoid.
    exists item, OLD. simpl. rewrite Hoid. repeat split; auto.
Qed.

(** ** Writes the policies deny

    "Via RPC only", "No direct inserts" and "No direct deletes": a client
    can insert no transaction, insert or delete no membership and insert no
    organization; a table without DELETE policy admits no delete. *)

Lemma transactions_via_rpc_only ss NEW db :
  direct_insert_transaction ss NEW db = (inl (row_security_violation "transactions"), db).
Proof. reflexivity. Qed.

Lemma memberships_no_direct_insert_or_delete ss db m :
  admits_new INSERT_cmd ss db (MembershipsRow m) = false
  /\ admits_existing DELETE_cmd ss db (MembershipsRow m) = false.
Proof. split; reflexivity. Qed.

Lemma organizations_no_direct_insert_or_delete ss db o :
  admits_new INSERT_cmd ss db (OrganizationsRow o) = false
  /\ admits_existing DELETE_cmd ss db (OrganizationsRow o) = false.
Proof. split; reflexivity. Qed.

Lemma transactions_no_direct_update_or_delete ss db t :
  admits_existing UPDATE_cmd ss db (TransactionsRow t) = false
  /\ admits_existing DELETE_cmd ss db (TransactionsRow t) = false.
Proof. split; reflexivity. Qed.

(** ** Sale records *)

Lemma tx_count_app l t i :
  List.length (filter (fun t => t_inventory_id t =? i) (l ++ [t]))
  = Nat.add (List.length (filter (fun t => t_inventory_id t =? i) l))
            (if t_inventory_id t =? i then 1%nat else 0%nat).
Proof.
  rewrite filter_app, length_app. simpl.
  now destruct (t_inventory_id t =? i).
Qed.

Lemma tx_count_zero l i :
  (forall t, In t l -> t_inventory_id t <> i) ->
  List.length (filter (fun t => t_inventory_id t =? i) l) = 0%nat.
Proof.
  intros H. induction l as [| a l IH]; simpl; [reflexivity |].
  destruct (Z.eqb_spec (t_inventory_id a) i) as [E | E].
  - exfalso. apply (H a); simpl; auto.
  - apply IH. intros t Ht. apply H. simpl; auto.
Qed.

Lemma tx_count_filter_other l id i :
  i <> id ->
  List.length (filter (fun t => t_inventory_id t =? i)
                      (filter (fun t => negb (t_inventory_id t =? id)) l))
  = List.length (filter (fun t => t_inventory_id t =? i) l).
Proof.
  intros Hne. induction l as [| a l IH]; simpl; [reflexivity |].
  destruct (Z.eqb_spec (t_inventory_id a) id) as [E | E]; simpl.
  - destruct (Z.eqb_spec (t_inventory_id a) i); [congruence | exact IH].
  - destruct (t_inventory_id a =? i); simpl; now rewrite IH.
Qed.

Lemma item_exists_iff db i :
  item_exists db i = true <-> exists r, In r (inventory db) /\ inv_id r = i.
Proof.
  unfold item_exists. rewrite existsb_exists. split.
  - intros (r & Hin & H). exists r. split; [exact Hin | now apply Z.eqb_eq].
  - intros (r & Hin & H). exists r. split; [exact Hin | now apply Z.eqb_eq].
Qed.

Lemma in_put_item id NEW l x :
  In x (put_item id NEW l) ->
  (x = NEW /\ exists r, In r l /\ inv_id r = id) \/ (In x l /\ inv_id x <> id).
Proof.
  unfold put_item. rewrite in_map_iff. intros (r & Hx & Hr).
  destruct (Z.eqb_spec (inv_id r) id) as [E | E]; subst x.
  - left. eauto.
  - right. auto.
Qed.

Lemma put_item_in id NEW l r :
  In r l -> inv_id r = id -> In NEW (put_item id NEW l).
Proof.
  intros Hin Hid. unfold put_item. apply in_map_iff. exists r.
  split; [| exact Hin]. now rewrite Hid, Z.eqb_refl.
Qed.

Lemma put_item_other id NEW l r :
  In r l -> inv_id r <> id -> In r (put_item id NEW l).
Proof.
  intros Hin Hid. unfold put_item. apply in_map_iff. exists r.
  split; [| exact Hin]. now destruct (Z.eqb_spec (inv_id r) id).
Qed.

Lemma sale_invariant_sale ss id price email notes db :
  sale_invariant db ->
  sale_invariant (write ss (Sale id price email notes) db).
Proof.
  intros [Hinv Hfk]. simpl. unfold transaction.
  destruct (mark_card_sold ss id price email notes db) as [[e | t] db'] eqn:E; simpl;
    [split; assumption |].
  apply mark_card_sold_inr in E as (item & OLD & Hitem & Havail & Hold & -> & ->).
  apply find_some in Hitem as [Hitem Hp]. apply andb_prop in Hp as [Hp _].
  apply Z.eqb_eq in Hp.
  apply find_some in Hold as [Hold Hoid]. apply Z.eqb_eq in Hoid.
  assert (Hzero : tx_count db id = 0%nat).
  { destruct (Hinv item Hitem) as [Hle Hiff]. rewrite Hp in Hle, Hiff.
    destruct (tx_count db id) as [| [| n]]; [reflexivity | | lia].
    exfalso. assert (inv_status item = sold) by now apply Hiff. congruence. }
  split.
  - intros x Hx. unfold tx_count. cbn [transactions inventory] in *.
    rewrite tx_count_app. cbn [t_inventory_id].
    apply in_put_item in Hx as [[-> _] | [Hx Hne]].
    + simpl inv_id. rewrite Hoid, Z.eqb_refl. fold (tx_count db id). rewrite Hzero.
      simpl. split; [lia | split; reflexivity].
    + destruct (Z.eqb_spec id (inv_id x)) as [Heq | _]; [congruence |].
      rewrite Nat.add_0_r. apply (Hinv x Hx).
  - intros t Ht. apply item_exists_iff. cbn [transactions inventory] in *.
    apply in_app_or in Ht as [Ht | [<- | []]].
    + apply Hfk, item_exists_iff in Ht as (r & Hr & Hrid).
      destruct (Z.eqb_spec (inv_id r) id) as [Heq | Hne].
      * exists (sold_item ss OLD). split; [eapply put_item_in; eauto |].
        simpl. congruence.
      * exists r. split; [now apply put_item_other | exact Hrid].
    + exists (sold_item ss OLD). split; [eapply put_item_in; eauto | exact Hoid].
Qed.

Lemma sale_invariant_add ss NEW db :
  sale_invariant db -> inv_status NEW <> sold ->
  sale_invariant (write ss (Add NEW) db).
Proof.
  intros [Hinv Hfk] Hkeep. simpl. unfold transaction.
  destruct (direct_insert_inventory ss NEW db) as [[e | u] db'] eqn:E; simpl;
    [split; assumption |].
  unfold direct_insert_inventory in E. inv_run E.
  match goal with
  | Hi : insert_inventory _ _ _ = _ |- _ => apply insert_inventory_inr in Hi as (-> & Hnew)
  end.
  split.
  - intros x Hx. unfold tx_count. cbn [transactions inventory] in *.
    apply in_app_or in Hx as [Hx | [<- | []]]; [apply (Hinv x Hx) |].
    rewrite tx_count_zero.
    + split; [lia | split; [discriminate | contradiction]].
    + intros t Ht Heq. apply Hfk in Ht. congruence.
  - intros t Ht. cbn [transactions] in Ht. apply Hfk, item_exists_iff in Ht as (r & Hr & Hrid).
    apply item_exists_iff. exists r. cbn [inventory]. split; [| exact Hrid].
    apply in_or_app. now left.
Qed.

Lemma sale_invariant_edit ss id set db :
  sale_invariant db ->
  (forall r, inv_status (set r) = sold <-> inv_status r = sold) ->
  sale_invariant (write ss (Edit id set) db).
Proof.
  intros [Hinv Hfk] Hkeep. simpl. unfold transaction.
  destruct (direct_update_inventory ss id set db) as [[e | u] db'] eqn:E; simpl;
    [split; assumption |].
  unfold direct_update_inventory in E. unfold bind at 1, get at 1 in E.
  destruct (find _ (inventory db)) as [OLD0 |]; [| inversion E; subst; split; assumption].
  destruct (_ && _)%bool; [| inversion E; subst; split; assumption].
  inv_run E.
  match goal with
  | Hu : update_inventory _ _ _ _ = _ |- _ =>
      apply update_inventory_inr in Hu
        as [(_ & _ & ->) | (OLD & Hold & _ & -> & Hid & Hpk)]
  end; [split; assumption |].
  apply find_some in Hold as [Hold Hoid]. apply Z.eqb_eq in Hoid.
  rewrite existsb_false_forall in Hpk.
  set (NEW := update_updated_at_inv ss (set OLD)) in *.
  assert (Hnew_id : inv_id NEW = inv_id (set OLD)) by reflexivity.
  assert (Hnew_status : inv_status NEW = sold <-> inv_status OLD = sold)
    by (unfold NEW; simpl; apply Hkeep).
  destruct (Hinv OLD Hold) as [Hle Hiff]. rewrite Hoid in Hle, Hiff.
  split.
  - intros x Hx. unfold tx_count. cbn [transactions inventory] in *.
    apply in_put_item in Hx as [[-> _] | [Hx Hne]]; [| apply (Hinv x Hx)].
    fold (tx_count db (inv_id NEW)). rewrite Hnew_id.
    destruct Hid as [Hid | Hunref].
    + rewrite Hid. split; [exact Hle | now rewrite Hnew_status].
    + assert (Hzero : forall i, (i = id \/ i = inv_id (set OLD)) -> tx_count db i = 0%nat).
      { intros i Hi. apply tx_count_zero. intros t Ht Heq.
        unfold item_referenced in Hunref. rewrite existsb_false_forall in Hunref.
        destruct (Z.eqb_spec (t_inventory_id t) id) as [Ht_id | Ht_id].
        - specialize (Hunref t Ht). simpl in Hunref. rewrite Ht_id, Z.eqb_refl in Hunref.
          discriminate.
        - destruct Hi as [-> | ->]; [congruence |].
          apply Hfk, item_exists_iff in Ht as (r & Hr & Hrid).
          specialize (Hpk r Hr). simpl in Hpk.
          rewrite Hrid, Heq, Z.eqb_refl, andb_true_r in Hpk.
          apply negb_false_iff, Z.eqb_eq in Hpk. congruence. }
      rewrite (Hzero (inv_id (set OLD))) by auto.
      rewrite (Hzero id) in Hiff by auto.
      split; [lia |]. rewrite Hnew_status. rewrite <- Hiff. reflexivity.
  - intros t Ht. cbn [transactions] in Ht. apply item_exists_iff. cbn [inventory].
    pose proof (Hfk t Ht) as Hex. apply item_exists_iff in Hex as (r & Hr & Hrid).
    destruct (Z.eqb_spec (inv_id r) id) as [Heq | Hne].
    + exists NEW. split; [eapply put_item_in; eauto |].
      destruct Hid as [Hid | Hunref]; [rewrite Hnew_id; congruence |].
      exfalso. unfold item_referenced in Hunref. rewrite existsb_false_forall in Hunref.
      specialize (Hunref t Ht). simpl in Hunref.
      rewrite <- Hrid, Heq, Z.eqb_refl in Hunref. discriminate.
    + exists r. split; [now apply put_item_other | exact Hrid].
Qed.

Lemma sale_invariant_remove ss id db :
  sale_invariant db -> sale_invariant (write ss (Remove id) db).
Proof.
  intros [Hinv Hfk]. simpl. unfold transaction.
  destruct (direct_delete_inventory ss id db) as [[e | u] db'] eqn:E; simpl;
    [split; assumption |].
  unfold direct_delete_inventory in E. unfold bind at 1, get at 1 in E.
  destruct (find _ (inventory db)) as [OLD0 |]; [| inversion E; subst; split; assumption].
  destruct (_ && _)%bool; [| inversion E; subst; split; assumption].
  apply delete_inventory_inr in E as [(_ & ->) | (OLD & _ & ->)]; [split; assumption |].
  split.
  - intros x Hx. unfold tx_count. cbn [transactions inventory] in *.
    apply filter_In in Hx as [Hx Hne]. apply negb_true_iff, Z.eqb_neq in Hne.
    rewrite tx_count_filter_other by exact Hne. apply (Hinv x Hx).
  - intros t Ht. cbn [transactions] in Ht. apply filter_In in Ht as [Ht Hne].
    apply negb_true_iff, Z.eqb_neq in Hne.
    apply Hfk, item_exists_iff in Ht as (r & Hr & Hrid).
    apply item_exists_iff. exists r. cbn [inventory]. split; [| exact Hrid].
    apply filter_In. split; [exact Hr |]. apply negb_true_iff, Z.eqb_neq. congruence.
Qed.

(** What [mark_card_sold] itself keeps. From a state where every item has
    at most one transaction and exactly one iff it is sold, the same holds
    after any sequence of [mark_card_sold] calls (whatever their outcome)
    and of direct inventory writes under the policies that neither set nor
    clear the status [sold]: inserting an unsold item, updating an item
    without changing whether it is sold, deleting an item. The procedure
    guards the status and records the sale; the direct writes of the
    status are what breaks the record, below. *)
Theorem sale_recorded_once_preserved (ws : list (session * inventory_write)) (db : DB) :
  sale_invariant db ->
  Forall (fun sw => keeps_sold_status (snd sw)) ws ->
  sale_recorded_once (writes ws db) /\ transactions_reference_items (writes ws db).
Proof.
  revert db. induction ws as [| [ss w] ws IH]; simpl; intros db Hinv Hkeep.
  - exact Hinv.
  - inversion Hkeep as [| ? ? Hw Hws]; subst. simpl in Hw.
    apply IH; [| exact Hws].
    destruct w.
    + now apply sale_invariant_sale.
    + now apply sale_invariant_add.
    + now apply sale_invariant_edit.
    + now apply sale_invariant_remove.
Qed.

Lemma test_db_sale_invariant : sale_invariant test_db.
Proof.
  split.
  - intros item [<- | []]. unfold tx_count. simpl.
    split; [apply Nat.le_0_l | split; discriminate].
  - intros t [].
Qed.

Lemma sale_recorded_once_preserved_witness :
  sale_recorded_once
    (writes [(as_member, Sale 100 24999 None None);
             (as_member, Edit 100 (fun r => r));
             (as_owner, Remove 100)] test_db).
Proof.
  apply sale_recorded_once_preserved.
  - exact test_db_sale_invariant.
  - constructor; [exact I |].
    constructor; [simpl; intros it; reflexivity |].
    constructor; [exact I | constructor].
Defined.

(** C1, the failing input: the member of the test store runs [UPDATE
    inventory SET status = 'sold'] on the available card. The policy
    "Members update" has no condition on the status: it admits the old row
    and the new one, the update goes through, and the item is left sold
    with no transaction, where [mark_card_sold] checks the status and
    inserts the transaction with the update. *)
Lemma direct_status_write_breaks_sale_record :
  sale_recorded_once test_db
  /\ admits_existing UPDATE_cmd as_member test_db (InventoryRow test_card) = true
  /\ admits_new UPDATE_cmd as_member test_db
       (InventoryRow (update_updated_at_inv as_member (set_status sold test_card))) = true
  /\ (exists r db',
        transaction (direct_update_inventory as_member 100 (set_status sold)) test_db
        = (inr (Some r), db')
        /\ In r (inventory db') /\ inv_status r = sold /\ tx_count db' (inv_id r) = 0%nat
        /\ ~ sale_recorded_once db').
Proof.
  split; [exact (proj1 test_db_sale_invariant) |].
  split; [reflexivity | split; [reflexivity |]].
  eexists. eexists. split; [reflexivity |].
  split; [simpl; auto | split; [reflexivity | split; [reflexivity |]]].
  intros H. specialize (H _ (or_introl eq_refl)).
  destruct H as [_ [_ H]]. specialize (H eq_refl). discriminate H.
Qed.

(** The other half: once a member has put a sold item back to
    [available], [mark_card_sold] records a second transaction for it. *)
Example resold_item_has_two_transactions :
  let db' := writes [(as_member, Sale 100 24999 None None);
                     (as_member, Edit 100 (set_status available));
                     (as_owner, Sale 100 19999 None None)] test_db in
  tx_count db' 100 = 2%nat.
Proof. reflexivity. Qed.

(** ** The audit trail *)

Lemma audit_trigger_organizations_inr ss table op OLD NEW db u db' :
  audit_trigger_organizations ss table op OLD NEW db = (inr u, db') ->
  exists r,
    coalesce (option_map image_id NEW) (option_map image_id OLD) = Some r
    /\ db' = set_audit_log
               (audit_log db ++
                [mk_audit (next_uuid db) r table r op (old_image op OLD) (new_image op NEW)
                          (auth_uid ss) (Some (now ss))])
               (set_next_uuid (next_uuid db + 1) db).
Proof.
  unfold audit_trigger_organizations. intros H.
  apply insert_audit_log_inr in H as (o & r & Ho & Hr & Hdb).
  exists r. rewrite Ho in Hr. inversion Hr; subst. auto.
Qed.

Lemma update_organization_inr ss id set db r db' :
  update_organization ss id set db = (inr r, db') ->
  (find (fun o => org_id o =? id) (organizations db) = None /\ db' = db)
  \/ exists OLD,
       find (fun o => org_id o =? id) (organizations db) = Some OLD
       /\ db' = mk_db (users db)
                      (map (fun o => if org_id o =? id
                                     then update_updated_at_org ss (set OLD) else o)
                           (organizations db))
                      (memberships db) (inventory db) (transactions db) (invites db)
                      (audit_log db ++
                       [mk_audit (next_uuid db) (org_id (set OLD)) "organizations"
                                 (org_id (set OLD)) UPDATE (Some (OrganizationImage OLD))
                                 (Some (OrganizationImage (update_updated_at_org ss (set OLD))))
                                 (auth_uid ss) (Some (now ss))])
                      (next_uuid db + 1).
Proof.
  unfold update_organization. intros H. unfold bind at 1, get at 1 in H.
  destruct (find _ (organizations db)) as [OLD |] eqn:Efind.
  - right. exists OLD. inv_run H.
    match goal with
    | Hc : check_organization _ _ _ _ = _ |- _ =>
        apply check_organization_inr in Hc as (-> & _)
    end.
    match goal with
    | Ha : audit_trigger_organizations _ _ _ _ _ _ = _ |- _ =>
        apply audit_trigger_organizations_inr in Ha as (k & Hk & ->)
    end.
    simpl in Hk. inversion Hk; subst k. split; reflexivity.
  - left. inversion H. auto.
Qed.

Lemma update_membership_inr ss id set db r db' :
  update_membership ss id set db = (inr r, db') ->
  (find (fun x => m_id x =? id) (memberships db) = None /\ db' = db)
  \/ exists OLD,
       find (fun x => m_id x =? id) (memberships db) = Some OLD
       /\ r = Some (set OLD)
       /\ db' = mk_db (users db) (organizations db)
                      (map (fun x => if m_id x =? id then set OLD else x) (memberships db))
                      (inventory db) (transactions db) (invites db)
                      (audit_log db ++
                       [mk_audit (next_uuid db) (m_organization_id (set OLD)) "memberships"
                                 (m_id (set OLD)) UPDATE (Some (MembershipImage OLD))
                                 (Some (MembershipImage (set OLD)))
                                 (auth_uid ss) (Some (now ss))])
                      (next_uuid db + 1).
Proof.
  unfold update_membership. intros H. unfold bind at 1, get at 1 in H.
  destruct (find _ (memberships db)) as [OLD |] eqn:Efind.
  - right. exists OLD. inv_run H.
    match goal with
    | Hc : check_membership _ _ _ _ = _ |- _ =>
        apply check_membership_inr in Hc as (-> & _)
    end.
    match goal with
    | Ha : audit_trigger _ _ _ _ _ _ = _ |- _ =>
        apply audit_trigger_inr in Ha as (o & k & Ho & Hk & ->)
    end.
    simpl in Ho, Hk. inversion Ho; inversion Hk; subst o k. repeat split.
  - left. inversion H. auto.
Qed.

Lemma delete_membership_inr ss id db u db' :
  delete_membership ss id db = (inr u, db') ->
  (find (fun x => m_id x =? id) (memberships db) = None /\ db' = db)
  \/ exists OLD,
       find (fun x => m_id x =? id) (memberships db) = Some OLD
       /\ db' = mk_db (users db) (organizations db)
                      (filter (fun x => negb (m_id x =? id)) (memberships db))
                      (inventory db) (transactions db) (invites db)
                      (audit_log db ++
                       [mk_audit (next_uuid db) (m_organization_id OLD) "memberships"
                                 (m_id OLD) DELETE (Some (MembershipImage OLD)) None
                                 (auth_uid ss) (Some (now ss))])
                      (next_uuid db + 1).
Proof.
  unfold delete_membership. intros H. unfold bind at 1, get at 1 in H.
  destruct (find _ (memberships db)) as [OLD |] eqn:Efind.
  - right. exists OLD. inv_run H.
    match goal with
    | Ha : audit_trigger _ _ _ _ _ _ = _ |- _ =>
        apply audit_trigger_inr in Ha as (o & k & Ho & Hk & ->)
    end.
    simpl in Ho, Hk. inversion Ho; inversion Hk; subst o k. split; reflexivity.
  - left. inversion H. auto.
Qed.

Lemma find_none_existsb {A} (f : A -> bool) l :
  find f l = None -> existsb f l = false.
Proof.
  intros H. apply existsb_false_forall. intros x Hx. eapply find_none; eauto.
Qed.

Lemma in_map_replace {A} (key : A -> Z) id (NEW OLD : A) l :
  In OLD l -> key OLD = id ->
  In NEW (map (fun x => if key x =? id then NEW else x) l).
Proof.
  intros Hin Hk. apply in_map_iff. exists OLD. split; [| exact Hin].
  now rewrite Hk, Z.eqb_refl.
Qed.

(** C3 (amended). Every insert, update or delete of [inventory] or
    [memberships] and every insert or update of [organizations] that
    succeeds has appended exactly one audit entry, in the same body, with
    the table's name, the record id, the operation, the row as it was (for
    update and delete), the row as stored (for insert and update) and the
    acting principal; a mutation of a table without audit trigger
    ([transactions], [invites]) appends none. *)
Theorem audit_entry_per_audited_mutation (ss : session) (m : mutation) (db db' : DB) :
  mutate ss m db = (inr tt, db') ->
  rows_affected m db = true ->
  (audited (mutation_table m) (mutation_op m) = true ->
     exists e,
       audit_log db' = audit_log db ++ [e]
       /\ audit_entry_matches ss m db e
       /\ (forall img, a_old_data e = Some img -> stored img db)
       /\ (forall img, a_new_data e = Some img -> stored img db'))
  /\ (audited (mutation_table m) (mutation_op m) = false ->
        audit_log db' = audit_log db).
Proof.
  intros Hrun Haff.
  destruct m; simpl in Hrun, Haff;
    (split; intros Haud; simpl in Haud; try discriminate Haud; clear Haud).
  - (* INSERT organizations *)
    inv_run Hrun.
    match goal with
    | Hi : insert_organization _ _ _ _ = _ |- _ =>
        apply insert_organization_inr in Hi as (-> & -> & _)
    end.
    eexists. split; [reflexivity |]. split; [repeat split |]. split.
    + intros img Himg. discriminate Himg.
    + intros img Himg. inversion Himg; subst. simpl. apply in_or_app. right. now left.
  - (* UPDATE organizations *)
    inv_run Hrun.
    match goal with
    | Hu : update_organization _ _ _ _ = _ |- _ =>
        apply update_organization_inr in Hu as [(Hnone & _) | (OLD & Hold & ->)]
    end.
    { apply find_none_existsb in Hnone. congruence. }
    eexists. split; [reflexivity |]. unfold audit_entry_matches. simpl. rewrite Hold. simpl.
    split; [repeat split |]. apply find_some in Hold as [Hin Hid]. apply Z.eqb_eq in Hid.
    split.
    + intros img Himg. inversion Himg; subst. exact Hin.
    + intros img Himg. inversion Himg; subst. simpl.
      eapply (in_map_replace org_id); eauto.
  - (* INSERT memberships *)
    inv_run Hrun.
    match goal with
    | Hi : insert_membership _ _ _ _ _ _ _ _ = _ |- _ =>
        apply insert_membership_inr in Hi as (u & -> & -> & -> & _)
    end.
    eexists. split; [reflexivity |]. split; [repeat split |]. split.
    + intros img Himg. discriminate Himg.
    + intros img Himg. inversion Himg; subst. simpl. apply in_or_app. right. now left.
  - (* UPDATE memberships *)
    inv_run Hrun.
    match goal with
    | Hu : update_membership _ _ _ _ = _ |- _ =>
        apply update_membership_inr in Hu as [(Hnone & _) | (OLD & Hold & _ & ->)]
    end.
    { apply find_none_existsb in Hnone. congruence. }
    eexists. split; [reflexivity |]. unfold audit_entry_matches. simpl. rewrite Hold. simpl.
    split; [repeat split |]. apply find_some in Hold as [Hin Hid]. apply Z.eqb_eq in Hid.
    split.
    + intros img Himg. inversion Himg; subst. exact Hin.
    + intros img Himg. inversion Himg; subst. simpl.
      eapply (in_map_replace m_id); eauto.
  - (* DELETE memberships *)
    apply delete_membership_inr in Hrun as [(Hnone & _) | (OLD & Hold & ->)].
    { apply find_none_existsb in Hnone. congruence. }
    eexists. split; [reflexivity |]. unfold audit_entry_matches. simpl. rewrite Hold. simpl.
    split; [repeat split |]. apply find_some in Hold as [Hin Hid].
    split.
    + intros img Himg. inversion Himg; subst. exact Hin.
    + intros img Himg. discriminate Himg.
  - (* INSERT inventory *)
    apply insert_inventory_inr in Hrun as (-> & _).
    eexists. split; [reflexivity |]. split; [repeat split |]. split.
    + intros img Himg. discriminate Himg.
    + intros img Himg. inversion Himg; subst. simpl. apply in_or_app. right. now left.
  - (* UPDATE inventory *)
    inv_run Hrun.
    match goal with
    | Hu : update_inventory _ _ _ _ = _ |- _ =>
        apply update_inventory_inr in Hu
          as [(Hnone & _) | (OLD & Hold & _ & -> & _)]
    end.
    { apply find_none_existsb in Hnone. congruence. }
    eexists. split; [reflexivity |]. unfold audit_entry_matches. simpl. rewrite Hold. simpl.
    split; [repeat split |]. apply find_some in Hold as [Hin Hid]. apply Z.eqb_eq in Hid.
    split.
    + intros img Himg. inversion Himg; subst. exact Hin.
    + intros img Himg. inversion Himg; subst. simpl.
      eapply put_item_in; eauto.
  - (* DELETE inventory *)
    apply delete_inventory_inr in Hrun as [(Hnone & _) | (OLD & Hold & ->)].
    { apply find_none_existsb in Hnone. congruence. }
    eexists. split; [reflexivity |]. unfold audit_entry_matches. simpl. rewrite Hold. simpl.
    split; [repeat split |]. apply find_some in Hold as [Hin Hid].
    split.
    + intros img Himg. inversion Himg; subst. exact Hin.
    + intros img Himg. discriminate Himg.
  - (* INSERT transactions *)
    inv_run Hrun.
    match goal with
    | Hi : insert_transaction _ _ _ _ _ _ _ _ = _ |- _ =>
        apply insert_transaction_inr in Hi as (_ & -> & _)
    end.
    reflexivity.
  - (* INSERT invites *)
    unfold insert_invite in Hrun. inv_run Hrun.
    match goal with
    | Hc : check_invite _ _ _ _ = _ |- _ => apply check_invite_state in Hc as ->
    end.
    reflexivity.
  - (* UPDATE invites *)
    apply update_invite_inr in Hrun as ->. reflexivity.
  - (* DELETE invites *)
    unfold delete_invite, modify in Hrun. inversion Hrun. reflexivity.
Qed.

Lemma audit_entry_per_audited_mutation_witness :
  exists db' e,
    mutate as_member (Del_membership 21) test_db = (inr tt, db')
    /\ audit_log db' = audit_log test_db ++ [e]
    /\ a_action e = DELETE /\ a_record_id e = 21
    /\ a_old_data e = Some (MembershipImage test_member) /\ a_new_data e = None
    /\ a_changed_by e = Some 2.
Proof.
  pose (db' := snd (mutate as_member (Del_membership 21) test_db)).
  destruct (audit_entry_per_audited_mutation as_member (Del_membership 21) test_db db'
              eq_refl eq_refl) as [Haudited _].
  destruct (Haudited eq_refl) as (e & Hlog & (_ & Hop & Hold & Hnew & Hid & _ & Hby) & _).
  exists db', e. simpl in Hop, Hold, Hnew, Hid, Hby.
  assert (Hrec : a_record_id e = 21) by (injection Hid; auto).
  split; [reflexivity |]. repeat split; assumption.
Defined.

(** C3 (as stated) fails on [transactions]: a sale mutates two tables,
    [inventory] and [transactions], and leaves one audit entry, for the
    inventory row; the inserted transaction has none. *)
Lemma sale_transaction_has_no_audit_entry :
  exists t db',
    transaction (mark_card_sold as_member 100 24999 None None) test_db = (inr t, db')
    /\ In t (transactions db')
    /\ List.length (audit_log db') = 1%nat
    /\ (forall e, In e (audit_log db') ->
          a_table_name e = "inventory" /\ a_record_id e <> t_id t)
    /\ exists db'',
         mutate as_member (Ins_transaction 10 100 24999 (Some 2) None None) test_db
         = (inr tt, db'')
         /\ List.length (transactions db'') = 1%nat
         /\ audit_log db'' = audit_log test_db.
Proof.
  eexists. eexists. split; [reflexivity |].
  split; [simpl; auto |]. split; [reflexivity |]. split.
  - intros e [<- | []]. split; [reflexivity | discriminate].
  - eexists. repeat split.
Qed.

(** ** The procedures keep every organization owned *)

Lemma leave_organization_inr ss p db u db' :
  leave_organization ss p db = (inr u, db') ->
  exists m,
    find (fun m => is_caller ss (m_user_id m) && (m_organization_id m =? p))
         (memberships db) = Some m
    /\ (m_role m = owner -> (2 <= owner_count db p)%nat)
    /\ delete_membership ss (m_id m) db = (inr u, db').
Proof.
  unfold leave_organization. intros H. unfold bind at 1, get at 1 in H.
  destruct (find _ (memberships db)) as [m |]; [| discriminate H].
  exists m. split; [reflexivity |].
  apply bind_inr in H as ([] & d & Hguard & Hdel).
  destruct (role_eqb (m_role m) owner) eqn:Er.
  - destruct (Nat.leb_spec (owner_count db p) 1) as [Hle | Hgt]; [discriminate Hguard |].
    inversion Hguard; subst d. split; [intros _; lia | exact Hdel].
  - inversion Hguard; subst d. split; [| exact Hdel].
    intros Hrole. apply role_eqb_eq in Hrole. congruence.
Qed.

Lemma leave_organization_keeps_owner ss p db :
  keys_ok db = true -> every_organization_owned db ->
  every_organization_owned (snd (transaction (leave_organization ss p) db)).
Proof.
  intros Hk Hown. unfold transaction.
  destruct (leave_organization ss p db) as [[e | u] db'] eqn:E; simpl; [exact Hown |].
  apply leave_organization_inr in E as (m & Hfind & Hguard & Hdel).
  apply find_some in Hfind as [Hin Hp]. apply andb_prop in Hp as [_ Horg].
  apply Z.eqb_eq in Horg.
  apply delete_membership_inr in Hdel as [(_ & ->) | (OLD & Hold & ->)]; [exact Hown |].
  intros o Ho. simpl in Ho. specialize (Hown o Ho).
  unfold owner_count in *. cbn [memberships].
  unfold keys_ok in Hk. repeat (apply andb_prop in Hk as [Hk ?]).
  pose proof (count_after_delete m_id
                (fun x => (m_organization_id x =? org_id o) && role_eqb (m_role x) owner)
                (memberships db) m Hk Hin) as Hcount.
  cbv beta in Hcount.
  destruct ((m_organization_id m =? org_id o) && role_eqb (m_role m) owner)%bool eqn:Em.
  - apply andb_prop in Em as [Emo Emr]. apply Z.eqb_eq in Emo. apply role_eqb_eq in Emr.
    specialize (Hguard Emr). unfold owner_count in Hguard.
    rewrite <- Emo, Horg in *. lia.
  - lia.
Qed.

Lemma owner_count_app l m o :
  List.length (filter (fun x => (m_organization_id x =? o) && role_eqb (m_role x) owner)
                      (l ++ [m]))
  = Nat.add
      (List.length (filter (fun x => (m_organization_id x =? o) && role_eqb (m_role x) owner) l))
      (if (m_organization_id m =? o) && role_eqb (m_role m) owner then 1%nat else 0%nat).
Proof.
  rewrite filter_app, length_app. simpl.
  now destruct ((m_organization_id m =? o) && role_eqb (m_role m) owner)%bool.
Qed.

Lemma create_organization_keeps_owner ss n s db :
  every_organization_owned db ->
  every_organization_owned (snd (transaction (create_organization ss n s) db)).
Proof.
  intros Hown. unfold transaction.
  destruct (create_organization ss n s db) as [[e | v] db'] eqn:E; simpl; [exact Hown |].
  unfold create_organization in E.
  destruct (negb (slug_format s)); [discriminate E |].
  inv_run E.
  match goal with
  | Hi : insert_organization _ _ _ _ = _ |- _ =>
      apply insert_organization_inr in Hi as (Hv & Hdb1 & _)
  end.
  match goal with
  | Hi : insert_membership _ _ _ _ _ _ _ _ = _ |- _ =>
      apply insert_membership_inr in Hi as (u & Hu & Hm & Hdb2 & _)
  end.
  subst. intros o Ho. simpl in Ho. unfold owner_count. cbn [memberships].
  rewrite owner_count_app. cbn [m_organization_id m_role]. simpl role_eqb.
  apply in_app_or in Ho as [Ho | [<- | []]].
  - specialize (Hown o Ho). unfold owner_count in Hown. lia.
  - simpl org_id. rewrite Z.eqb_refl. simpl. lia.
Qed.

(** ** The last owner *)

(** C2, the failing input: the sole owner of the test store runs
    [UPDATE memberships SET role = 'member'] on their own row. "Owners
    update roles" admits the old row and the new one, the update goes
    through, and the store, still in the table and not deleted, is left
    with no owner. *)
Theorem sole_owner_can_demote_self :
  every_organization_owned test_db
  /\ admits_existing UPDATE_cmd as_owner test_db (MembershipsRow test_owner) = true
  /\ admits_new UPDATE_cmd as_owner test_db (MembershipsRow (set_role member test_owner)) = true
  /\ exists db',
       transaction (direct_update_membership as_owner 20 (set_role member)) test_db
       = (inr (Some (set_role member test_owner)), db')
       /\ In test_store (organizations db')
       /\ owner_count db' 10 = 0%nat
       /\ ~ every_organization_owned db'.
Proof.
  split.
  { intros o [<- | []]. apply Nat.le_refl. }
  split; [reflexivity | split; [reflexivity |]].
  eexists. split; [reflexivity |].
  split; [simpl; auto | split; [reflexivity |]].
  intros H. specialize (H test_store (or_introl eq_refl)).
  apply Nat.nle_succ_0 in H. exact H.
Qed.

(** The same outcome does not depend on the policy reading the state as of
    the start of the statement: when the owner of two stores re-points
    their row in the second to another user in the first, the new row
    passes "Owners update roles" in the state after the update as well,
    and the second store is left with no owner. *)
Example owner_can_orphan_other_store :
  every_organization_owned two_stores_db
  /\ exists db',
       transaction (direct_update_membership as_owner 22 (set_user_and_organization 3 10))
                   two_stores_db
       = (inr (Some (set_user_and_organization 3 10 second_owner)), db')
       /\ admits_new UPDATE_cmd as_owner db'
            (MembershipsRow (set_user_and_organization 3 10 second_owner)) = true
       /\ admits_existing SELECT_cmd as_owner db'
            (MembershipsRow (set_user_and_organization 3 10 second_owner)) = true
       /\ In second_store (organizations db')
       /\ owner_count db' 11 = 0%nat.
Proof.
  split.
  { intros o [<- | [<- | []]]; apply Nat.le_refl. }
  eexists. split; [reflexivity |]. repeat split. simpl. auto.
Qed.

(** ** Soft-deleted organizations and the policies *)

Lemma user_org_ids_exclude_soft_deleted ss db o :
  (forall r, In r (organizations db) -> org_id r = o -> org_deleted_at r <> None) ->
  uuid_in o (get_user_org_ids ss db) = false.
Proof.
  intros Hdel. unfold uuid_in, get_user_org_ids.
  apply existsb_false_forall. intros x Hx.
  apply in_map_iff in Hx as (m & <- & Hm). apply filter_In in Hm as [_ Hm].
  apply andb_prop in Hm as [_ Hm]. apply existsb_exists in Hm as (r & Hr & Hlive).
  apply andb_prop in Hlive as [Hid Hnull]. apply Z.eqb_eq in Hid.
  destruct (Z.eqb_spec o (m_organization_id m)) as [-> | Hne]; [| reflexivity].
  exfalso. apply (Hdel r Hr Hid). now destruct (org_deleted_at r).
Qed.

(** The policies split in two: those written over [get_user_org_ids()] or
    the row's own [deleted_at] deny every row of a soft-deleted
    organization; the others are the ones listed in [ignores_soft_delete]. *)
Lemma member_org_ids_exclude_soft_deleted ss db o :
  uuid_in o (get_user_org_ids ss db) = false ->
  uuid_in o (member_org_ids ss db) = false.
Proof.
  intros Hids. unfold uuid_in at 1, member_org_ids.
  apply existsb_false_forall. intros x Hx.
  apply in_map_iff in Hx as (m & <- & Hm). apply filter_In in Hm as [_ Hm].
  apply andb_prop in Hm as [Hm _].
  destruct (Z.eqb_spec o (m_organization_id m)) as [-> | Hne]; [congruence | reflexivity].
Qed.

Lemma policies_and_soft_delete ss db r p :
  In p policies -> table_of r = pol_table p -> belongs_to_soft_deleted db r ->
  (holds (pol_using p) ss db r = false /\ holds (check_of p) ss db r = false)
  \/ In (pol_table p, pol_name p) ignores_soft_delete.
Proof.
  intros Hin Ht [Hdel Hrow].
  pose proof (user_org_ids_exclude_soft_deleted ss db (row_organization r) Hdel) as Hids.
  pose proof (member_org_ids_exclude_soft_deleted ss db _ Hids) as Hmem.
  unfold policies in Hin. simpl in Hin.
  repeat (destruct Hin as [<- | Hin];
          [first
             [ right; simpl; tauto
             | left; unfold holds, check_of; simpl;
               unfold in_user_orgs_and_live, in_user_orgs, admin_or_owner_and_live, live,
                 never, in_member_orgs;
               destruct r; try discriminate Ht; simpl in *;
               rewrite ?Hids, ?Hmem; simpl;
               try (destruct (org_deleted_at r) eqn:Ed; [| congruence]);
               simpl; rewrite ?andb_false_r; split; reflexivity ]
          |]).
  destruct Hin.
Qed.

(** C8, the failing input: the test store is soft-deleted. Its owner is
    still admitted by "Admins manage" to read, insert, update and delete
    its invites and by "Admins view" to read its audit log; the predicates
    of "Owners update roles" and "Admins delete" still hold of its
    memberships and inventory; the uploader is still admitted to delete
    their image. The policies over [get_user_org_ids()] deny the same
    callers. *)
Theorem soft_deleted_rows_still_admitted :
  belongs_to_soft_deleted deleted_db (InvitesRow test_invite)
  /\ admits_existing SELECT_cmd as_owner deleted_db (InvitesRow test_invite) = true
  /\ admits_existing UPDATE_cmd as_owner deleted_db (InvitesRow test_invite) = true
  /\ admits_existing DELETE_cmd as_owner deleted_db (InvitesRow test_invite) = true
  /\ admits_new INSERT_cmd as_owner deleted_db (InvitesRow test_invite) = true
  /\ admits_existing SELECT_cmd as_owner deleted_db (AuditLogRow test_audit_entry) = true
  /\ admits_existing UPDATE_cmd as_owner deleted_db (MembershipsRow test_member) = true
  /\ admits_existing DELETE_cmd as_owner deleted_db (InventoryRow test_card) = true
  /\ admits_existing DELETE_cmd as_member deleted_db (InventoryImagesRow test_image) = true
  /\ admits_existing SELECT_cmd as_member deleted_db (InventoryImagesRow test_image) = false
  /\ admits_existing SELECT_cmd as_owner deleted_db (InventoryRow test_card) = false
  /\ admits_existing SELECT_cmd as_owner deleted_db (MembershipsRow test_member) = false.
Proof.
  split; [| repeat split].
  split; [| exact I].
  intros o [<- | []] _. discriminate.
Qed.

(** ** One pending invite per organization and email *)

Lemma NoDup_map_inj {A} (key : A -> Z) l x y :
  NoDup (map key l) -> In x l -> In y l -> key x = key y -> x = y.
Proof.
  induction l as [| a l IH]; simpl; [intros _ [] |].
  intros Hnd Hx Hy Hk. inversion Hnd as [| ? ? Hnotin Hnd']; subst.
  destruct Hx as [<- | Hx], Hy as [<- | Hy]; auto.
  - exfalso. apply Hnotin. rewrite Hk. now apply in_map.
  - exfalso. apply Hnotin. rewrite <- Hk. now apply in_map.
Qed.

Lemma NoDup_map_filter {A} (key : A -> Z) (f : A -> bool) l :
  NoDup (map key l) -> NoDup (map key (filter f l)).
Proof.
  induction l as [| a l IH]; simpl; intros Hnd; [constructor |].
  inversion Hnd as [| ? ? Hnotin Hnd']; subst.
  destruct (f a); simpl; [constructor |]; auto.
  intros Hin. apply Hnotin. apply in_map_iff in Hin as (x & Hx & Hin).
  apply filter_In in Hin as [Hin _]. rewrite <- Hx. now apply in_map.
Qed.

Lemma map_replace_absent {A} (key : A -> Z) id (g : A -> A) l :
  ~ In id (map key l) -> map (fun x => if key x =? id then g x else x) l = l.
Proof.
  induction l as [| a l IH]; simpl; intros Hnotin; [reflexivity |].
  destruct (Z.eqb_spec (key a) id) as [E | E]; [exfalso; auto |].
  f_equal. apply IH. auto.
Qed.

(** Replacing the row of key [id] keeps the keys distinct when the new key
    is that of no other row. *)
Lemma NoDup_map_replace {A} (key : A -> Z) id (g : A -> A) l :
  NoDup (map key l) ->
  (forall x y, In x l -> key x = id -> In y l -> key y <> id -> key y <> key (g x)) ->
  NoDup (map key (map (fun x => if key x =? id then g x else x) l)).
Proof.
  induction l as [| a l IH]; simpl; intros Hnd Hother; [constructor |].
  inversion Hnd as [| ? ? Hnotin Hnd']; subst.
  destruct (Z.eqb_spec (key a) id) as [E | E].
  - rewrite map_replace_absent by (rewrite <- E; exact Hnotin).
    constructor; [| exact Hnd'].
    intros Hin. apply in_map_iff in Hin as (y & Hy & Hin).
    apply (Hother a y); auto.
    intros Hyid. apply Hnotin. rewrite E, <- Hyid. now apply in_map.
  - constructor.
    + intros Hin. apply in_map_iff in Hin as (y' & Hy' & Hin).
      apply in_map_iff in Hin as (y & Hy & Hin). subst y'.
      destruct (Z.eqb_spec (key y) id) as [Ey | Ey].
      * apply (Hother y a); auto.
      * apply Hnotin. rewrite <- Hy'. now apply in_map.
    + apply IH; [exact Hnd' |]. intros x y Hx Hxid Hy Hyid. apply Hother; auto.
Qed.

Lemma for_each_inr_forall {A} (f : A -> M unit) l db u db' :
  (forall x d v d', f x d = (inr v, d') -> d' = d) ->
  for_each f l db = (inr u, db') ->
  forall x, In x l -> exists v, f x db = (inr v, db).
Proof.
  intros Hf. induction l as [| a l IH]; simpl; intros H x Hx; [destruct Hx |].
  apply bind_inr in H as (v & d1 & H1 & H2).
  pose proof (Hf _ _ _ _ H1) as ->.
  destruct Hx as [<- | Hx]; [eauto | now apply IH].
Qed.

Lemma check_invite_inr db skip NEW d u d' :
  check_invite db skip NEW d = (inr u, d') ->
  existsb (fun i => negb (skip (i_id i)) && (i_id i =? i_id NEW)) (invites db) = false
  /\ (in_pending_index NEW = true ->
      existsb (fun i => negb (skip (i_id i)) && in_pending_index i
                        && (i_organization_id i =? i_organization_id NEW)
                        && String.eqb (i_email i) (i_email NEW))
              (invites db) = false).
Proof.
  unfold check_invite. intros H. inv_run H.
  repeat match goal with
         | Hn : negb _ = true |- _ => apply negb_true_iff in Hn
         end.
  split; [assumption |]. intros Hp.
  match goal with
  | Hn : (in_pending_index NEW && _)%bool = false |- _ => rewrite Hp in Hn; exact Hn
  end.
Qed.

Lemma one_pending_insert NEW db u db' :
  one_pending_per_pair db ->
  insert_invite NEW db = (inr u, db') -> one_pending_per_pair db'.
Proof.
  intros [Hnd Huniq] H. unfold insert_invite in H. inv_run H.
  match goal with
  | Hc : check_invite _ _ _ _ = _ |- _ =>
      pose proof (check_invite_state _ _ _ _ _ _ Hc) as ->;
      apply check_invite_inr in Hc as [Hpk Hidx]
  end.
  simpl in Hpk. rewrite existsb_false_forall in Hpk.
  assert (Hclash : forall i, In i (invites db) ->
            in_pending_index i = true -> in_pending_index NEW = true ->
            i_organization_id i = i_organization_id NEW -> i_email i = i_email NEW -> False).
  { intros i Hi Hpi Hpn Ho He. specialize (Hidx Hpn).
    rewrite existsb_false_forall in Hidx. specialize (Hidx i Hi). simpl in Hidx.
    rewrite Hpi, Ho, He, Z.eqb_refl, String.eqb_refl in Hidx. discriminate. }
  split; simpl.
  - rewrite map_app. apply NoDup_app; [exact Hnd | repeat constructor; intros [] |].
    intros a Hin [<- | []]. apply in_map_iff in Hin as (x & Hx & Hin).
    specialize (Hpk x Hin). rewrite Hx, Z.eqb_refl in Hpk. discriminate.
  - intros i j Hi Hj Hpi Hpj Ho He.
    apply in_app_or in Hi as [Hi | [<- | []]]; apply in_app_or in Hj as [Hj | [<- | []]].
    + now apply Huniq.
    + exfalso. eapply (Hclash i); eauto.
    + exfalso. eapply (Hclash j); eauto.
    + reflexivity.
Qed.

Lemma one_pending_update id set db u db' :
  one_pending_per_pair db ->
  update_invite id set db = (inr u, db') -> one_pending_per_pair db'.
Proof.
  intros [Hnd Huniq] H. unfold update_invite in H. inv_run H.
  assert (Hstate : forall (x : invite) d (w : unit) d',
            check_invite db (fun k => k =? id) (set x) d = (inr w, d') -> d' = d)
    by (intros ? ? ? ?; apply check_invite_state).
  match goal with
  | Hf : for_each _ _ _ = _ |- _ =>
      pose proof (for_each_checks_state _ _ _ _ _ Hstate Hf) as ->;
      pose proof (for_each_inr_forall _ _ _ _ _ Hstate Hf) as Hchecks
  end.
  assert (Htarget : forall x, In x (invites db) -> i_id x = id ->
            (forall y, In y (invites db) -> i_id y <> id -> i_id y <> i_id (set x))
            /\ (in_pending_index (set x) = true ->
                forall y, In y (invites db) -> i_id y <> id -> in_pending_index y = true ->
                          i_organization_id y = i_organization_id (set x) ->
                          i_email y = i_email (set x) -> False)).
  { intros x Hx Hxid.
    destruct (Hchecks x) as (w & Hc).
    { apply filter_In. split; [exact Hx | now apply Z.eqb_eq]. }
    apply check_invite_inr in Hc as [Hpk Hidx]. split.
    - intros y Hy Hyid Heq. rewrite existsb_false_forall in Hpk.
      specialize (Hpk y Hy). simpl in Hpk.
      apply Z.eqb_neq in Hyid. rewrite Hyid, Heq, Z.eqb_refl in Hpk. discriminate.
    - intros Hp y Hy Hyid Hpy Ho He. specialize (Hidx Hp).
      rewrite existsb_false_forall in Hidx. specialize (Hidx y Hy). simpl in Hidx.
      apply Z.eqb_neq in Hyid.
      rewrite Hyid, Hpy, Ho, He, Z.eqb_refl, String.eqb_refl in Hidx. discriminate. }
  split; simpl.
  - apply NoDup_map_replace; [exact Hnd |].
    intros x y Hx Hxid Hy Hyid. now apply (proj1 (Htarget x Hx Hxid)).
  - intros i' j' Hi Hj Hpi Hpj Ho He.
    apply in_map_iff in Hi as (i & <- & Hi). apply in_map_iff in Hj as (j & <- & Hj).
    destruct (Z.eqb_spec (i_id i) id) as [Ei | Ei], (Z.eqb_spec (i_id j) id) as [Ej | Ej].
    + assert (i = j)
        by (apply (NoDup_map_inj i_id (invites db));
            [exact Hnd | exact Hi | exact Hj | congruence]).
      congruence.
    + exfalso. symmetry in Ho, He.
      exact (proj2 (Htarget i Hi Ei) Hpi j Hj Ej Hpj Ho He).
    + exfalso. exact (proj2 (Htarget j Hj Ej) Hpj i Hi Ei Hpi Ho He).
    + now apply Huniq.
Qed.

Lemma one_pending_delete id db u db' :
  one_pending_per_pair db ->
  delete_invite id db = (inr u, db') -> one_pending_per_pair db'.
Proof.
  intros [Hnd Huniq] H. unfold delete_invite, modify in H. inversion H; subst.
  split; simpl.
  - now apply NoDup_map_filter.
  - intros i j Hi Hj. apply filter_In in Hi as [Hi _]. apply filter_In in Hj as [Hj _].
    now apply Huniq.
Qed.

Lemma one_pending_invites db db' :
  invites db' = invites db -> one_pending_per_pair db -> one_pending_per_pair db'.
Proof. unfold one_pending_per_pair. now intros ->. Qed.

Lemma one_pending_accept ss t db m db' :
  one_pending_per_pair db ->
  accept_invite ss t db = (inr m, db') -> one_pending_per_pair db'.
Proof.
  intros [Hnd Huniq] H.
  apply accept_invite_inr in H as (v & u & _ & _ & _ & _ & _ & _ & _ & _ & _ & Hinv).
  unfold one_pending_per_pair. rewrite Hinv.
  set (f := fun i => if i_id i =? i_id v then set_accepted_at (Some (now ss)) i else i).
  assert (Hid : forall i, i_id (f i) = i_id i)
    by (intros i; unfold f; now destruct (i_id i =? i_id v)).
  assert (Hkeep : forall i, in_pending_index (f i) = true -> f i = i).
  { intros i. unfold f. destruct (i_id i =? i_id v); [| reflexivity].
    unfold in_pending_index. simpl. discriminate. }
  split.
  - rewrite map_map. erewrite map_ext; [exact Hnd | exact Hid].
  - intros i' j' Hi Hj Hpi Hpj Ho He.
    apply in_map_iff in Hi as (i & <- & Hi). apply in_map_iff in Hj as (j & <- & Hj).
    pose proof (Hkeep i Hpi) as Ki. pose proof (Hkeep j Hpj) as Kj.
    rewrite Ki in Hpi, Ho, He |- *. rewrite Kj in Hpj, Ho, He |- *.
    apply Huniq; assumption.
Qed.

Lemma one_pending_step ss w db :
  one_pending_per_pair db -> one_pending_per_pair (invite_step ss w db).
Proof.
  intros Hinv. destruct w as [NEW | id set | id | r]; simpl.
  - unfold transaction.
    destruct (direct_insert_invite ss NEW db) as [[e | u] db'] eqn:E; simpl; [exact Hinv |].
    unfold direct_insert_invite in E. inv_run E. eapply one_pending_insert; eauto.
  - unfold transaction.
    destruct (direct_update_invite ss id set db) as [[e | u] db'] eqn:E; simpl;
      [exact Hinv |].
    unfold direct_update_invite in E. unfold bind at 1, get at 1 in E.
    destruct (forallb _ _); [| inversion E; subst; exact Hinv].
    inv_run E.
    match goal with
    | Hf : for_each _ _ _ = _ |- _ =>
        apply for_each_checks_state in Hf as ->;
        [| intros ? ? ? ? Hr; now apply require_inr in Hr]
    end.
    eapply one_pending_update; eauto.
  - unfold transaction.
    destruct (direct_delete_invite ss id db) as [[e | u] db'] eqn:E; simpl; [exact Hinv |].
    unfold direct_delete_invite in E. unfold bind at 1, get at 1 in E.
    destruct (forallb _ _); [| inversion E; subst; exact Hinv].
    eapply one_pending_delete; eauto.
  - destruct r; simpl.
    + eapply one_pending_invites; [| exact Hinv].
      apply (preserves_transaction invites), create_organization_invites.
    + unfold transaction.
      destruct (accept_invite ss p_token db) as [[e | m] db'] eqn:E; simpl; [exact Hinv |].
      eapply one_pending_accept; eauto.
    + eapply one_pending_invites; [| exact Hinv].
      apply (preserves_transaction invites), mark_card_sold_invites.
    + eapply one_pending_invites; [| exact Hinv].
      apply (preserves_transaction invites), soft_delete_organization_invites.
    + eapply one_pending_invites; [| exact Hinv].
      apply (preserves_transaction invites), leave_organization_invites.
Qed.

Lemma one_pending_steps ws db :
  one_pending_per_pair db -> one_pending_per_pair (invite_steps ws db).
Proof.
  revert db. induction ws as [| [ss w] ws IH]; simpl; intros db H; [exact H |].
  apply IH. now apply one_pending_step.
Qed.

Lemma check_invite_frame db skip NEW : preserves (fun d => d) (check_invite db skip NEW).
Proof. unfold check_invite. frame. Qed.

(** Creating an invite for a pair that has an unaccepted, unrevoked one
    fails, whatever the expiry of the one in place. *)
Lemma create_blocked ss NEW old db :
  In old (invites db) -> in_pending_index old = true ->
  in_pending_index NEW = true ->
  i_organization_id old = i_organization_id NEW -> i_email old = i_email NEW ->
  exists e, direct_insert_invite ss NEW db = (inl e, db).
Proof.
  intros Hin Hold Hnew Ho He.
  unfold direct_insert_invite, bind at 1, get at 1.
  destruct (admits_new INSERT_cmd ss db (InvitesRow NEW));
    [| exists (row_security_violation "invites"); reflexivity].
  unfold bind at 1, require at 1, ret at 1.
  unfold insert_invite, bind at 1, get at 1.
  destruct (check_invite db (fun _ => false) NEW db) as [[e | u] d'] eqn:E.
  - pose proof (check_invite_frame _ _ _ _ _ _ E) as Hd. simpl in Hd. subst d'.
    exists e. unfold bind. now rewrite E.
  - exfalso. apply check_invite_inr in E as [_ Hidx]. specialize (Hidx Hnew).
    rewrite existsb_false_forall in Hidx. specialize (Hidx old Hin). simpl in Hidx.
    rewrite Hold, Ho, He, Z.eqb_refl, String.eqb_refl in Hidx. discriminate.
Qed.

(** C9 (amended). In every state reached by invite statements under
    "Admins manage" and by procedure calls, at most one unaccepted,
    unrevoked invite exists per organization and email, hence at most one
    pending invite; creating a new unaccepted, unrevoked invite for a pair
    that has one fails and changes nothing, also when the one in place has
    expired: an expired invite keeps its place in the index until it is
    revoked, accepted or deleted. *)
Theorem one_pending_invite_per_pair (ws : list (session * invite_write)) (db : DB) :
  one_pending_per_pair db ->
  one_pending_per_pair (invite_steps ws db)
  /\ (forall ss i j,
        In i (invites (invite_steps ws db)) -> In j (invites (invite_steps ws db)) ->
        pending ss i -> pending ss j ->
        i_organization_id i = i_organization_id j -> i_email i = i_email j -> i = j)
  /\ (forall ss NEW old,
        In old (invites (invite_steps ws db)) ->
        in_pending_index old = true -> in_pending_index NEW = true ->
        i_organization_id old = i_organization_id NEW -> i_email old = i_email NEW ->
        exists e,
          direct_insert_invite ss NEW (invite_steps ws db) = (inl e, invite_steps ws db)).
Proof.
  intros Hinv. pose proof (one_pending_steps ws db Hinv) as Hsteps.
  split; [exact Hsteps | split].
  - intros ss i j Hi Hj [Hpi _] [Hpj _]. now apply (proj2 Hsteps).
  - intros ss NEW old. apply create_blocked.
Qed.

Lemma test_db_one_pending : one_pending_per_pair test_db.
Proof.
  split.
  - simpl. constructor; [intros [] | constructor].
  - intros i j [<- | []] [<- | []] _ _ _ _. reflexivity.
Qed.

Lemma one_pending_invite_per_pair_witness :
  let db' := invite_steps [(as_outsider, Procedure (Accept_invite "token-1"));
                           (as_owner, Create second_invite)] test_db in
  one_pending_per_pair db' /\ List.length (invites db') = 2%nat
  /\ exists e,
       direct_insert_invite as_owner
         (mk_invite 32 10 "Outsider@Test.com" admin "token-3" (Some 1) (Some 5) (Some 900)
                    None None) db'
       = (inl e, db').
Proof.
  intros db'.
  pose proof (one_pending_invite_per_pair
                [(as_outsider, Procedure (Accept_invite "token-1"));
                 (as_owner, Create second_invite)] test_db test_db_one_pending)
    as (Hone & _ & Hblocked).
  split; [exact Hone | split; [reflexivity |]].
  apply (Hblocked as_owner _ second_invite); try reflexivity.
  simpl. auto.
Defined.

(** C9 (as stated) fails on its last part: once [test_invite] has expired
    it is no longer pending, yet the owner's new invite for the same
    organization and email is refused by the partial unique index. *)
Lemma expired_invite_blocks_new_invite :
  expired as_owner_later test_invite
  /\ ~ pending as_owner_later test_invite
  /\ admits_new INSERT_cmd as_owner_later test_db (InvitesRow second_invite) = true
  /\ transaction (direct_insert_invite as_owner_later second_invite) test_db
     = (inl (unique_violation "idx_invites_org_email_pending"), test_db).
Proof.
  assert (Hexp : expired as_owner_later test_invite).
  { exists 700. split; reflexivity. }
  split; [exact Hexp | split; [| split; reflexivity]].
  intros [_ Hnot]. exact (Hnot Hexp).
Qed.

(** Revoking the expired invite first frees the pair. *)
Example revoked_invite_can_be_replaced :
  let db1 := invite_step as_owner_later (Change 30 (set_revoked_at (Some 800))) test_db in
  exists db2,
    transaction (direct_insert_invite as_owner_later second_invite) db1 = (inr tt, db2)
    /\ In second_invite (invites db2).
Proof. eexists. split; [reflexivity | simpl; auto]. Qed.

(** ** Checks of the text functions on concrete values *)

Example slug_format_accepts :
  slug_format "moody-cards" = true /\ slug_format "a1" = true
  /\ slug_format "abcdefghijklmnopqrstuvwxyz012345" = true.
Proof. repeat split. Qed.

Example slug_format_rejects :
  slug_format "" = false /\ slug_format "a" = false /\ slug_format "-ab" = false
  /\ slug_format "ab-" = false /\ slug_format "Moody" = false
  /\ slug_format "moody cards" = false
  /\ slug_format "abcdefghijklmnopqrstuvwxyz0123456" = false.
Proof. repeat split. Qed.

Example lower_folds_case :
  lower "Outsider@Test.com" = "outsider@test.com" /\ lower "a-z_09" = "a-z_09".
Proof. split; reflexivity. Qed.

Example name_valid_trims :
  name_valid "  Test Store " = true /\ name_valid "   " = false /\ name_valid "" = false.
Proof. repeat split. Qed.

(** * Further properties of the procedures and the policies *)

(** ** Facts of the test database *)

Lemma test_db_owned : every_organization_owned test_db.
Proof. intros o [<- | []]. apply Nat.le_refl. Qed.

Lemma outsider_not_member : forall m, ~ caller_membership as_outsider test_db 10 m.
Proof.
  intros m (Hin & Hu & _). simpl in Hin, Hu.
  destruct Hin as [<- | [<- | []]]; discriminate Hu.
Qed.

(** ** Consistency is kept by the procedures *)

Lemma distinct_NoDup l : distinct l = true <-> NoDup l.
Proof.
  induction l as [| x l IH]; simpl.
  - split; [constructor | reflexivity].
  - rewrite andb_true_iff, negb_true_iff, IH, existsb_false_forall. split.
    + intros [Hx Hl]. constructor; [| exact Hl].
      intros Hin. specialize (Hx x Hin). rewrite Z.eqb_refl in Hx. discriminate.
    + intros H. inversion H; subst. split; [| assumption].
      intros y Hy. apply Z.eqb_neq. intros ->. contradiction.
Qed.

Lemma distinct_pairs_NoDup l : distinct_pairs l = true <-> NoDup l.
Proof.
  induction l as [| [x y] l IH]; simpl.
  - split; [constructor | reflexivity].
  - rewrite andb_true_iff, negb_true_iff, IH, existsb_false_forall. split.
    + intros [Hx Hl]. constructor; [| exact Hl].
      intros Hin. specialize (Hx _ Hin). simpl in Hx.
      rewrite !Z.eqb_refl in Hx. discriminate.
    + intros H. inversion H; subst. split; [| assumption].
      intros [a b] Hp. simpl. apply andb_false_iff.
      destruct (Z.eqb_spec a x) as [-> |]; [| auto]. right.
      apply Z.eqb_neq. intros ->. contradiction.
Qed.

Lemma NoDup_snoc {A} (l : list A) x : NoDup l -> ~ In x l -> NoDup (l ++ [x]).
Proof.
  induction 1 as [| y l Hy Hl IH]; simpl; intros Hx.
  - constructor; [intros [] | constructor].
  - constructor.
    + rewrite in_app_iff. intros [H | [H | []]]; [contradiction |].
      subst. apply Hx. left. reflexivity.
    + apply IH. intros H. apply Hx. right. exact H.
Qed.

Lemma NoDup_map_snoc {A B} (key : A -> B) l x :
  NoDup (map key l) -> (forall y, In y l -> key y <> key x) ->
  NoDup (map key (l ++ [x])).
Proof.
  intros Hl Hx. rewrite map_app. simpl. apply NoDup_snoc; [exact Hl |].
  intros Hin. apply in_map_iff in Hin as (y & Hy & Hin). exact (Hx y Hin Hy).
Qed.

Lemma NoDup_map_filter_any {A B} (key : A -> B) (f : A -> bool) l :
  NoDup (map key l) -> NoDup (map key (filter f l)).
Proof.
  induction l as [| x l IH]; simpl; intros H; [constructor |].
  inversion H; subst. destruct (f x); simpl; [| auto].
  constructor; [| auto].
  intros Hin. apply in_map_iff in Hin as (y & Hy & Hin).
  apply filter_In in Hin as [Hin _]. match goal with Hn : ~ In _ _ |- _ => apply Hn end.
  rewrite <- Hy. apply in_map. exact Hin.
Qed.

Lemma map_key_replace {A} (key : A -> Z) id (NEW : A) l :
  key NEW = id ->
  map key (map (fun x => if key x =? id then NEW else x) l) = map key l.
Proof.
  intros HN. induction l as [| a l IH]; simpl; [reflexivity |].
  rewrite IH. f_equal. destruct (Z.eqb_spec (key a) id); congruence.
Qed.

(** The parts of [consistent], as propositions. *)
Lemma consistent_iff db :
  consistent db = true <->
  (NoDup (map m_id (memberships db))
   /\ NoDup (map (fun m => (m_user_id m, m_organization_id m)) (memberships db))
   /\ NoDup (map inv_id (inventory db))
   /\ NoDup (map org_id (organizations db)))
  /\ ((forall m, In m (memberships db) ->
         user_exists db (m_user_id m) = true /\ org_exists db (m_organization_id m) = true)
      /\ (forall r, In r (inventory db) ->
            org_exists db (inv_organization_id r) = true
            /\ fk_user db (inv_created_by r) = true)
      /\ (forall t, In t (transactions db) -> item_exists db (t_inventory_id t) = true))
  /\ ((forall a, In a (audit_log db) -> a_id a < next_uuid db)
      /\ (forall t, In t (transactions db) -> t_id t < next_uuid db)
      /\ (forall m, In m (memberships db) -> m_id m < next_uuid db)
      /\ (forall o, In o (organizations db) -> org_id o < next_uuid db)).
Proof.
  unfold consistent, keys_ok, foreign_keys_ok, uuids_fresh.
  rewrite !andb_true_iff, !distinct_NoDup, distinct_pairs_NoDup, !forallb_forall.
  split.
  - intros (((((K1 & K2) & K3) & K4) & ((F1 & F2) & F3)) & (((U1 & U2) & U3) & U4)).
    split; [tauto |]. split; [| split; [| split; [| split]]].
    + split; [| split].
      * intros x Hx. apply F1 in Hx. apply andb_true_iff in Hx. exact Hx.
      * intros x Hx. apply F2 in Hx. apply andb_true_iff in Hx. exact Hx.
      * exact F3.
    + intros x Hx. apply Z.ltb_lt. auto.
    + intros x Hx. apply Z.ltb_lt. auto.
    + intros x Hx. apply Z.ltb_lt. auto.
    + intros x Hx. apply Z.ltb_lt. auto.
  - intros ((K1 & K2 & K3 & K4) & (F1 & F2 & F3) & (U1 & U2 & U3 & U4)).
    split; [split; [tauto |] |].
    + split; [split |].
      * intros x Hx. apply andb_true_iff. auto.
      * intros x Hx. apply andb_true_iff. auto.
      * exact F3.
    + split; [split; [split |] |]; intros x Hx; apply Z.ltb_lt; auto.
Qed.

Lemma org_exists_iff db o :
  org_exists db o = true <-> exists r, In r (organizations db) /\ org_id r = o.
Proof.
  unfold org_exists. rewrite existsb_exists. split; intros (r & Hr & E); exists r;
    (split; [exact Hr |]); [apply Z.eqb_eq | apply Z.eqb_eq]; exact E.
Qed.

Lemma existsb_key_replace {A} (key : A -> Z) id (NEW : A) k l :
  key NEW = id ->
  existsb (fun r => key r =? k) (map (fun r => if key r =? id then NEW else r) l)
  = existsb (fun r => key r =? k) l.
Proof.
  intros HN. induction l as [| a l IH]; simpl; [reflexivity |].
  rewrite IH. f_equal. destruct (Z.eqb_spec (key a) id); congruence.
Qed.

Lemma in_replace_key {A} (key : A -> Z) id (NEW : A) l y :
  key NEW = id ->
  In y (map (fun r => if key r =? id then NEW else r) l) ->
  (y = NEW \/ In y l) /\ exists r, In r l /\ key y = key r.
Proof.
  intros HN Hy. apply in_map_iff in Hy as (r & <- & Hr).
  destruct (Z.eqb_spec (key r) id) as [E | E].
  - split; [left; reflexivity | exists r; split; [exact Hr | congruence]].
  - split; [right; exact Hr | exists r; split; [exact Hr | reflexivity]].
Qed.

Ltac consistent_parts_of H :=
  apply consistent_iff in H;
  destruct H as ((?K1 & ?K2 & ?K3 & ?K4) & (?F1 & ?F2 & ?F3) & (?U1 & ?U2 & ?U3 & ?U4));
  apply consistent_iff;
  unfold user_exists, org_exists, item_exists, fk_user in *;
  cbn [users organizations memberships inventory transactions invites audit_log next_uuid
       set_organizations set_memberships set_inventory set_transactions set_invites
       set_audit_log set_next_uuid] in *.

Lemma consistent_bump db :
  consistent db = true -> consistent (set_next_uuid (next_uuid db + 1) db) = true.
Proof.
  intros H. consistent_parts_of H.
  split; [tauto |]. split; [tauto |].
  repeat split; intros x Hx;
    first [ apply U1 in Hx | apply U2 in Hx | apply U3 in Hx | apply U4 in Hx ]; lia.
Qed.

Lemma consistent_audit e db :
  consistent db = true -> a_id e < next_uuid db ->
  consistent (set_audit_log (audit_log db ++ [e]) db) = true.
Proof.
  intros H He. consistent_parts_of H.
  split; [tauto |]. split; [tauto |].
  split; [| tauto].
  intros a Ha. apply in_app_iff in Ha as [Ha | [<- | []]]; auto.
Qed.

Lemma consistent_add_organization o db :
  consistent db = true -> org_id o < next_uuid db ->
  (forall x, In x (organizations db) -> org_id x <> org_id o) ->
  consistent (set_organizations (organizations db ++ [o]) db) = true.
Proof.
  intros H Ho Hnew. consistent_parts_of H.
  split; [| split].
  - repeat split; auto. apply NoDup_map_snoc; assumption.
  - split; [| split; [| exact F3]].
    + intros m Hm. destruct (F1 m Hm) as [Hu Hx]. split; [exact Hu |].
      rewrite existsb_app, Hx. reflexivity.
    + intros r Hr. destruct (F2 r Hr) as [Hx Hu]. split; [| exact Hu].
      rewrite existsb_app, Hx. reflexivity.
  - split; [exact U1 | split; [exact U2 | split; [exact U3 |]]].
    intros x Hx. apply in_app_iff in Hx as [Hx | [<- | []]]; auto.
Qed.

Lemma consistent_add_membership m db :
  consistent db = true -> m_id m < next_uuid db ->
  (forall x, In x (memberships db) -> m_id x <> m_id m) ->
  existsb (fun x => (m_user_id x =? m_user_id m)
                    && (m_organization_id x =? m_organization_id m))
          (memberships db) = false ->
  user_exists db (m_user_id m) = true ->
  org_exists db (m_organization_id m) = true ->
  consistent (set_memberships (memberships db ++ [m]) db) = true.
Proof.
  intros H Hm Hid Hpair Hu Ho. consistent_parts_of H.
  split; [| split].
  - split; [| split; [| split]]; auto.
    + apply NoDup_map_snoc; assumption.
    + apply NoDup_map_snoc; [assumption |].
      intros y Hy E. injection E as E1 E2.
      rewrite existsb_false_forall in Hpair. specialize (Hpair y Hy).
      rewrite E1, E2, !Z.eqb_refl in Hpair. discriminate.
  - split; [| split; [exact F2 | exact F3]].
    intros x Hx. apply in_app_iff in Hx as [Hx | [<- | []]]; auto.
  - split; [exact U1 | split; [exact U2 | split; [| exact U4]]].
    intros x Hx. apply in_app_iff in Hx as [Hx | [<- | []]]; auto.
Qed.

Lemma consistent_replace_organization id NEW db :
  consistent db = true -> org_id NEW = id ->
  consistent
    (set_organizations (map (fun o => if org_id o =? id then NEW else o) (organizations db))
                       db) = true.
Proof.
  intros H HN. consistent_parts_of H.
  split; [| split].
  - repeat split; auto. rewrite map_key_replace by exact HN. exact K4.
  - split; [| split; [| exact F3]].
    + intros m Hm. destruct (F1 m Hm) as [Hu Hx]. split; [exact Hu |].
      rewrite existsb_key_replace by exact HN. exact Hx.
    + intros r Hr. destruct (F2 r Hr) as [Hx Hu]. split; [| exact Hu].
      rewrite existsb_key_replace by exact HN. exact Hx.
  - split; [exact U1 | split; [exact U2 | split; [exact U3 |]]].
    intros x Hx. apply in_replace_key in Hx as [_ (r & Hr & E)]; [| exact HN].
    rewrite E. auto.
Qed.

Lemma consistent_remove_memberships f db :
  consistent db = true ->
  consistent (set_memberships (filter f (memberships db)) db) = true.
Proof.
  intros H. consistent_parts_of H.
  split; [| split].
  - split; [| split; [| split]]; auto; apply NoDup_map_filter_any; assumption.
  - split; [| split; [exact F2 | exact F3]].
    intros x Hx. apply filter_In in Hx as [Hx _]. auto.
  - split; [exact U1 | split; [exact U2 | split; [| exact U4]]].
    intros x Hx. apply filter_In in Hx as [Hx _]. auto.
Qed.

Lemma consistent_put_item id NEW db :
  consistent db = true -> inv_id NEW = id ->
  org_exists db (inv_organization_id NEW) = true ->
  fk_user db (inv_created_by NEW) = true ->
  consistent (set_inventory (put_item id NEW (inventory db)) db) = true.
Proof.
  intros H HN Ho Hu. consistent_parts_of H. unfold put_item.
  split; [| split; [| tauto]].
  - split; [| split; [| split]]; auto. rewrite map_key_replace by exact HN. exact K3.
  - split; [exact F1 | split].
    + intros r Hr. apply in_replace_key in Hr as [[-> | Hr] _]; auto.
    + intros t Ht. rewrite existsb_key_replace by exact HN. auto.
Qed.

Lemma consistent_add_transaction t db :
  consistent db = true -> t_id t < next_uuid db ->
  item_exists db (t_inventory_id t) = true ->
  consistent (set_transactions (transactions db ++ [t]) db) = true.
Proof.
  intros H Ht Hi. consistent_parts_of H.
  split; [tauto | split].
  - split; [exact F1 | split; [exact F2 |]].
    intros x Hx. apply in_app_iff in Hx as [Hx | [<- | []]]; auto.
  - split; [exact U1 | split; [| split; [exact U3 | exact U4]]].
    intros x Hx. apply in_app_iff in Hx as [Hx | [<- | []]]; auto.
Qed.

Lemma consistent_advance n db :
  consistent db = true -> next_uuid db <= n -> consistent (set_next_uuid n db) = true.
Proof.
  intros H Hn. consistent_parts_of H.
  split; [tauto |]. split; [tauto |].
  repeat split; intros x Hx;
    first [ apply U1 in Hx | apply U2 in Hx | apply U3 in Hx | apply U4 in Hx ]; lia.
Qed.

Lemma consistent_fresh_ids db :
  consistent db = true ->
  (forall o, In o (organizations db) -> org_id o < next_uuid db)
  /\ (forall m, In m (memberships db) -> m_id m < next_uuid db).
Proof. intros H. apply consistent_iff in H. tauto. Qed.

(** The foreign keys a stored membership was checked against. *)
Lemma insert_membership_fk ss user_id org role invited_by invited_at accepted_at db m db' :
  insert_membership ss user_id org role invited_by invited_at accepted_at db = (inr m, db') ->
  user_exists db (m_user_id m) = true /\ org_exists db org = true.
Proof.
  unfold insert_membership. intros H.
  unfold bind at 1, gen_random_uuid at 1 in H.
  destruct user_id as [u |]; [| discriminate H].
  inv_run H.
  apply check_membership_inr in Hstep as (-> & Hu & Ho & _).
  split; [exact Hu | exact Ho].
Qed.

Lemma insert_organization_consistent ss name slug db v db' :
  consistent db = true ->
  insert_organization ss name slug db = (inr v, db') -> consistent db' = true.
Proof.
  intros Hc H. apply insert_organization_inr in H as (Hv & -> & _).
  destruct (consistent_fresh_ids db Hc) as [Ho _].
  pose (d1 := set_next_uuid (next_uuid db + 1 + 1) db).
  pose (d2 := set_organizations (organizations db ++ [v]) d1).
  assert (H1 : consistent d1 = true) by (apply consistent_advance; [exact Hc | lia]).
  assert (H2 : consistent d2 = true).
  { apply (consistent_add_organization v d1); [exact H1 | subst v; simpl; lia |].
    intros x Hx E. apply Ho in Hx. subst v. simpl in E. lia. }
  refine (consistent_audit _ d2 H2 _). simpl. lia.
Qed.

Lemma insert_membership_consistent ss user_id org role invited_by invited_at accepted_at
    db m db' :
  consistent db = true ->
  insert_membership ss user_id org role invited_by invited_at accepted_at db = (inr m, db') ->
  consistent db' = true.
Proof.
  intros Hc H. pose proof (insert_membership_fk _ _ _ _ _ _ _ _ _ _ H) as [Hu Hx].
  apply insert_membership_inr in H as (u & -> & Hm & -> & Hpair).
  destruct (consistent_fresh_ids db Hc) as [_ Hf].
  pose (d1 := set_next_uuid (next_uuid db + 1 + 1) db).
  pose (d2 := set_memberships (memberships db ++ [m]) d1).
  assert (H1 : consistent d1 = true) by (apply consistent_advance; [exact Hc | lia]).
  assert (H2 : consistent d2 = true).
  { apply (consistent_add_membership m d1); try exact H1; try exact Hu.
    - subst m. simpl. lia.
    - intros x Hx' E. apply Hf in Hx'. subst m. simpl in E. lia.
    - subst m. exact Hpair.
    - subst m. exact Hx. }
  refine (consistent_audit _ d2 H2 _). simpl. lia.
Qed.

Lemma create_organization_consistent ss n s db v db' :
  consistent db = true ->
  create_organization ss n s db = (inr v, db') -> consistent db' = true.
Proof.
  unfold create_organization. intros Hc H.
  destruct (negb (slug_format s)); [discriminate H |].
  inv_run H.
  eapply insert_membership_consistent; [| eassumption].
  eapply insert_organization_consistent; eassumption.
Qed.

Lemma accept_invite_consistent ss t db m db' :
  consistent db = true ->
  accept_invite ss t db = (inr m, db') -> consistent db' = true.
Proof.
  unfold accept_invite. intros Hc H.
  unfold bind at 1, get at 1 in H.
  destruct (find _ (invites db)) as [v |]; [| discriminate H].
  destruct (is_not_null (i_revoked_at v)); [discriminate H |].
  destruct (is_not_null (i_accepted_at v)); [discriminate H |].
  destruct (is_true (sql_lt_ts (i_expires_at v) (now ss))); [discriminate H |].
  destruct (existsb _ (organizations db)); [discriminate H |].
  destruct (is_true (sql_neq_text _ _)); [discriminate H |].
  inv_run H.
  match goal with
  | Hi : update_invite _ _ _ = _ |- _ => apply update_invite_inr in Hi; subst
  end.
  change (consistent (set_invites ?l ?d)) with (consistent d).
  eapply insert_membership_consistent; eassumption.
Qed.

Lemma mark_card_sold_consistent ss id price email notes db t db' :
  consistent db = true ->
  mark_card_sold ss id price email notes db = (inr t, db') -> consistent db' = true.
Proof.
  intros Hc H. apply mark_card_sold_inr in H as (item & OLD & _ & _ & Hold & -> & ->).
  apply find_some in Hold as [Hin Hid]. apply Z.eqb_eq in Hid.
  pose proof (proj1 (consistent_iff db) Hc) as (_ & (_ & F2 & _) & _).
  destruct (F2 OLD Hin) as [Ho Hu].
  pose (d1 := set_next_uuid (next_uuid db + 1 + 1) db).
  pose (d2 := set_inventory (put_item id (sold_item ss OLD) (inventory db)) d1).
  pose (d3 := set_transactions
                (transactions db ++
                 [mk_transaction (next_uuid db + 1) (inv_organization_id item) id price
                                 (Some (now ss)) (auth_uid ss) email notes (Some (now ss))])
                d2).
  assert (H1 : consistent d1 = true) by (apply consistent_advance; [exact Hc | lia]).
  assert (H2 : consistent d2 = true).
  { apply (consistent_put_item id (sold_item ss OLD) d1); [exact H1 | exact Hid | exact Ho | exact Hu]. }
  assert (H3 : consistent d3 = true).
  { apply (consistent_add_transaction _ d2); [exact H2 | simpl; lia |].
    change (existsb (fun r => inv_id r =? id)
                    (map (fun r => if inv_id r =? id then sold_item ss OLD else r)
                         (inventory db)) = true).
    rewrite (existsb_key_replace inv_id id (sold_item ss OLD) id) by exact Hid.
    apply existsb_exists. exists OLD. split; [exact Hin | apply Z.eqb_eq; exact Hid]. }
  refine (consistent_audit _ d3 H3 _). simpl. lia.
Qed.

Lemma update_organization_consistent ss id set db r db' :
  consistent db = true -> (forall o, org_id (set o) = org_id o) ->
  update_organization ss id set db = (inr r, db') -> consistent db' = true.
Proof.
  intros Hc Hset H. apply update_organization_inr in H as [[_ ->] | (OLD & Hold & ->)];
    [exact Hc |].
  apply find_some in Hold as [Hin Hid]. apply Z.eqb_eq in Hid.
  pose (d1 := set_next_uuid (next_uuid db + 1) db).
  pose (d2 := set_organizations
                (map (fun o => if org_id o =? id then update_updated_at_org ss (set OLD) else o)
                     (organizations db)) d1).
  assert (H1 : consistent d1 = true) by (apply consistent_advance; [exact Hc | lia]).
  assert (H2 : consistent d2 = true).
  { apply (consistent_replace_organization id _ d1); [exact H1 |]. simpl. rewrite Hset. exact Hid. }
  refine (consistent_audit _ d2 H2 _). simpl. lia.
Qed.

Lemma soft_delete_organization_consistent ss p db r db' :
  consistent db = true ->
  soft_delete_organization ss p db = (inr r, db') -> consistent db' = true.
Proof.
  unfold soft_delete_organization. intros Hc H.
  unfold bind at 1, get at 1 in H.
  destruct (negb _); [discriminate H |].
  inv_run H.
  eapply update_organization_consistent; [exact Hc | | eassumption].
  intros o. reflexivity.
Qed.

Lemma delete_membership_consistent ss id db u db' :
  consistent db = true ->
  delete_membership ss id db = (inr u, db') -> consistent db' = true.
Proof.
  intros Hc H. apply delete_membership_inr in H as [[_ ->] | (OLD & _ & ->)]; [exact Hc |].
  pose (d1 := set_next_uuid (next_uuid db + 1) db).
  pose (d2 := set_memberships (filter (fun x => negb (m_id x =? id)) (memberships db)) d1).
  assert (H1 : consistent d1 = true) by (apply consistent_advance; [exact Hc | lia]).
  assert (H2 : consistent d2 = true) by (apply (consistent_remove_memberships _ d1); exact H1).
  refine (consistent_audit _ d2 H2 _). simpl. lia.
Qed.

Lemma leave_organization_consistent ss p db u db' :
  consistent db = true ->
  leave_organization ss p db = (inr u, db') -> consistent db' = true.
Proof.
  intros Hc H. apply leave_organization_inr in H as (m & _ & _ & H).
  eapply delete_membership_consistent; eassumption.
Qed.

Lemma call_consistent ss r db :
  consistent db = true -> consistent (call ss r db) = true.
Proof.
  intros Hc. destruct r; simpl; unfold transaction;
    match goal with
    | |- context [match ?c db with _ => _ end] => destruct (c db) as [[e | a] d] eqn:E
    end; simpl; try exact Hc.
  - eapply create_organization_consistent; eassumption.
  - eapply accept_invite_consistent; eassumption.
  - eapply mark_card_sold_consistent; eassumption.
  - eapply soft_delete_organization_consistent; eassumption.
  - eapply leave_organization_consistent; eassumption.
Qed.

Lemma run_consistent calls db :
  consistent db = true -> consistent (run calls db) = true.
Proof.
  revert db. induction calls as [| [ss r] rest IH]; simpl; intros db Hc; [exact Hc |].
  apply IH. apply call_consistent. exact Hc.
Qed.

(** ** Tables a procedure leaves alone *)

Ltac frame_proc :=
  frame; try (apply insert_audit_log_frame; intros; reflexivity).

Lemma create_organization_frame ss n s :
  preserves (fun d => (users d, inventory d, transactions d, invites d))
            (create_organization ss n s).
Proof.
  unfold create_organization, insert_organization, insert_membership,
    check_organization, check_membership, audit_trigger_organizations, audit_trigger.
  destruct (negb (slug_format s)); frame_proc.
Qed.

Lemma accept_invite_frame ss t :
  preserves (fun d => (users d, organizations d, inventory d, transactions d))
            (accept_invite ss t).
Proof.
  unfold accept_invite, insert_membership, update_invite, check_membership, check_invite,
    audit_trigger.
  frame_proc.
Qed.

Lemma mark_card_sold_frame ss i p e n :
  preserves (fun d => (users d, organizations d, memberships d, invites d))
            (mark_card_sold ss i p e n).
Proof.
  unfold mark_card_sold, update_inventory, insert_transaction, check_inventory,
    audit_trigger.
  frame_proc.
Qed.

Lemma soft_delete_organization_frame ss o :
  preserves (fun d => (users d, memberships d, inventory d, transactions d, invites d))
            (soft_delete_organization ss o).
Proof.
  unfold soft_delete_organization, update_organization, check_organization,
    audit_trigger_organizations.
  frame_proc.
Qed.

Lemma leave_organization_frame ss o :
  preserves (fun d => (users d, organizations d, inventory d, transactions d, invites d))
            (leave_organization ss o).
Proof.
  unfold leave_organization, delete_membership, audit_trigger.
  frame_proc.
Qed.

(** X1. Whatever its outcome, a call to a procedure leaves [auth.users] as
    it was, and each procedure leaves alone the tables its body does not
    name: [create_organization] the inventory, the transactions and the
    invites; [accept_invite] the organizations, the inventory and the
    transactions; [mark_card_sold] the organizations, the memberships and
    the invites; [soft_delete_organization] the memberships, the inventory,
    the transactions and the invites (nothing cascades from a soft delete);
    [leave_organization] the organizations, the inventory, the transactions
    and the invites. *)
Theorem procedures_leave_other_tables (ss : session) (r : rpc) (db : DB) :
  let db' := call ss r db in
  users db' = users db
  /\ match r with
     | Create_organization _ _ =>
         inventory db' = inventory db /\ transactions db' = transactions db
         /\ invites db' = invites db
     | Accept_invite _ =>
         organizations db' = organizations db /\ inventory db' = inventory db
         /\ transactions db' = transactions db
     | Mark_card_sold _ _ _ _ =>
         organizations db' = organizations db /\ memberships db' = memberships db
         /\ invites db' = invites db
     | Soft_delete_organization _ =>
         memberships db' = memberships db /\ inventory db' = inventory db
         /\ transactions db' = transactions db /\ invites db' = invites db
     | Leave_organization _ =>
         organizations db' = organizations db /\ inventory db' = inventory db
         /\ transactions db' = transactions db /\ invites db' = invites db
     end.
Proof.
  destruct r as [n s | t | i p e n | o | o]; simpl.
  - pose proof (preserves_transaction _ _ db (create_organization_frame ss n s)) as Hf.
    injection Hf as H1 H2 H3 H4. auto.
  - pose proof (preserves_transaction _ _ db (accept_invite_frame ss t)) as Hf.
    injection Hf as H1 H2 H3 H4. auto.
  - pose proof (preserves_transaction _ _ db (mark_card_sold_frame ss i p e n)) as Hf.
    injection Hf as H1 H2 H3 H4. auto.
  - pose proof (preserves_transaction _ _ db (soft_delete_organization_frame ss o)) as Hf.
    injection Hf as H1 H2 H3 H4 H5. auto.
  - pose proof (preserves_transaction _ _ db (leave_organization_frame ss o)) as Hf.
    injection Hf as H1 H2 H3 H4 H5. auto.
Qed.

(** ** The constraints of [organizations] are kept by the procedures *)

Lemma organizations_ok_iff db :
  organizations_ok db = true <->
  forall o, In o (organizations db) ->
    (name_valid (org_name o) = true /\ slug_format (org_slug o) = true
     /\ slug_not_reserved (org_slug o) = true)
    /\ forall x, In x (organizations db) -> org_id x <> org_id o ->
                 org_slug x <> org_slug o.
Proof.
  unfold organizations_ok. rewrite forallb_forall. split.
  - intros H o Ho. specialize (H o Ho).
    apply andb_prop in H as [H H4]. apply andb_prop in H as [H H3].
    apply andb_prop in H as [H1 H2]. apply negb_true_iff in H4.
    split; [auto |]. intros x Hx Hne.
    rewrite existsb_false_forall in H4. specialize (H4 x Hx).
    destruct (Z.eqb_spec (org_id x) (org_id o)); [contradiction |].
    simpl in H4. apply String.eqb_neq. exact H4.
  - intros H o Ho. destruct (H o Ho) as [(H1 & H2 & H3) H4].
    rewrite H1, H2, H3. simpl. apply negb_true_iff. apply existsb_false_forall.
    intros x Hx. destruct (Z.eqb_spec (org_id x) (org_id o)); [reflexivity |].
    simpl. apply String.eqb_neq. auto.
Qed.

Lemma organizations_ok_twins db db' :
  (forall y, In y (organizations db') ->
     exists y', In y' (organizations db) /\ org_id y = org_id y'
                /\ org_name y = org_name y' /\ org_slug y = org_slug y') ->
  organizations_ok db = true -> organizations_ok db' = true.
Proof.
  intros Htw Hok. rewrite organizations_ok_iff in *. intros o Ho.
  destruct (Htw o Ho) as (o' & Ho' & Ei & En & Es).
  destruct (Hok o' Ho') as [Hc Hu]. rewrite En, Es. split; [exact Hc |].
  intros x Hx Hne. destruct (Htw x Hx) as (x' & Hx' & Ei' & _ & Es').
  rewrite Es'. apply Hu; [exact Hx' | congruence].
Qed.

Lemma insert_organization_slug_free ss name slug db v db' :
  insert_organization ss name slug db = (inr v, db') ->
  slug_format slug = true /\ forall o, In o (organizations db) -> org_slug o <> slug.
Proof.
  unfold insert_organization. intros H.
  unfold bind at 1, gen_random_uuid at 1 in H. inv_run H.
  unfold check_organization in Hstep. inv_run Hstep.
  repeat match goal with
         | Hn : negb _ = true |- _ => apply negb_true_iff in Hn
         end.
  split; [assumption |].
  intros o Ho.
  match goal with
  | Hs : existsb (fun o => _ && String.eqb _ _) _ = false |- _ =>
      rewrite existsb_false_forall in Hs; specialize (Hs o Ho); simpl in Hs
  end.
  apply String.eqb_neq. assumption.
Qed.

Lemma call_keeps_organizations_ok ss r db :
  organizations_ok db = true -> organizations_ok (call ss r db) = true.
Proof.
  intros Hok. destruct r as [n s | t | i pr e n | o | o]; simpl.
  - unfold transaction.
    destruct (create_organization ss n s db) as [[e | v] db'] eqn:E; simpl; [exact Hok |].
    unfold create_organization in E.
    destruct (negb (slug_format s)); [discriminate E |].
    inv_run E.
    match goal with
    | Hi : insert_organization _ _ _ _ = _ |- _ =>
        pose proof (insert_organization_slug_free _ _ _ _ _ _ Hi) as [Hfmt Hfree];
        apply insert_organization_inr in Hi as (Hv & Hdb1 & Hname & Hres)
    end.
    match goal with
    | Hi : insert_membership _ _ _ _ _ _ _ _ = _ |- _ =>
        apply insert_membership_inr in Hi as (u & Hu & Hm & Hdb2 & _)
    end.
    subst. rewrite organizations_ok_iff in *. cbn [organizations].
    intros o Ho. apply in_app_iff in Ho as [Ho | [<- | []]].
    + destruct (Hok o Ho) as [Hc Hu']. split; [exact Hc |].
      intros x Hx Hne. apply in_app_iff in Hx as [Hx | [<- | []]]; [auto |].
      simpl. intros E. symmetry in E. exact (Hfree o Ho E).
    + simpl. split; [auto |].
      intros x Hx Hne. apply in_app_iff in Hx as [Hx | [<- | []]]; [auto |].
      simpl in Hne. congruence.
  - apply (organizations_ok_twins db); [| exact Hok].
    pose proof (preserves_transaction _ _ db (accept_invite_frame ss t)) as Hf.
    injection Hf as _ Ho _ _. rewrite Ho. intros y Hy. exists y. auto.
  - apply (organizations_ok_twins db); [| exact Hok].
    pose proof (preserves_transaction _ _ db (mark_card_sold_frame ss i pr e n)) as Hf.
    injection Hf as _ Ho _ _. rewrite Ho. intros y Hy. exists y. auto.
  - unfold transaction.
    destruct (soft_delete_organization ss o db) as [[e | v] db'] eqn:E; simpl; [exact Hok |].
    unfold soft_delete_organization in E. unfold bind at 1, get at 1 in E.
    destruct (negb _); [discriminate E |].
    inv_run E.
    match goal with
    | Hu : update_organization _ _ _ _ = _ |- _ =>
        apply update_organization_inr in Hu as [[_ ->] | (OLD & Hold & ->)]
    end; [exact Hok |].
    apply find_some in Hold as [Hin Hold]. apply Z.eqb_eq in Hold.
    apply (organizations_ok_twins db); [| exact Hok].
    cbn [organizations]. intros y Hy. apply in_map_iff in Hy as (r & <- & Hr).
    destruct (org_id r =? o); [exists OLD | exists r]; auto.
  - apply (organizations_ok_twins db); [| exact Hok].
    pose proof (preserves_transaction _ _ db (leave_organization_frame ss o)) as Hf.
    injection Hf as _ Ho _ _ _. rewrite Ho. intros y Hy. exists y. auto.
Qed.

Lemma run_keeps_organizations_ok calls db :
  organizations_ok db = true -> organizations_ok (run calls db) = true.
Proof.
  revert db. induction calls as [| [ss r] rest IH]; simpl; intros db H; [exact H |].
  apply IH. apply call_keeps_organizations_ok. exact H.
Qed.

(** X2. Any sequence of calls to the five procedures, by any callers,
    takes a state that satisfies [consistent] (the primary keys of
    organizations, memberships and inventory, the UNIQUE (user_id,
    organization_id) of memberships, the foreign keys of memberships,
    inventory and transactions, the freshness of generated ids) to one that
    does, and a state whose organizations satisfy their CHECK and UNIQUE
    constraints ([organizations_ok]) to one whose organizations do. *)
Theorem procedures_keep_constraints (calls : list (session * rpc)) (db : DB) :
  (consistent db = true -> consistent (run calls db) = true)
  /\ (organizations_ok db = true -> organizations_ok (run calls db) = true).
Proof.
  split; [apply run_consistent | apply run_keeps_organizations_ok].
Qed.

Lemma procedures_keep_constraints_witness :
  consistent test_db = true /\ organizations_ok test_db = true
  /\ consistent (run test_calls test_db) = true
  /\ organizations_ok (run test_calls test_db) = true.
Proof.
  destruct (procedures_keep_constraints test_calls test_db) as [H1 H2].
  split; [reflexivity | split; [reflexivity | split; [apply H1 | apply H2]; reflexivity]].
Defined.

(** ** Every organization keeps an owner across the procedures *)

Lemma call_keeps_owner ss r db :
  consistent db = true -> every_organization_owned db ->
  every_organization_owned (call ss r db).
Proof.
  intros Hc Hown. destruct r as [n s | t | i p e n | o | o]; simpl.
  - apply create_organization_keeps_owner. exact Hown.
  - unfold transaction.
    destruct (accept_invite ss t db) as [[e | m] db'] eqn:E; simpl; [exact Hown |].
    pose proof (accept_invite_frame ss t db _ _ E) as Hf.
    apply accept_invite_inr in E as (v & u & _ & _ & _ & _ & _ & _ & _ & _ & Hms & _).
    injection Hf as _ Horgs _ _.
    intros x Hx. rewrite Horgs in Hx. specialize (Hown x Hx).
    unfold owner_count in *. rewrite Hms, owner_count_app. lia.
  - unfold transaction.
    destruct (mark_card_sold ss i p e n db) as [[e' | t] db'] eqn:E; simpl; [exact Hown |].
    pose proof (mark_card_sold_frame ss i p e n db _ _ E) as Hf.
    injection Hf as _ Horgs Hms _.
    intros x Hx. rewrite Horgs in Hx. specialize (Hown x Hx).
    unfold owner_count in *. rewrite Hms. exact Hown.
  - unfold transaction.
    destruct (soft_delete_organization ss o db) as [[e | v] db'] eqn:E; simpl; [exact Hown |].
    pose proof (soft_delete_organization_frame ss o db _ _ E) as Hf.
    injection Hf as _ Hms _ _ _.
    unfold soft_delete_organization in E. unfold bind at 1, get at 1 in E.
    destruct (negb _); [discriminate E |].
    inv_run E.
    match goal with
    | Hu : update_organization _ _ _ _ = _ |- _ =>
        apply update_organization_inr in Hu as [[_ ->] | (OLD & Hold & ->)]
    end; [exact Hown |].
    apply find_some in Hold as [Hin Hid]. apply Z.eqb_eq in Hid.
    intros x Hx. cbn [organizations] in Hx.
    apply in_replace_key in Hx as [_ (y & Hy & Ey)]; [| exact Hid].
    rewrite Ey. specialize (Hown y Hy). unfold owner_count in *. exact Hown.
  - apply leave_organization_keeps_owner; [| exact Hown].
    apply consistent_parts in Hc. tauto.
Qed.

(** X3. From a consistent state in which every organization has an owner,
    any sequence of calls to the procedures leads to a state in which every
    organization has an owner: the procedures alone never leave an
    organization without one. *)
Theorem procedures_keep_every_organization_owned (calls : list (session * rpc)) (db : DB) :
  consistent db = true -> every_organization_owned db ->
  every_organization_owned (run calls db).
Proof.
  revert db. induction calls as [| [ss r] rest IH]; simpl; intros db Hc Hown; [exact Hown |].
  apply IH; [apply call_consistent; exact Hc | apply call_keeps_owner; assumption].
Qed.

Lemma procedures_keep_every_organization_owned_witness :
  every_organization_owned test_db /\ every_organization_owned (run test_calls test_db).
Proof.
  split; [exact test_db_owned |].
  apply (procedures_keep_every_organization_owned test_calls test_db);
    [reflexivity | exact test_db_owned].
Defined.

(** ** mark_card_sold: validation *)

Lemma caller_not_member ss db org :
  (forall m, ~ caller_membership ss db org m) ->
  existsb (fun m => is_caller ss (m_user_id m) && (m_organization_id m =? org))
          (memberships db) = false.
Proof.
  intros Hno. apply existsb_false_forall. intros m Hm.
  destruct (is_caller ss (m_user_id m)) eqn:Ec; [| reflexivity].
  destruct (Z.eqb_spec (m_organization_id m) org) as [Eo |]; [| reflexivity].
  exfalso. apply (Hno m). apply is_caller_iff in Ec. repeat split; assumption.
Qed.

Lemma find_none_forall {A} (f : A -> bool) l :
  (forall x, In x l -> f x = false) -> find f l = None.
Proof.
  induction l as [| a l IH]; simpl; intros H; [reflexivity |].
  rewrite (H a (or_introl eq_refl)). apply IH. intros x Hx. apply H. right. exact Hx.
Qed.

(** X4. The checks of [mark_card_sold], in order and before any write, in
    a state with distinct keys. When no live row of [inventory] has the id
    (no row at all, or only soft-deleted ones) it raises 'Inventory item not
    found'; for a live item whose status is not [available] it raises 'Card
    is not available' with that status; for a live, available item of an
    organization in which the caller (an anonymous one included) has no
    membership it raises 'Access denied'. The state at the RAISE is the
    initial one. *)
Theorem mark_card_sold_validation (ss : session) (db : DB) (p_inventory_id : uuid)
    (p_sold_price : decimal) (p_buyer_email p_buyer_notes : option string) :
  keys_ok db = true ->
  let result := mark_card_sold ss p_inventory_id p_sold_price p_buyer_email p_buyer_notes db in
  ((forall r, In r (inventory db) -> inv_id r = p_inventory_id -> inv_deleted_at r <> None) ->
     result = (inl Inventory_item_not_found, db))
  /\ (forall item, In item (inventory db) -> inv_id item = p_inventory_id ->
        inv_deleted_at item = None ->
        (inv_status item <> available ->
           result = (inl (Card_is_not_available (inv_status item)), db))
        /\ (inv_status item = available ->
              (forall m, ~ caller_membership ss db (inv_organization_id item) m) ->
              result = (inl Access_denied, db))).
Proof.
  intros Hk result. subst result. split.
  - intros Hnone. unfold mark_card_sold. unfold bind at 1, get at 1.
    rewrite find_none_forall; [reflexivity |].
    intros r Hr. destruct (Z.eqb_spec (inv_id r) p_inventory_id) as [E |]; [| reflexivity].
    specialize (Hnone r Hr E). destruct (inv_deleted_at r); [reflexivity | congruence].
  - intros item Hin Hid Hlive. subst p_inventory_id.
    split.
    + intros Hs. unfold mark_card_sold. unfold bind at 1, get at 1.
      rewrite (find_live_item db item Hk Hin Hlive).
      destruct (status_eqb (inv_status item) available) eqn:Es.
      * apply status_eqb_eq in Es. contradiction.
      * reflexivity.
    + intros Hs Hno. unfold mark_card_sold. unfold bind at 1, get at 1.
      rewrite (find_live_item db item Hk Hin Hlive).
      rewrite Hs. change (negb (status_eqb available available)) with false. cbv iota.
      rewrite caller_not_member by exact Hno. reflexivity.
Qed.

Lemma mark_card_sold_validation_witness :
  keys_ok test_db = true
  /\ mark_card_sold as_outsider 100 24999 None None test_db = (inl Access_denied, test_db).
Proof.
  split; [reflexivity |].
  destruct (mark_card_sold_validation as_outsider test_db 100 24999 None None eq_refl)
    as [_ H].
  apply (H test_card); [left; reflexivity | reflexivity | reflexivity | reflexivity |].
  exact outsider_not_member.
Defined.

(** ** mark_card_sold: an item is sold once *)

Lemma find_live_put_other id id' NEW l :
  id' <> id -> inv_id NEW = id' ->
  find (fun r => (inv_id r =? id) && is_null (inv_deleted_at r)) (put_item id' NEW l)
  = find (fun r => (inv_id r =? id) && is_null (inv_deleted_at r)) l.
Proof.
  intros Hne HN. induction l as [| a l IH]; simpl; [reflexivity |].
  rewrite IH. destruct (Z.eqb_spec (inv_id a) id') as [E | E]; [| reflexivity].
  rewrite HN, E. destruct (Z.eqb_spec id' id) as [|_]; [contradiction | reflexivity].
Qed.

Lemma find_live_put_same id NEW l item :
  In item l -> inv_id item = id -> inv_id NEW = id -> inv_deleted_at NEW = None ->
  find (fun r => (inv_id r =? id) && is_null (inv_deleted_at r)) (put_item id NEW l)
  = Some NEW.
Proof.
  intros Hin Hid HN Hlive. induction l as [| a l IH]; simpl; [destruct Hin |].
  destruct (Z.eqb_spec (inv_id a) id) as [E | E].
  - rewrite HN, Z.eqb_refl, Hlive. reflexivity.
  - destruct (Z.eqb_spec (inv_id a) id) as [| _]; [contradiction |]. simpl.
    apply IH. destruct Hin as [-> | Hin]; [contradiction | exact Hin].
Qed.

Lemma sold_item_blocks ss id price email notes db r :
  find (fun r => (inv_id r =? id) && is_null (inv_deleted_at r)) (inventory db) = Some r ->
  inv_status r = sold ->
  mark_card_sold ss id price email notes db = (inl (Card_is_not_available sold), db).
Proof.
  intros Hf Hs. unfold mark_card_sold. unfold bind at 1, get at 1.
  rewrite Hf, Hs. reflexivity.
Qed.

Lemma mark_card_sold_sells ss id price email notes db t db' :
  keys_ok db = true ->
  mark_card_sold ss id price email notes db = (inr t, db') ->
  (exists r, find (fun r => (inv_id r =? id) && is_null (inv_deleted_at r)) (inventory db')
             = Some r /\ inv_status r = sold)
  /\ tx_count db' id = S (tx_count db id).
Proof.
  intros Hk H. apply mark_card_sold_inr in H as (item & OLD & Hitem & _ & Hold & -> & ->).
  apply find_some in Hitem as [Hin Hp]. apply andb_prop in Hp as [Hid Hlive].
  apply Z.eqb_eq in Hid. apply find_some in Hold as [Hin' Hid']. apply Z.eqb_eq in Hid'.
  assert (OLD = item) as ->.
  { unfold keys_ok in Hk. apply andb_prop in Hk as [Hk _]. apply andb_prop in Hk as [_ Hk].
    apply (distinct_key_inj inv_id (inventory db)); [exact Hk | assumption | assumption | congruence]. }
  split.
  - exists (sold_item ss item). split; [| reflexivity]. cbn [inventory].
    apply (find_live_put_same id _ _ item); try assumption.
    simpl. destruct (inv_deleted_at item); [discriminate Hlive | reflexivity].
  - unfold tx_count. cbn [transactions]. rewrite tx_count_app. cbn [t_inventory_id].
    rewrite Z.eqb_refl. lia.
Qed.

Lemma call_keeps_sold ss r db id :
  (exists x, find (fun r => (inv_id r =? id) && is_null (inv_deleted_at r)) (inventory db)
             = Some x /\ inv_status x = sold) ->
  (exists x, find (fun r => (inv_id r =? id) && is_null (inv_deleted_at r))
                  (inventory (call ss r db)) = Some x /\ inv_status x = sold)
  /\ tx_count (call ss r db) id = tx_count db id.
Proof.
  intros (x & Hx & Hs). unfold tx_count.
  destruct r as [n s | t | i p e n | o | o]; simpl.
  - pose proof (preserves_transaction _ _ db (create_organization_frame ss n s)) as Hf.
    injection Hf as _ Hi Ht _. rewrite Hi, Ht. split; [exists x; auto | reflexivity].
  - pose proof (preserves_transaction _ _ db (accept_invite_frame ss t)) as Hf.
    injection Hf as _ _ Hi Ht. rewrite Hi, Ht. split; [exists x; auto | reflexivity].
  - unfold transaction.
    destruct (mark_card_sold ss i p e n db) as [[e' | t] db'] eqn:E; simpl;
      [split; [exists x; auto | reflexivity] |].
    apply mark_card_sold_inr in E as (item & OLD & Hitem & Hav & Hold & -> & ->).
    assert (Hne : i <> id).
    { intros ->. rewrite Hx in Hitem. injection Hitem as ->. congruence. }
    apply find_some in Hold as [_ Hid']. apply Z.eqb_eq in Hid'.
    cbn [inventory transactions]. split.
    + exists x. split; [| exact Hs]. rewrite find_live_put_other; assumption.
    + rewrite tx_count_app. cbn [t_inventory_id].
      destruct (Z.eqb_spec i id); [contradiction | lia].
  - pose proof (preserves_transaction _ _ db (soft_delete_organization_frame ss o)) as Hf.
    injection Hf as _ _ Hi Ht _. rewrite Hi, Ht. split; [exists x; auto | reflexivity].
  - pose proof (preserves_transaction _ _ db (leave_organization_frame ss o)) as Hf.
    injection Hf as _ _ Hi Ht _. rewrite Hi, Ht. split; [exists x; auto | reflexivity].
Qed.

Lemma run_keeps_sold calls db id :
  (exists x, find (fun r => (inv_id r =? id) && is_null (inv_deleted_at r)) (inventory db)
             = Some x /\ inv_status x = sold) ->
  (exists x, find (fun r => (inv_id r =? id) && is_null (inv_deleted_at r))
                  (inventory (run calls db)) = Some x /\ inv_status x = sold)
  /\ tx_count (run calls db) id = tx_count db id.
Proof.
  revert db. induction calls as [| [ss r] rest IH]; simpl; intros db H; [auto |].
  destruct (call_keeps_sold ss r db id H) as [H1 H2].
  destruct (IH _ H1) as [H3 H4]. split; [exact H3 | congruence].
Qed.

(** X5. An item is sold once. After a successful [mark_card_sold] from a
    state with distinct keys, and after any further sequence of calls to the
    procedures, every later [mark_card_sold] for the same item, by any
    caller, raises 'Card is not available (status: sold)' and changes
    nothing, and the item has exactly one more transaction than before the
    sale. *)
Theorem mark_card_sold_at_most_once (ss : session) (p_inventory_id : uuid)
    (p_sold_price : decimal) (p_buyer_email p_buyer_notes : option string)
    (db db1 : DB) (t : transaction_row) :
  keys_ok db = true ->
  transaction (mark_card_sold ss p_inventory_id p_sold_price p_buyer_email p_buyer_notes) db
  = (inr t, db1) ->
  forall (later : list (session * rpc)) (ss' : session) (price' : decimal)
         (email' notes' : option string),
    let db2 := run later db1 in
    transaction (mark_card_sold ss' p_inventory_id price' email' notes') db2
    = (inl (Card_is_not_available sold), db2)
    /\ tx_count db2 p_inventory_id = S (tx_count db p_inventory_id).
Proof.
  intros Hk H later ss' price' email' notes' db2. subst db2.
  unfold transaction in H.
  destruct (mark_card_sold ss p_inventory_id p_sold_price p_buyer_email p_buyer_notes db)
    as [[e | t'] d] eqn:E; [discriminate H |].
  injection H as -> ->.
  destruct (mark_card_sold_sells _ _ _ _ _ _ _ _ Hk E) as [Hsold Hcount].
  destruct (run_keeps_sold later db1 p_inventory_id Hsold) as [(x & Hx & Hs) Hc].
  split; [| congruence].
  apply (transaction_error _ _ _ (run later db1)).
  eapply sold_item_blocks; eassumption.
Qed.

Lemma mark_card_sold_at_most_once_witness :
  let db1 := call as_member (Mark_card_sold 100 24999 None None) test_db in
  let db2 := run [(as_member, Leave_organization 10);
                  (as_owner, Mark_card_sold 100 19999 None None)] db1 in
  keys_ok test_db = true
  /\ transaction (mark_card_sold as_owner 100 19999 None None) db2
     = (inl (Card_is_not_available sold), db2)
  /\ tx_count db2 100 = 1%nat.
Proof.
  intros db1 db2. split; [reflexivity |].
  exact (mark_card_sold_at_most_once as_member 100 24999 None None test_db db1
           (mk_transaction 1001 10 100 24999 (Some 5) (Some 2) None None (Some 5))
           eq_refl eq_refl
           [(as_member, Leave_organization 10);
            (as_owner, Mark_card_sold 100 19999 None None)]
           as_owner 19999 None None).
Defined.

(** ** soft_delete_organization *)

Lemma find_by_org_id db o :
  keys_ok db = true -> In o (organizations db) ->
  find (fun r => org_id r =? org_id o) (organizations db) = Some o.
Proof.
  intros Hk Hin. unfold keys_ok in Hk. apply andb_prop in Hk as [_ Hk].
  destruct (find _ (organizations db)) as [r |] eqn:E.
  - apply find_some in E as [Hin0 Hp]. apply Z.eqb_eq in Hp. f_equal.
    eapply (distinct_key_inj org_id); eauto.
  - eapply find_none in E; eauto. simpl in E. rewrite Z.eqb_refl in E. discriminate.
Qed.

Lemma organizations_ok_row db o :
  organizations_ok db = true -> In o (organizations db) ->
  name_valid (org_name o) = true /\ slug_format (org_slug o) = true
  /\ slug_not_reserved (org_slug o) = true
  /\ existsb (fun x => negb (org_id x =? org_id o) && String.eqb (org_slug x) (org_slug o))
             (organizations db) = false.
Proof.
  unfold organizations_ok. rewrite forallb_forall. intros H Hin.
  specialize (H o Hin).
  apply andb_prop in H as [H H4]. apply andb_prop in H as [H H3].
  apply andb_prop in H as [H1 H2]. apply negb_true_iff in H4.
  repeat split; assumption.
Qed.

Lemma is_org_owner_iff ss db org :
  is_org_owner ss db org = true
  <-> exists m, caller_membership ss db org m /\ m_role m = owner.
Proof.
  unfold is_org_owner. rewrite existsb_exists. split.
  - intros (m & Hm & H). apply andb_prop in H as [H Hr]. apply andb_prop in H as [Hc Ho].
    exists m. apply is_caller_iff in Hc. apply Z.eqb_eq in Ho. apply role_eqb_eq in Hr.
    repeat split; assumption.
  - intros (m & (Hm & Hu & Ho) & Hr). exists m. split; [exact Hm |].
    rewrite (proj2 (is_caller_iff _ _) Hu), Ho, Z.eqb_refl, Hr. reflexivity.
Qed.

Lemma update_organization_marker_ok ss db OLD :
  consistent db = true -> organizations_ok db = true ->
  In OLD (organizations db) -> fk_user db (auth_uid ss) = true ->
  update_organization ss (org_id OLD) (set_deleted_at (Some (now ss))) db
  = (inr (Some (soft_deleted ss OLD)), after_soft_delete ss db OLD).
Proof.
  intros Hc Hok Hin Hcaller.
  pose proof (consistent_parts db Hc) as (Hk & Hf & Hfresh).
  destruct (organizations_ok_row db OLD Hok Hin) as (Hn & Hs & Hres & Huniq).
  unfold uuids_fresh in Hfresh. repeat (apply andb_prop in Hfresh as [Hfresh ?]).
  unfold update_organization, bind at 1, get at 1.
  rewrite (find_by_org_id db OLD Hk Hin).
  rewrite (bind_eq _ _ db tt db).
  2:{ apply check_organization_ok;
        first [assumption | apply (skip_own_key org_id) | exact Huniq]. }
  simpl org_id. rewrite Z.eqb_refl. simpl orb.
  unfold bind at 1. rewrite require_true.
  unfold bind at 1, modify at 1.
  unfold audit_trigger_organizations. simpl coalesce.
  erewrite bind_eq.
  2:{ apply insert_audit_log_ok; [exact Hfresh | | exact Hcaller].
      unfold org_exists. cbn [organizations set_organizations].
      apply existsb_exists. exists (soft_deleted ss OLD). split; [| apply Z.eqb_refl].
      apply in_map_iff. exists OLD. rewrite Z.eqb_refl. auto. }
  reflexivity.
Qed.

Lemma soft_delete_organization_ok ss db OLD m :
  consistent db = true -> organizations_ok db = true ->
  In OLD (organizations db) ->
  caller_membership ss db (org_id OLD) m -> m_role m = owner ->
  soft_delete_organization ss (org_id OLD) db
  = (inr (Some (soft_deleted ss OLD)), after_soft_delete ss db OLD).
Proof.
  intros Hc Hok Hin Hm Hr.
  pose proof (consistent_parts db Hc) as (Hk & Hf & Hfresh).
  assert (Hcaller : fk_user db (auth_uid ss) = true).
  { destruct Hm as (Hm & Hu & _). rewrite Hu. apply (membership_fk db m Hf Hm). }
  unfold soft_delete_organization, bind at 1, get at 1.
  change (existsb _ (memberships db)) with (is_org_owner ss db (org_id OLD)).
  rewrite (proj2 (is_org_owner_iff ss db (org_id OLD))) by (exists m; auto).
  change (negb true) with false. cbv iota.
  erewrite bind_eq; [| apply update_organization_marker_ok; assumption].
  reflexivity.
Qed.

Lemma in_replace_iff {A} (key : A -> Z) (NEW OLD : A) l o :
  distinct (map key l) = true -> In OLD l ->
  (In o (map (fun x => if key x =? key OLD then NEW else x) l)
   <-> o = NEW \/ (In o l /\ o <> OLD)).
Proof.
  intros Hd Hin. split.
  - intros Ho. apply in_map_iff in Ho as (r & <- & Hr).
    destruct (Z.eqb_spec (key r) (key OLD)) as [E | E]; [left; reflexivity |].
    right. split; [exact Hr | congruence].
  - intros [-> | [Ho Hne]].
    + apply (in_map_replace key (key OLD) NEW OLD); [exact Hin | reflexivity].
    + apply in_map_iff. exists o. split; [| exact Ho].
      destruct (Z.eqb_spec (key o) (key OLD)) as [E | E]; [| reflexivity].
      exfalso. apply Hne. apply (distinct_key_inj key l); assumption.
Qed.

(** X6. [soft_delete_organization]. When the caller holds no membership
    of role [owner] in the organization (an admin, a member, a stranger, an
    anonymous caller) it raises 'Only owners can delete organizations' and
    writes nothing. In a consistent state whose organizations satisfy their
    constraints an owner's call succeeds, whether or not the organization is
    already soft-deleted: the row is replaced by itself with [deleted_at]
    and [updated_at] set to [now()]; the other organizations, the users,
    memberships, inventory, transactions and invites are untouched; and the
    organization is in nobody's [get_user_org_ids()] any more. *)
Theorem soft_delete_organization_contract (ss : session) (p_org_id : uuid) (db : DB) :
  ((forall m, caller_membership ss db p_org_id m -> m_role m <> owner) ->
     soft_delete_organization ss p_org_id db
     = (inl Only_owners_can_delete_organizations, db))
  /\ (consistent db = true -> organizations_ok db = true ->
      forall m OLD,
        caller_membership ss db p_org_id m -> m_role m = owner ->
        In OLD (organizations db) -> org_id OLD = p_org_id ->
        exists db',
          transaction (soft_delete_organization ss p_org_id) db
          = (inr (Some (soft_deleted ss OLD)), db')
          /\ org_deleted_at (soft_deleted ss OLD) = Some (now ss)
          /\ (forall o, In o (organizations db')
                        <-> o = soft_deleted ss OLD \/ (In o (organizations db) /\ o <> OLD))
          /\ users db' = users db /\ memberships db' = memberships db
          /\ inventory db' = inventory db /\ transactions db' = transactions db
          /\ invites db' = invites db
          /\ (forall ss', uuid_in p_org_id (get_user_org_ids ss' db') = false)).
Proof.
  split.
  - intros Hno. unfold soft_delete_organization, bind at 1, get at 1.
    change (existsb _ (memberships db)) with (is_org_owner ss db p_org_id).
    destruct (is_org_owner ss db p_org_id) eqn:E; [| reflexivity].
    apply is_org_owner_iff in E as (m & Hm & Hr). exfalso. exact (Hno m Hm Hr).
  - intros Hc Hok m OLD Hm Hr Hin Hid. subst p_org_id.
    exists (after_soft_delete ss db OLD).
    pose proof (consistent_parts db Hc) as (Hk & _ & _).
    assert (Hd : distinct (map org_id (organizations db)) = true).
    { unfold keys_ok in Hk. apply andb_prop in Hk as [_ Hk]. exact Hk. }
    split; [| split; [reflexivity | split; [| repeat split]]].
    + apply transaction_ok. apply (soft_delete_organization_ok ss db OLD m); assumption.
    + intros o. apply (in_replace_iff org_id (soft_deleted ss OLD) OLD); assumption.
    + intros ss'. apply user_org_ids_exclude_soft_deleted.
      intros r Hr' Er. cbn [after_soft_delete organizations] in Hr'.
      apply (in_replace_iff org_id (soft_deleted ss OLD) OLD) in Hr'; [| exact Hd | exact Hin].
      destruct Hr' as [-> | [Hr' Hne]]; [discriminate |].
      exfalso. apply Hne. apply (distinct_key_inj org_id (organizations db)); assumption.
Qed.

(** ** A soft-deleted organization stays soft-deleted *)

Lemma call_keeps_soft_deleted ss r db p :
  org_soft_deleted db p -> org_soft_deleted (call ss r db) p.
Proof.
  intros (x & Hx & Hid & Hdel). destruct r as [n s | t | i pr e n | o | o]; simpl.
  - unfold transaction.
    destruct (create_organization ss n s db) as [[e | v] db'] eqn:E; simpl;
      [exists x; auto |].
    unfold create_organization in E.
    destruct (negb (slug_format s)); [discriminate E |].
    inv_run E.
    match goal with
    | Hi : insert_organization _ _ _ _ = _ |- _ =>
        apply insert_organization_inr in Hi as (Hv & Hdb1 & _)
    end.
    match goal with
    | Hi : insert_membership _ _ _ _ _ _ _ _ = _ |- _ =>
        apply insert_membership_inr in Hi as (u & Hu & Hm & Hdb2 & _)
    end.
    subst. exists x. split; [| auto]. cbn [organizations]. apply in_or_app. left. exact Hx.
  - pose proof (preserves_transaction _ _ db (accept_invite_frame ss t)) as Hf.
    injection Hf as _ Ho _ _. exists x. rewrite Ho. auto.
  - pose proof (preserves_transaction _ _ db (mark_card_sold_frame ss i pr e n)) as Hf.
    injection Hf as _ Ho _ _. exists x. rewrite Ho. auto.
  - unfold transaction.
    destruct (soft_delete_organization ss o db) as [[e | v] db'] eqn:E; simpl;
      [exists x; auto |].
    unfold soft_delete_organization in E. unfold bind at 1, get at 1 in E.
    destruct (negb _); [discriminate E |].
    inv_run E.
    match goal with
    | Hu : update_organization _ _ _ _ = _ |- _ =>
        apply update_organization_inr in Hu as [[_ ->] | (OLD & Hold & ->)]
    end; [exists x; auto |].
    apply find_some in Hold as [Hin Hold]. apply Z.eqb_eq in Hold.
    cbn [organizations]. destruct (Z.eqb_spec (org_id x) o) as [E | E].
    + exists (update_updated_at_org ss (set_deleted_at (Some (now ss)) OLD)).
      split; [| split; [simpl; congruence | discriminate]].
      apply (in_map_replace org_id o _ x); assumption.
    + exists x. split; [| auto]. apply in_map_iff. exists x.
      destruct (Z.eqb_spec (org_id x) o); [contradiction | auto].
  - pose proof (preserves_transaction _ _ db (leave_organization_frame ss o)) as Hf.
    injection Hf as _ Ho _ _ _. exists x. rewrite Ho. auto.
Qed.

Lemma run_keeps_soft_deleted calls db p :
  org_soft_deleted db p -> org_soft_deleted (run calls db) p.
Proof.
  revert db. induction calls as [| [ss r] rest IH]; simpl; intros db H; [exact H |].
  apply IH. apply call_keeps_soft_deleted. exact H.
Qed.

Lemma soft_deleted_blocks_accept ss token db v :
  invite_by_token db token = Some v ->
  org_soft_deleted db (i_organization_id v) ->
  exists e, accept_invite ss token db = (inl e, db).
Proof.
  unfold invite_by_token. intros Hv Hdel. unfold accept_invite, bind at 1, get at 1.
  rewrite Hv.
  destruct (is_not_null (i_revoked_at v)); [eexists; reflexivity |].
  destruct (is_not_null (i_accepted_at v)); [eexists; reflexivity |].
  destruct (is_true (sql_lt_ts (i_expires_at v) (now ss))); [eexists; reflexivity |].
  rewrite (proj2 (org_soft_deleted_iff db (i_organization_id v)) Hdel).
  eexists; reflexivity.
Qed.

(** X7. No procedure undoes a soft delete: from a consistent state, after
    any sequence of calls a soft-deleted organization is still
    soft-deleted, is in nobody's [get_user_org_ids()], and every
    [accept_invite] for an invite of that organization fails and writes
    nothing. *)
Theorem soft_delete_is_permanent (calls : list (session * rpc)) (db : DB) (p_org_id : uuid) :
  consistent db = true -> org_soft_deleted db p_org_id ->
  let db' := run calls db in
  org_soft_deleted db' p_org_id
  /\ (forall ss, uuid_in p_org_id (get_user_org_ids ss db') = false)
  /\ (forall ss token v,
        invite_by_token db' token = Some v -> i_organization_id v = p_org_id ->
        exists e, accept_invite ss token db' = (inl e, db')).
Proof.
  intros Hc Hdel db'. subst db'.
  pose proof (run_keeps_soft_deleted calls db p_org_id Hdel) as Hdel'.
  pose proof (run_consistent calls db Hc) as Hc'.
  split; [exact Hdel' | split].
  - intros ss. apply user_org_ids_exclude_soft_deleted.
    destruct Hdel' as (x & Hx & Hid & Hd). intros r Hr Er.
    apply consistent_parts in Hc' as (Hk & _ & _).
    unfold keys_ok in Hk. apply andb_prop in Hk as [_ Hk].
    assert (r = x) as ->; [| exact Hd].
    apply (distinct_key_inj org_id (organizations (run calls db)));
      [exact Hk | exact Hr | exact Hx | congruence].
  - intros ss token v Hv Ho. apply (soft_deleted_blocks_accept ss token _ v); [exact Hv |].
    rewrite Ho. exact Hdel'.
Qed.

Lemma soft_delete_is_permanent_witness :
  consistent deleted_db = true
  /\ org_soft_deleted (run test_calls deleted_db) 10
  /\ forall ss, uuid_in 10 (get_user_org_ids ss (run test_calls deleted_db)) = false.
Proof.
  assert (Hdel : org_soft_deleted deleted_db 10).
  { exists (set_deleted_at (Some 3) test_store). simpl. repeat split; auto. discriminate. }
  destruct (soft_delete_is_permanent test_calls deleted_db 10 eq_refl Hdel) as (H1 & H2 & _).
  split; [reflexivity | split; assumption].
Defined.

(** ** No constraint violation escapes *)




(** ** accept_invite: memberships *)

Lemma user_org_ids_iff ss db o :
  uuid_in o (get_user_org_ids ss db) = true
  <-> (exists m, caller_membership ss db o m)
      /\ exists r, In r (organizations db) /\ org_id r = o /\ org_deleted_at r = None.
Proof.
  unfold uuid_in, get_user_org_ids. rewrite existsb_exists. split.
  - intros (x & Hx & E). apply Z.eqb_eq in E. subst x.
    apply in_map_iff in Hx as (m & Em & Hm). apply filter_In in Hm as [Hm Hp].
    apply andb_prop in Hp as [Hc Hr]. apply is_caller_iff in Hc.
    apply existsb_exists in Hr as (r & Hr & Hp). apply andb_prop in Hp as [Ei Hl].
    apply Z.eqb_eq in Ei. split.
    + exists m. repeat split; assumption.
    + exists r. repeat split; [exact Hr | congruence |].
      destruct (org_deleted_at r); [discriminate Hl | reflexivity].
  - intros [(m & Hm & Hu & Ho) (r & Hr & Ei & Hl)]. exists o. split; [| apply Z.eqb_refl].
    apply in_map_iff. exists m. split; [exact Ho |]. apply filter_In. split; [exact Hm |].
    rewrite (proj2 (is_caller_iff _ _) Hu). simpl. apply existsb_exists.
    exists r. split; [exact Hr |]. rewrite Ei, Ho, Z.eqb_refl, Hl. reflexivity.
Qed.

Lemma is_org_admin_or_owner_iff ss db org :
  is_org_admin_or_owner ss db org = true
  <-> exists m, caller_membership ss db org m /\ m_role m <> member.
Proof.
  unfold is_org_admin_or_owner. rewrite existsb_exists. split.
  - intros (m & Hm & H). apply andb_prop in H as [H Hr]. apply andb_prop in H as [Hc Ho].
    exists m. apply is_caller_iff in Hc. apply Z.eqb_eq in Ho.
    split; [repeat split; assumption |]. destruct (m_role m); [discriminate.. |].
    discriminate Hr.
  - intros (m & (Hm & Hu & Ho) & Hr). exists m. split; [exact Hm |].
    rewrite (proj2 (is_caller_iff _ _) Hu), Ho, Z.eqb_refl.
    destruct (m_role m); [reflexivity | reflexivity | congruence].
Qed.

(** X9. What a successful [accept_invite] grants. The caller had no
    membership in the invite's organization before; afterwards the returned
    row is the caller's membership there, the organization is among the
    caller's [get_user_org_ids()], [is_org_admin_or_owner] holds when the
    role of the invite is not [member] and [is_org_owner] when it is
    [owner]. *)
Theorem accept_invite_grants_membership (ss : session) (p_token : string) (db db' : DB)
    (m : membership) :
  transaction (accept_invite ss p_token) db = (inr m, db') ->
  (forall x, ~ caller_membership ss db (m_organization_id m) x)
  /\ caller_membership ss db' (m_organization_id m) m
  /\ uuid_in (m_organization_id m) (get_user_org_ids ss db') = true
  /\ (m_role m <> member -> is_org_admin_or_owner ss db' (m_organization_id m) = true)
  /\ (m_role m = owner -> is_org_owner ss db' (m_organization_id m) = true).
Proof.
  unfold transaction.
  destruct (accept_invite ss p_token db) as [[e | m'] d] eqn:E; intros H; [discriminate H |].
  injection H as -> ->.
  pose proof (accept_invite_frame ss p_token db _ _ E) as Hf. injection Hf as _ Horgs _ _.
  assert (Hfk : org_exists db (m_organization_id m) = true
                /\ existsb (fun x => (m_user_id x =? m_user_id m)
                                     && (m_organization_id x =? m_organization_id m))
                           (memberships db) = false).
  { unfold accept_invite in E. unfold bind at 1, get at 1 in E.
    destruct (find _ (invites db)) as [v |]; [| discriminate E].
    destruct (is_not_null (i_revoked_at v)); [discriminate E |].
    destruct (is_not_null (i_accepted_at v)); [discriminate E |].
    destruct (is_true (sql_lt_ts (i_expires_at v) (now ss))); [discriminate E |].
    destruct (existsb _ (organizations db)); [discriminate E |].
    destruct (is_true (sql_neq_text _ _)); [discriminate E |].
    inv_run E.
    match goal with
    | Hi : insert_membership _ _ _ _ _ _ _ _ = _ |- _ =>
        pose proof (insert_membership_fk _ _ _ _ _ _ _ _ _ _ Hi) as [_ Ho];
        apply insert_membership_inr in Hi as (u & _ & Hm & _ & Hp)
    end.
    subst m. split; [exact Ho | exact Hp]. }
  destruct Hfk as [Hexists Hpair].
  apply accept_invite_inr in E
    as (v & u & _ & _ & _ & _ & Hlive & _ & Hu & Hm & Hms & _).
  assert (Hcm : caller_membership ss db' (m_organization_id m) m).
  { repeat split.
    - rewrite Hms. apply in_or_app. right. left. reflexivity.
    - rewrite Hu, Hm. reflexivity. }
  split; [| split; [exact Hcm | split; [| split]]].
  - intros x (Hx & Hxu & Hxo). rewrite existsb_false_forall in Hpair.
    specialize (Hpair x Hx). rewrite Hxo, Z.eqb_refl, andb_true_r in Hpair.
    apply Z.eqb_neq in Hpair. apply Hpair.
    rewrite Hu in Hxu. injection Hxu as <-. rewrite Hm. reflexivity.
  - apply user_org_ids_iff. split; [exists m; exact Hcm |].
    apply org_exists_iff in Hexists as (r & Hr & Er). exists r. rewrite Horgs.
    repeat split; [exact Hr | exact Er |].
    rewrite existsb_false_forall in Hlive. specialize (Hlive r Hr).
    rewrite Hm in Er. simpl in Er. rewrite Er, Z.eqb_refl in Hlive. simpl in Hlive.
    apply is_not_null_false in Hlive. exact Hlive.
  - intros Hr. apply is_org_admin_or_owner_iff. exists m. auto.
  - intros Hr. apply is_org_owner_iff. exists m. auto.
Qed.

Lemma accept_invite_grants_membership_witness :
  let db' := call as_outsider (Accept_invite "token-1") test_db in
  uuid_in 10 (get_user_org_ids as_outsider test_db) = false
  /\ uuid_in 10 (get_user_org_ids as_outsider db') = true
  /\ is_org_admin_or_owner as_outsider db' 10 = false.
Proof.
  intros db'.
  destruct (accept_invite_grants_membership as_outsider "token-1" test_db db'
              (mk_membership 1000 3 10 member (Some 1) (Some 0) (Some 5) (Some 5)) eq_refl)
    as (_ & _ & H & _).
  split; [reflexivity | split; [exact H | reflexivity]].
Defined.

Lemma insert_membership_duplicate ss u org role invited_by invited_at accepted_at db m :
  consistent db = true ->
  In m (memberships db) -> m_user_id m = u -> m_organization_id m = org ->
  insert_membership ss (Some u) org role invited_by invited_at accepted_at db
  = (inl (unique_violation "memberships_user_id_organization_id_key"),
     set_next_uuid (next_uuid db + 1) db).
Proof.
  intros Hc Hm Hu Ho. destruct (consistent_fresh_ids db Hc) as [_ Hfresh].
  unfold insert_membership, bind at 1, gen_random_uuid at 1. unfold bind at 1, get at 1.
  apply bind_inl. unfold check_membership.
  cbn [memberships set_next_uuid m_id m_user_id m_organization_id].
  assert (Hpk : existsb (fun x => negb false && (m_id x =? next_uuid db)) (memberships db)
                = false).
  { apply existsb_false_forall. intros x Hx. apply Hfresh in Hx. simpl.
    apply Z.eqb_neq. lia. }
  assert (Hdup : existsb (fun x => negb false && (m_user_id x =? u)
                                   && (m_organization_id x =? org))
                         (memberships db) = true).
  { apply existsb_exists. exists m. split; [exact Hm |].
    rewrite Hu, Ho, !Z.eqb_refl. reflexivity. }
  rewrite Hpk, Hdup. reflexivity.
Qed.

(** X10. An invite cannot be accepted by someone who is already a member.
    In a consistent state, for an invite that passes every check of
    [accept_invite] and a caller who has a membership in its organization,
    the call fails with the unique violation of [memberships (user_id,
    organization_id)] and is rolled back, so that the invite stays
    unaccepted. *)
Theorem accept_invite_existing_member (ss : session) (p_token : string) (db : DB)
    (v : invite) (m : membership) (caller_email : string) :
  consistent db = true ->
  invite_by_token db p_token = Some v ->
  i_revoked_at v = None -> i_accepted_at v = None -> ~ expired ss v ->
  ~ org_soft_deleted db (i_organization_id v) ->
  user_email db (auth_uid ss) = Some caller_email ->
  lower caller_email = lower (i_email v) ->
  caller_membership ss db (i_organization_id v) m ->
  transaction (accept_invite ss p_token) db
  = (inl (unique_violation "memberships_user_id_organization_id_key"), db).
Proof.
  intros Hc Hv Hrev Hacc Hexp Hdel Hemail Hlow (Hm & Hu & Ho).
  unfold invite_by_token in Hv.
  apply (transaction_error _ _ _ (set_next_uuid (next_uuid db + 1) db)).
  unfold accept_invite, bind at 1, get at 1.
  rewrite Hv, Hrev, Hacc. change (is_not_null (@None timestamptz)) with false. cbv iota.
  rewrite (not_true_false _ (fun H => Hexp (proj1 (expired_iff ss v) H))).
  rewrite (not_true_false _ (fun H => Hdel (proj1 (org_soft_deleted_iff db _) H))).
  rewrite Hemail.
  change (option_map lower (Some caller_email)) with (Some (lower caller_email)).
  rewrite Hlow.
  rewrite (not_true_false _ (fun H => proj1 (sql_neq_text_iff _ _) H eq_refl)).
  rewrite Hu. apply bind_inl.
  apply (insert_membership_duplicate _ _ _ _ _ _ _ _ m); auto.
Qed.

Lemma accept_invite_existing_member_witness :
  consistent member_invite_db = true
  /\ caller_membership as_member member_invite_db 10 test_member
  /\ transaction (accept_invite as_member "token-3") member_invite_db
     = (inl (unique_violation "memberships_user_id_organization_id_key"), member_invite_db).
Proof.
  assert (Hm : caller_membership as_member member_invite_db 10 test_member).
  { repeat split. simpl. auto. }
  split; [reflexivity | split; [exact Hm |]].
  apply (accept_invite_existing_member as_member "token-3" member_invite_db member_invite
           test_member "member@test.com"); try reflexivity; try exact Hm.
  - intros (t & Ht & Hlt). inversion Ht; subst. discriminate Hlt.
  - intros (r & Hr & _ & Hd). simpl in Hr. destruct Hr as [<- | []]. apply Hd. reflexivity.
Defined.

(** ** create_organization *)

(** X11. The slug of every stored organization is taken, soft-deleted or
    not: in a consistent state, [create_organization] with a valid name and
    a well-formed, unreserved slug that some row of [organizations] carries
    fails with the unique violation [organizations_slug_key] and leaves the
    state unchanged. *)
Theorem create_organization_slug_taken (ss : session) (p_name p_slug : string) (db : DB)
    (o : organization) :
  consistent db = true ->
  name_valid p_name = true -> slug_format p_slug = true ->
  slug_not_reserved p_slug = true ->
  In o (organizations db) -> org_slug o = p_slug ->
  transaction (create_organization ss p_name p_slug) db
  = (inl (unique_violation "organizations_slug_key"), db).
Proof.
  intros Hc Hn Hf Hr Ho Hs. destruct (consistent_fresh_ids db Hc) as [Hfresh _].
  apply (transaction_error _ _ _ (set_next_uuid (next_uuid db + 1) db)).
  unfold create_organization. rewrite Hf. change (negb true) with false. cbv iota.
  apply bind_inl. unfold insert_organization, bind at 1, gen_random_uuid at 1.
  unfold bind at 1, get at 1. apply bind_inl.
  unfold check_organization. cbn [organizations set_next_uuid org_id org_name org_slug].
  assert (Hpk : existsb (fun x => negb false && (org_id x =? next_uuid db))
                        (organizations db) = false).
  { apply existsb_false_forall. intros x Hx. apply Hfresh in Hx. simpl.
    apply Z.eqb_neq. lia. }
  assert (Hdup : existsb (fun x => negb false && String.eqb (org_slug x) p_slug)
                         (organizations db) = true).
  { apply existsb_exists. exists o. split; [exact Ho |].
    rewrite Hs, String.eqb_refl. reflexivity. }
  rewrite Hn, Hf, Hr, Hpk, Hdup. reflexivity.
Qed.

Lemma create_organization_slug_taken_witness :
  consistent deleted_db = true
  /\ org_soft_deleted deleted_db 10
  /\ transaction (create_organization as_outsider "Second Test Store" "test-store") deleted_db
     = (inl (unique_violation "organizations_slug_key"), deleted_db).
Proof.
  split; [reflexivity | split].
  - exists (set_deleted_at (Some 3) test_store). simpl. repeat split; auto. discriminate.
  - apply (create_organization_slug_taken as_outsider "Second Test Store" "test-store"
             deleted_db (set_deleted_at (Some 3) test_store));
      try reflexivity. left. reflexivity.
Defined.

(** X12. After a successful [create_organization] the new organization is
    stored, the caller passes [is_org_owner] and [is_org_admin_or_owner] for
    it and has it among [get_user_org_ids()]; from a consistent state the
    new organization has exactly one owner, and its only member is the
    caller, with role [owner]. *)
Theorem create_organization_makes_owner (ss : session) (p_name p_slug : string)
    (db db' : DB) (v_org : organization) :
  transaction (create_organization ss p_name p_slug) db = (inr v_org, db') ->
  In v_org (organizations db')
  /\ is_org_owner ss db' (org_id v_org) = true
  /\ is_org_admin_or_owner ss db' (org_id v_org) = true
  /\ uuid_in (org_id v_org) (get_user_org_ids ss db') = true
  /\ (consistent db = true ->
      owner_count db' (org_id v_org) = 1%nat
      /\ forall m, In m (memberships db') -> m_organization_id m = org_id v_org ->
                   auth_uid ss = Some (m_user_id m) /\ m_role m = owner).
Proof.
  unfold transaction.
  destruct (create_organization ss p_name p_slug db) as [[e | v] d] eqn:E; intros H;
    [discriminate H |].
  injection H as -> ->.
  unfold create_organization in E.
  destruct (negb (slug_format p_slug)); [discriminate E |].
  inv_run E.
  match goal with
  | Hi : insert_organization _ _ _ _ = _ |- _ =>
      apply insert_organization_inr in Hi as (Hv & Hdb1 & _)
  end.
  match goal with
  | Hi : insert_membership _ _ _ _ _ _ _ _ = _ |- _ =>
      apply insert_membership_inr in Hi as (u & Hu & Hm & Hdb2 & _)
  end.
  subst db0. cbn [next_uuid] in Hm.
  assert (Hin : In v_org (organizations db')).
  { subst db'. cbn [organizations]. apply in_or_app. right. left. reflexivity. }
  assert (Hcm : caller_membership ss db' (org_id v_org) v0).
  { repeat split.
    - subst db'. cbn [memberships]. apply in_or_app. right. left. reflexivity.
    - rewrite Hu, Hm. reflexivity.
    - rewrite Hm. reflexivity. }
  assert (Hrole : m_role v0 = owner) by (rewrite Hm; reflexivity).
  split; [exact Hin | split; [| split; [| split]]].
  - apply is_org_owner_iff. exists v0. auto.
  - apply is_org_admin_or_owner_iff. exists v0. split; [exact Hcm | congruence].
  - apply user_org_ids_iff. split; [exists v0; exact Hcm |].
    exists v_org. repeat split; [exact Hin | rewrite Hv; reflexivity].
  - intros Hc.
    assert (Hnone : forall x, In x (memberships db) -> m_organization_id x <> org_id v_org).
    { intros x Hx. pose proof (proj1 (consistent_iff db) Hc) as (_ & (F1 & _ & _) & _ & _ & _ & U4).
      destruct (F1 x Hx) as [_ Hox]. apply org_exists_iff in Hox as (r & Hr & Er).
      apply U4 in Hr. rewrite Hv. simpl. lia. }
    split.
    + unfold owner_count. subst db'. cbn [memberships]. rewrite owner_count_app.
      assert (Hself : (m_organization_id v0 =? org_id v_org) && role_eqb (m_role v0) owner
                      = true).
      { rewrite Hm. cbn [m_organization_id m_role]. rewrite Z.eqb_refl. reflexivity. }
      rewrite Hself.
      rewrite (proj2 (length_zero_iff_nil _)); [reflexivity |].
      destruct (filter _ (memberships db)) as [| x l] eqn:Ef; [reflexivity |].
      assert (Hx : In x (filter (fun x => (m_organization_id x =? org_id v_org)
                                          && role_eqb (m_role x) owner) (memberships db)))
        by (rewrite Ef; left; reflexivity).
      apply filter_In in Hx as [Hx Hp]. apply andb_prop in Hp as [Hp _].
      apply Z.eqb_eq in Hp. exfalso. exact (Hnone x Hx Hp).
    + intros x Hx Hxo. subst db'. cbn [memberships] in Hx.
      apply in_app_iff in Hx as [Hx | [<- | []]]; [exfalso; exact (Hnone x Hx Hxo) |].
      destruct Hcm as (_ & Hcu & _). auto.
Qed.

Lemma create_organization_makes_owner_witness :
  let db' := call as_outsider (Create_organization "Moody Cards" "moody-cards") test_db in
  is_org_owner as_outsider db' 1000 = true
  /\ uuid_in 1000 (get_user_org_ids as_outsider db') = true
  /\ owner_count db' 1000 = 1%nat.
Proof.
  intros db'.
  destruct (create_organization_makes_owner as_outsider "Moody Cards" "moody-cards" test_db db'
              (mk_organization 1000 "Moody Cards" "moody-cards" (Some 5) (Some 5) None)
              eq_refl)
    as (_ & H1 & _ & H2 & H3).
  split; [exact H1 | split; [exact H2 |]].
  exact (proj1 (H3 eq_refl)).
Defined.

(** ** leave_organization: what is left *)

(** X13. After a successful [leave_organization] from a consistent state
    the caller has no membership in the organization: a second call raises
    'Not a member of this organization', the organization is not among the
    caller's [get_user_org_ids()], [is_org_admin_or_owner] is false, and
    [mark_card_sold] by the caller fails for every item of the
    organization. *)
Theorem leave_organization_revokes_access (ss : session) (p_org_id : uuid) (db db' : DB) :
  consistent db = true ->
  transaction (leave_organization ss p_org_id) db = (inr tt, db') ->
  (forall m, ~ caller_membership ss db' p_org_id m)
  /\ leave_organization ss p_org_id db' = (inl Not_a_member_of_this_organization, db')
  /\ uuid_in p_org_id (get_user_org_ids ss db') = false
  /\ is_org_admin_or_owner ss db' p_org_id = false
  /\ (forall i price email notes item,
        In item (inventory db') -> inv_id item = i -> inv_organization_id item = p_org_id ->
        exists e, mark_card_sold ss i price email notes db' = (inl e, db')).
Proof.
  intros Hc. unfold transaction.
  destruct (leave_organization ss p_org_id db) as [[e | []] d] eqn:E; intros H;
    [discriminate H |].
  injection H as ->.
  pose proof (leave_organization_consistent _ _ _ _ _ Hc E) as Hc'.
  apply leave_organization_inr in E as (m & Hfind & _ & Hdel).
  apply find_some in Hfind as [Hin Hp]. apply andb_prop in Hp as [Hcaller Horg].
  apply is_caller_iff in Hcaller. apply Z.eqb_eq in Horg.
  pose proof (consistent_parts db Hc) as (Hk & _ & _).
  assert (Hgone : forall x, ~ caller_membership ss db' p_org_id x).
  { apply delete_membership_inr in Hdel as [(Hnone & _) | (OLD & _ & ->)].
    - eapply find_none in Hnone; [| exact Hin]. simpl in Hnone.
      rewrite Z.eqb_refl in Hnone. discriminate.
    - intros x (Hx & Hxu & Hxo). cbn [memberships] in Hx.
      apply filter_In in Hx as [Hx Hne]. apply negb_true_iff in Hne.
      apply Z.eqb_neq in Hne. apply Hne. f_equal.
      unfold keys_ok in Hk. apply andb_prop in Hk as [Hk _]. apply andb_prop in Hk as [Hk _].
      apply andb_prop in Hk as [_ Hk].
      apply (distinct_pairs_inj (fun m => (m_user_id m, m_organization_id m))
                                (memberships db)); try assumption.
      rewrite Hcaller in Hxu. injection Hxu as ->. congruence. }
  assert (Hnone : existsb (fun m => is_caller ss (m_user_id m)
                                    && (m_organization_id m =? p_org_id))
                          (memberships db') = false)
    by (apply caller_not_member; exact Hgone).
  split; [exact Hgone | split; [| split; [| split]]].
  - unfold leave_organization, bind at 1, get at 1.
    rewrite find_none_forall; [reflexivity |].
    apply existsb_false_forall. exact Hnone.
  - apply not_true_false. intros Hu. apply user_org_ids_iff in Hu as [(x & Hx) _].
    exact (Hgone x Hx).
  - apply not_true_false. intros Hu. apply is_org_admin_or_owner_iff in Hu as (x & Hx & _).
    exact (Hgone x Hx).
  - intros i price email notes item Hitem Hi Ho.
    unfold mark_card_sold, bind at 1, get at 1.
    destruct (find _ (inventory db')) as [r |] eqn:Ef; [| eexists; reflexivity].
    destruct (negb (status_eqb (inv_status r) available)); [eexists; reflexivity |].
    assert (r = item) as ->.
    { apply find_some in Ef as [Hr Hp]. apply andb_prop in Hp as [Hp _].
      apply Z.eqb_eq in Hp. apply consistent_parts in Hc' as (Hk' & _ & _).
      unfold keys_ok in Hk'. apply andb_prop in Hk' as [Hk' _].
      apply andb_prop in Hk' as [_ Hk'].
      apply (distinct_key_inj inv_id (inventory db')); [exact Hk' | exact Hr | exact Hitem |].
      congruence. }
    rewrite Ho, Hnone. eexists; reflexivity.
Qed.

Lemma leave_organization_revokes_access_witness :
  let db' := call as_member (Leave_organization 10) test_db in
  consistent test_db = true
  /\ uuid_in 10 (get_user_org_ids as_member test_db) = true
  /\ uuid_in 10 (get_user_org_ids as_member db') = false
  /\ leave_organization as_member 10 db' = (inl Not_a_member_of_this_organization, db').
Proof.
  intros db'.
  destruct (leave_organization_revokes_access as_member 10 test_db db' eq_refl eq_refl)
    as (_ & H1 & H2 & _).
  split; [reflexivity | split; [reflexivity | split; assumption]].
Defined.

(** ** Tenant isolation *)

Lemma admin_org_ids_subset ss db o :
  uuid_in o (get_user_org_ids ss db) = false ->
  uuid_in o (admin_org_ids ss db) = false.
Proof.
  intros Hids. unfold uuid_in at 1, admin_org_ids.
  apply existsb_false_forall. intros x Hx.
  apply in_map_iff in Hx as (m & <- & Hm). apply filter_In in Hm as [_ Hm].
  apply andb_prop in Hm as [Hm _]. apply andb_prop in Hm as [Hm _].
  destruct (Z.eqb_spec o (m_organization_id m)) as [-> | Hne]; [congruence | reflexivity].
Qed.

Lemma non_member_facts ss db o :
  (forall m, ~ caller_membership ss db o m) ->
  uuid_in o (get_user_org_ids ss db) = false
  /\ is_org_admin_or_owner ss db o = false
  /\ is_org_owner ss db o = false
  /\ uuid_in o (member_org_ids ss db) = false
  /\ uuid_in o (admin_org_ids ss db) = false.
Proof.
  intros Hno.
  assert (H1 : uuid_in o (get_user_org_ids ss db) = false).
  { apply not_true_false. intros H. apply user_org_ids_iff in H as [(m & Hm) _].
    exact (Hno m Hm). }
  split; [exact H1 | split; [| split; [| split]]].
  - apply not_true_false. intros H. apply is_org_admin_or_owner_iff in H as (m & Hm & _).
    exact (Hno m Hm).
  - apply not_true_false. intros H. apply is_org_owner_iff in H as (m & Hm & _).
    exact (Hno m Hm).
  - apply member_org_ids_exclude_soft_deleted. exact H1.
  - apply admin_org_ids_subset. exact H1.
Qed.

Ltac policy_eval :=
  unfold admits_existing, admits_new, policies, holds, check_of; simpl;
  unfold in_user_orgs_and_live, in_user_orgs, admin_or_owner_and_live, admin_or_owner,
    org_owner, live, never, in_member_orgs, uploader_or_admin; simpl.

(** X14. Tenant isolation. For a row, of any of the seven tables under the
    policies, of an organization in which the caller has no membership, no
    policy admits SELECT, UPDATE or INSERT; DELETE is admitted only of an
    [inventory_images] row whose [created_by] is the caller. *)
Theorem non_members_are_denied (ss : session) (db : DB) (r : table_row) :
  (forall m, ~ caller_membership ss db (row_organization r) m) ->
  admits_existing SELECT_cmd ss db r = false
  /\ admits_existing UPDATE_cmd ss db r = false
  /\ admits_new INSERT_cmd ss db r = false
  /\ (admits_existing DELETE_cmd ss db r = true ->
      exists img, r = InventoryImagesRow img /\ img_created_by img = auth_uid ss).
Proof.
  intros Hno.
  destruct (non_member_facts ss db _ Hno) as (H1 & H2 & H3 & H4 & H5).
  destruct r; simpl in H1, H2, H3, H4, H5; policy_eval;
    rewrite ?H1, ?H2, ?H3, ?H4, ?H5; simpl;
    (split; [reflexivity | split; [reflexivity | split; [reflexivity |]]]);
    try (intros H; discriminate H).
  rewrite orb_false_r. intros H. exists r. split; [reflexivity |].
  destruct (img_created_by r) as [c |]; [| discriminate H].
  destruct (auth_uid ss) as [u |]; [| discriminate H].
  simpl in H. destruct (Z.eqb_spec c u); [congruence | discriminate H].
Qed.

Lemma non_members_are_denied_witness :
  admits_existing SELECT_cmd as_outsider test_db (InventoryRow test_card) = false
  /\ admits_new INSERT_cmd as_outsider test_db (InventoryRow test_card) = false
  /\ admits_existing SELECT_cmd as_member test_db (InventoryRow test_card) = true.
Proof.
  destruct (non_members_are_denied as_outsider test_db (InventoryRow test_card)
              outsider_not_member) as (H1 & _ & H3 & _).
  split; [exact H1 | split; [exact H3 | reflexivity]].
Defined.

(** ** The permission matrix *)

Lemma caller_role_owner ss db o m :
  keys_ok db = true -> caller_membership ss db o m ->
  is_org_owner ss db o = role_eqb (m_role m) owner.
Proof.
  intros Hk Hm. destruct (role_eqb (m_role m) owner) eqn:Er.
  - apply is_org_owner_iff. exists m. split; [exact Hm | apply role_eqb_eq; exact Er].
  - apply not_true_false. intros H. apply is_org_owner_iff in H as (x & Hx & Hr).
    assert (x = m) as ->; [| rewrite Hr in Er; discriminate Er].
    pose proof (find_caller_membership ss db o x Hk Hx) as E1.
    pose proof (find_caller_membership ss db o m Hk Hm) as E2. congruence.
Qed.

Lemma caller_role_admin ss db o m :
  keys_ok db = true -> caller_membership ss db o m ->
  is_org_admin_or_owner ss db o = negb (role_eqb (m_role m) member).
Proof.
  intros Hk Hm. destruct (role_eqb (m_role m) member) eqn:Er; simpl.
  - apply not_true_false. intros H. apply is_org_admin_or_owner_iff in H as (x & Hx & Hr).
    assert (x = m) as ->; [| apply role_eqb_eq in Er; contradiction].
    pose proof (find_caller_membership ss db o x Hk Hx) as E1.
    pose proof (find_caller_membership ss db o m Hk Hm) as E2. congruence.
  - apply is_org_admin_or_owner_iff. exists m. split; [exact Hm |].
    intros E. rewrite E in Er. discriminate Er.
Qed.

(** X15. The permission matrix, for the caller's membership [m] in a live
    organization (keys distinct). Any member may view, add and edit its live
    inventory and view its transactions, its memberships and the
    organization; deleting inventory, viewing the audit log, managing
    invites and updating the organization are admitted exactly when the role
    is not [member]; updating memberships exactly when it is [owner]; and
    [soft_delete_organization] raises 'Only owners can delete organizations'
    for the other roles. *)
Theorem permission_matrix (ss : session) (db : DB) (org : organization) (m : membership) :
  keys_ok db = true ->
  In org (organizations db) -> org_deleted_at org = None ->
  caller_membership ss db (org_id org) m ->
  let admin_or_owner_role := negb (role_eqb (m_role m) member) in
  let owner_role := role_eqb (m_role m) owner in
  (forall r, inv_organization_id r = org_id org -> inv_deleted_at r = None ->
     admits_existing SELECT_cmd ss db (InventoryRow r) = true
     /\ admits_existing UPDATE_cmd ss db (InventoryRow r) = true)
  /\ (forall r, inv_organization_id r = org_id org ->
        admits_new INSERT_cmd ss db (InventoryRow r) = true
        /\ admits_existing DELETE_cmd ss db (InventoryRow r) = admin_or_owner_role)
  /\ (forall t, t_organization_id t = org_id org ->
        admits_existing SELECT_cmd ss db (TransactionsRow t) = true)
  /\ (forall a, a_organization_id a = org_id org ->
        admits_existing SELECT_cmd ss db (AuditLogRow a) = admin_or_owner_role)
  /\ (forall i, i_organization_id i = org_id org ->
        admits_new INSERT_cmd ss db (InvitesRow i) = admin_or_owner_role
        /\ admits_existing SELECT_cmd ss db (InvitesRow i) = admin_or_owner_role
        /\ admits_existing UPDATE_cmd ss db (InvitesRow i) = admin_or_owner_role
        /\ admits_existing DELETE_cmd ss db (InvitesRow i) = admin_or_owner_role)
  /\ (forall x, m_organization_id x = org_id org ->
        admits_existing SELECT_cmd ss db (MembershipsRow x) = true
        /\ admits_existing UPDATE_cmd ss db (MembershipsRow x) = owner_role)
  /\ admits_existing SELECT_cmd ss db (OrganizationsRow org) = true
  /\ admits_existing UPDATE_cmd ss db (OrganizationsRow org) = admin_or_owner_role
  /\ (owner_role = false ->
      soft_delete_organization ss (org_id org) db
      = (inl Only_owners_can_delete_organizations, db)).
Proof.
  intros Hk Horg Hlive Hm admin_or_owner_role owner_role.
  subst admin_or_owner_role owner_role.
  assert (H1 : uuid_in (org_id org) (get_user_org_ids ss db) = true).
  { apply user_org_ids_iff. split; [exists m; exact Hm | exists org; auto]. }
  pose proof (caller_role_admin ss db _ m Hk Hm) as H2.
  pose proof (caller_role_owner ss db _ m Hk Hm) as H3.
  repeat match goal with |- _ /\ _ => split end.
  - intros r Ho Hl. split; policy_eval; rewrite Ho, H1, Hl; reflexivity.
  - intros r Ho. split; policy_eval.
    + rewrite Ho, H1. reflexivity.
    + rewrite Ho, H2. apply orb_false_r.
  - intros t Ho. policy_eval. rewrite Ho, H1. reflexivity.
  - intros a Ho. policy_eval. rewrite Ho, H2. apply orb_false_r.
  - intros i Ho. repeat split; policy_eval; rewrite Ho, H2; apply orb_false_r.
  - intros x Ho. split; policy_eval.
    + rewrite Ho, H1. reflexivity.
    + rewrite Ho, H3. apply orb_false_r.
  - policy_eval. rewrite H1, Hlive. reflexivity.
  - policy_eval. rewrite H2, Hlive. simpl. rewrite andb_true_r. apply orb_false_r.
  - intros Hr. unfold soft_delete_organization, bind at 1, get at 1.
    change (existsb _ (memberships db)) with (is_org_owner ss db (org_id org)).
    rewrite H3, Hr. reflexivity.
Qed.

Lemma permission_matrix_witness :
  keys_ok test_db = true
  /\ caller_membership as_member test_db 10 test_member
  /\ admits_existing UPDATE_cmd as_member test_db (InventoryRow test_card) = true
  /\ admits_existing DELETE_cmd as_member test_db (InventoryRow test_card) = false
  /\ admits_new INSERT_cmd as_member test_db (InvitesRow test_invite) = false
  /\ soft_delete_organization as_member 10 test_db
     = (inl Only_owners_can_delete_organizations, test_db).
Proof.
  assert (Hm : caller_membership as_member test_db 10 test_member).
  { repeat split. simpl. auto. }
  destruct (permission_matrix as_member test_db test_store test_member eq_refl
              (or_introl eq_refl) eq_refl Hm)
    as (H1 & H2 & _ & _ & H5 & _ & _ & _ & H9).
  split; [reflexivity | split; [exact Hm | split; [| split; [| split]]]].
  - exact (proj2 (H1 test_card eq_refl eq_refl)).
  - exact (proj2 (H2 test_card eq_refl)).
  - exact (proj1 (H5 test_invite eq_refl)).
  - exact (H9 eq_refl).
Defined.

(** ** Client updates and the deletion markers *)

Lemma update_organization_result ss id set db r db' :
  update_organization ss id set db = (inr r, db') ->
  r = option_map (fun OLD => update_updated_at_org ss (set OLD))
                 (find (fun o => org_id o =? id) (organizations db)).
Proof.
  unfold update_organization. intros H. unfold bind at 1, get at 1 in H.
  destruct (find _ (organizations db)) as [OLD |].
  - inv_run H. reflexivity.
  - inversion H. reflexivity.
Qed.

(** X16. No client UPDATE sets or clears a deletion marker. An UPDATE of
    [organizations] that changes a row requires the caller to be admin or
    owner, and the old and the new row to have [deleted_at] NULL. An UPDATE
    of [inventory] that changes a row requires both rows to be live and both
    organizations to be among the caller's [get_user_org_ids()] (an item is
    not moved into somebody else's organization). An UPDATE that returns no
    row changes nothing. *)
Theorem client_updates_keep_rows_live :
  (forall ss id set db NEW db',
     direct_update_organization ss id set db = (inr (Some NEW), db') ->
     exists OLD,
       find (fun o => org_id o =? id) (organizations db) = Some OLD
       /\ NEW = update_updated_at_org ss (set OLD)
       /\ org_deleted_at OLD = None /\ org_deleted_at NEW = None
       /\ is_org_admin_or_owner ss db id = true)
  /\ (forall ss id set db NEW db',
        direct_update_inventory ss id set db = (inr (Some NEW), db') ->
        exists OLD,
          find (fun r => inv_id r =? id) (inventory db) = Some OLD
          /\ NEW = update_updated_at_inv ss (set OLD)
          /\ inv_deleted_at OLD = None /\ inv_deleted_at NEW = None
          /\ uuid_in (inv_organization_id OLD) (get_user_org_ids ss db) = true
          /\ uuid_in (inv_organization_id NEW) (get_user_org_ids ss db) = true)
  /\ (forall ss id set db db',
        direct_update_organization ss id set db = (inr None, db') -> db' = db)
  /\ (forall ss id set db db',
        direct_update_inventory ss id set db = (inr None, db') -> db' = db).
Proof.
  assert (Hnull : forall (x : option timestamptz), is_null x = true -> x = None)
    by (intros [t |] H; [discriminate H | reflexivity]).
  split; [| split; [| split]].
  - intros ss id set db NEW db' H. unfold direct_update_organization in H.
    unfold bind at 1, get at 1 in H.
    destruct (find _ (organizations db)) as [OLD |] eqn:Ef; [| inversion H].
    destruct (admits_existing SELECT_cmd ss db (OrganizationsRow OLD)
              && admits_existing UPDATE_cmd ss db (OrganizationsRow OLD)) eqn:Ea;
      [| inversion H].
    inv_run H.
    match goal with
    | Hu : update_organization _ _ _ _ = _ |- _ =>
        apply update_organization_result in Hu; rewrite Ef in Hu; simpl in Hu;
        injection Hu as ->
    end.
    apply find_some in Ef as Ef'. destruct Ef' as [_ Eid]. apply Z.eqb_eq in Eid.
    apply andb_prop in Ea as [_ Ea]. apply andb_prop in Hreq as [Hreq _].
    revert Ea Hreq. policy_eval. rewrite !orb_false_r. intros Ea Hreq.
    apply andb_prop in Ea as [Ea1 Ea2].
    exists OLD. split; [reflexivity | split; [reflexivity | split; [auto | split]]].
    + apply Hnull. exact Hreq.
    + rewrite <- Eid. exact Ea1.
  - intros ss id set db NEW db' H. unfold direct_update_inventory in H.
    unfold bind at 1, get at 1 in H.
    destruct (find _ (inventory db)) as [OLD |] eqn:Ef; [| inversion H].
    destruct (admits_existing SELECT_cmd ss db (InventoryRow OLD)
              && admits_existing UPDATE_cmd ss db (InventoryRow OLD)) eqn:Ea;
      [| inversion H].
    inv_run H.
    match goal with
    | Hu : update_inventory _ _ _ _ = _ |- _ =>
        apply update_inventory_inr in Hu as [(Hu & _) | (OLD' & Hf & Hr & _)];
          [congruence |]
    end.
    rewrite Ef in Hf. injection Hf as <-. injection Hr as ->.
    match goal with
    | Hp : same_price _ _ || _ = true |- _ => clear Hp
    end.
    match goal with
    | Hq : admits_new _ _ _ _ && _ = true |- _ => rename Hq into Hnew
    end.
    apply andb_prop in Ea as [_ Ea]. apply andb_prop in Hnew as [Hreq _].
    revert Ea Hreq. policy_eval. rewrite !orb_false_r. intros Ea Hreq.
    apply andb_prop in Ea as [Ea1 Ea2]. apply andb_prop in Hreq as [Hr1 Hr2].
    exists OLD.
    split; [reflexivity | split; [reflexivity | split; [auto | split; [| split]]]].
    + apply Hnull. exact Hr2.
    + exact Ea1.
    + exact Hr1.
  - intros ss id set db db' H. unfold direct_update_organization in H.
    unfold bind at 1, get at 1 in H.
    destruct (find _ (organizations db)) as [OLD |] eqn:Ef; [| inversion H; reflexivity].
    destruct (admits_existing SELECT_cmd ss db (OrganizationsRow OLD)
              && admits_existing UPDATE_cmd ss db (OrganizationsRow OLD));
      [| inversion H; reflexivity].
    inv_run H.
    match goal with
    | Hu : update_organization _ _ _ _ = _ |- _ =>
        apply update_organization_result in Hu; rewrite Ef in Hu; discriminate Hu
    end.
  - intros ss id set db db' H. unfold direct_update_inventory in H.
    unfold bind at 1, get at 1 in H.
    destruct (find _ (inventory db)) as [OLD |] eqn:Ef; [| inversion H; reflexivity].
    destruct (admits_existing SELECT_cmd ss db (InventoryRow OLD)
              && admits_existing UPDATE_cmd ss db (InventoryRow OLD));
      [| inversion H; reflexivity].
    inv_run H.
    match goal with
    | Hu : update_inventory _ _ _ _ = _ |- _ =>
        apply update_inventory_inr in Hu as [(Hu & _) | (OLD' & _ & Hr & _)];
          [congruence | discriminate Hr]
    end.
Qed.

(** ** The [updated_at] triggers *)

(** X17. The [update_updated_at] triggers: whatever the SET clause puts in
    [updated_at], the row an UPDATE of [organizations] or [inventory] stores
    and returns has [updated_at = now()], for the procedures and for client
    statements alike. *)
Theorem updated_at_is_stamped (ss : session) (id : uuid) (db db' : DB) :
  (forall set NEW,
     update_organization ss id set db = (inr (Some NEW), db') ->
     org_updated_at NEW = Some (now ss) /\ In NEW (organizations db'))
  /\ (forall set NEW,
        update_inventory ss id set db = (inr (Some NEW), db') ->
        inv_updated_at NEW = Some (now ss) /\ In NEW (inventory db'))
  /\ (forall set NEW,
        direct_update_organization ss id set db = (inr (Some NEW), db') ->
        org_updated_at NEW = Some (now ss) /\ In NEW (organizations db'))
  /\ (forall set NEW,
        direct_update_inventory ss id set db = (inr (Some NEW), db') ->
        inv_updated_at NEW = Some (now ss) /\ In NEW (inventory db')).
Proof.
  assert (Horg : forall set NEW,
            update_organization ss id set db = (inr (Some NEW), db') ->
            org_updated_at NEW = Some (now ss) /\ In NEW (organizations db')).
  { intros set NEW H. pose proof (update_organization_result _ _ _ _ _ _ H) as Hr.
    apply update_organization_inr in H as [[Hn _] | (OLD & Hold & ->)].
    - rewrite Hn in Hr. discriminate Hr.
    - rewrite Hold in Hr. injection Hr as ->. split; [reflexivity |].
      apply find_some in Hold as [Hin Hid]. apply Z.eqb_eq in Hid.
      cbn [organizations]. apply (in_map_replace org_id id _ OLD); assumption. }
  assert (Hinv : forall set NEW,
            update_inventory ss id set db = (inr (Some NEW), db') ->
            inv_updated_at NEW = Some (now ss) /\ In NEW (inventory db')).
  { intros set NEW H.
    apply update_inventory_inr in H as [(_ & Hn & _) | (OLD & Hold & Hr & -> & _)];
      [discriminate Hn |].
    injection Hr as ->. split; [reflexivity |].
    apply find_some in Hold as [Hin Hid]. apply Z.eqb_eq in Hid.
    cbn [inventory]. apply (put_item_in id _ _ OLD); assumption. }
  split; [exact Horg | split; [exact Hinv | split]].
  - intros set NEW H. unfold direct_update_organization in H.
    unfold bind at 1, get at 1 in H.
    destruct (find _ (organizations db)) as [OLD |]; [| inversion H].
    destruct (_ && _); [| inversion H].
    inv_run H. eapply Horg; eassumption.
  - intros set NEW H. unfold direct_update_inventory in H.
    unfold bind at 1, get at 1 in H.
    destruct (find _ (inventory db)) as [OLD |]; [| inversion H].
    destruct (_ && _); [| inversion H].
    inv_run H. eapply Hinv; eassumption.
Qed.

(** ** The audit log is append-only *)

Lemma audit_appended_refl ss db db' :
  audit_log db' = audit_log db -> audit_appended ss db db'.
Proof. intros H. exists []. rewrite app_nil_r. split; [exact H | constructor]. Qed.

Lemma audit_appended_trans ss d1 d2 d3 :
  audit_appended ss d1 d2 -> audit_appended ss d2 d3 -> audit_appended ss d1 d3.
Proof.
  intros (l1 & E1 & F1) (l2 & E2 & F2). exists (l1 ++ l2).
  split; [rewrite E2, E1, app_assoc; reflexivity | apply Forall_app; auto].
Qed.

Section Appends.
Context (ss : session).

Lemma appends_ret {A} (a : A) : appends ss (ret a).
Proof. intros db r db' H. inversion H. now apply audit_appended_refl. Qed.

Lemma appends_raise {A} e : appends ss (@raise A e).
Proof. intros db r db' H. inversion H. now apply audit_appended_refl. Qed.

Lemma appends_get : appends ss get.
Proof. intros db r db' H. inversion H. now apply audit_appended_refl. Qed.

Lemma appends_require ok e : appends ss (require ok e).
Proof. destruct ok; [apply appends_ret | apply appends_raise]. Qed.

Lemma appends_bind {A B} (c : M A) (k : A -> M B) :
  appends ss c -> (forall a, appends ss (k a)) -> appends ss (bind c k).
Proof.
  intros Hc Hk db r db'. unfold bind.
  destruct (c db) as [[e | a] db1] eqn:E; intros H.
  - inversion H; subst. eapply Hc; eauto.
  - apply Hk in H. apply Hc in E. eapply audit_appended_trans; eauto.
Qed.

Lemma appends_modify f :
  (forall db, audit_log (f db) = audit_log db) -> appends ss (modify f).
Proof. intros Hf db r db' H. inversion H. apply audit_appended_refl. apply Hf. Qed.

Lemma appends_gen_random_uuid : appends ss gen_random_uuid.
Proof. intros db r db' H. inversion H. now apply audit_appended_refl. Qed.

Lemma appends_for_each {A} (f : A -> M unit) l :
  (forall x, appends ss (f x)) -> appends ss (for_each f l).
Proof.
  intros Hf. induction l as [| x l IH]; simpl.
  - apply appends_ret.
  - apply appends_bind; [apply Hf | intros _; exact IH].
Qed.

Lemma appends_insert_audit_log o t r op old new by_ :
  by_ = auth_uid ss ->
  appends ss (insert_audit_log ss o t r op old new by_).
Proof.
  intros ->. unfold insert_audit_log.
  apply appends_bind; [apply appends_gen_random_uuid | intros id].
  apply appends_bind; [apply appends_get | intros d].
  destruct o as [o |]; [destruct r as [r |] |]; try apply appends_raise.
  repeat (apply appends_bind; [apply appends_require | intros _]).
  intros db x db' H. inversion H. eexists. split; [reflexivity |].
  constructor; [split; reflexivity | constructor].
Qed.

Lemma appends_transaction {A} (c : M A) db :
  appends ss c -> audit_appended ss db (snd (transaction c db)).
Proof.
  intros Hc. unfold transaction.
  destruct (c db) as [[e | a] db1] eqn:E; simpl; [now apply audit_appended_refl |].
  eapply Hc; eauto.
Qed.
End Appends.

Ltac appends_step :=
  first
    [ apply appends_ret | apply appends_raise | apply appends_get
    | apply appends_require
    | apply appends_modify; intros; reflexivity
    | apply appends_gen_random_uuid
    | apply appends_insert_audit_log; first [reflexivity | symmetry; assumption]
    | apply appends_for_each; intros
    | apply appends_bind; [| intros]
    | match goal with
      | |- appends _ (match ?x with _ => _ end) => destruct x eqn:?
      end ].

Ltac appends_all :=
  unfold create_organization, accept_invite, mark_card_sold, soft_delete_organization,
    leave_organization, direct_insert_inventory, direct_update_inventory,
    direct_delete_inventory, direct_update_membership, direct_insert_invite,
    direct_update_invite, direct_delete_invite, direct_insert_transaction,
    direct_update_organization,
    insert_organization, update_organization, insert_membership, update_membership,
    delete_membership, insert_inventory, update_inventory, delete_inventory,
    insert_transaction, insert_invite, update_invite, delete_invite,
    check_organization, check_membership, check_inventory, check_invite,
    audit_trigger_organizations, audit_trigger;
  repeat appends_step.

Lemma call_appends ss r db : audit_appended ss db (call ss r db).
Proof.
  destruct r; simpl; apply appends_transaction; appends_all.
Qed.

(** X18. The audit log only grows. Every call to a procedure and every
    client statement on inventory, invites, memberships and organizations
    leaves the audit log it found followed by entries whose [changed_by] is
    the caller and whose [changed_at] is [now()]; and no policy admits a
    client INSERT, UPDATE or DELETE on [audit_log]. *)
Theorem audit_log_is_append_only (ss : session) (db : DB) :
  (forall r, audit_appended ss db (call ss r db))
  /\ (forall w, audit_appended ss db (write ss w db))
  /\ (forall w, audit_appended ss db (invite_step ss w db))
  /\ (forall id set,
        audit_appended ss db (snd (transaction (direct_update_membership ss id set) db)))
  /\ (forall id set,
        audit_appended ss db (snd (transaction (direct_update_organization ss id set) db)))
  /\ (forall a,
        admits_new INSERT_cmd ss db (AuditLogRow a) = false
        /\ admits_existing UPDATE_cmd ss db (AuditLogRow a) = false
        /\ admits_existing DELETE_cmd ss db (AuditLogRow a) = false).
Proof.
  split; [| split; [| split; [| split; [| split]]]].
  - intros r. apply call_appends.
  - intros w. destruct w; simpl; apply appends_transaction; appends_all.
  - intros w. destruct w; simpl; try apply call_appends;
      apply appends_transaction; appends_all.
  - intros id set. apply appends_transaction; appends_all.
  - intros id set. apply appends_transaction; appends_all.
  - intros a. repeat split.
Qed.

(** ** Sale records are kept *)

Lemma call_keeps_transactions ss r db t :
  In t (transactions db) -> In t (transactions (call ss r db)).
Proof.
  intros Ht. destruct r as [n s | tk | i p e n | o | o]; simpl.
  - pose proof (preserves_transaction _ _ db (create_organization_frame ss n s)) as Hf.
    injection Hf as _ _ H _. rewrite H. exact Ht.
  - pose proof (preserves_transaction _ _ db (accept_invite_frame ss tk)) as Hf.
    injection Hf as _ _ _ H. rewrite H. exact Ht.
  - unfold transaction.
    destruct (mark_card_sold ss i p e n db) as [[err | t'] db'] eqn:E; simpl; [exact Ht |].
    apply mark_card_sold_inr in E as (item & OLD & _ & _ & _ & _ & ->).
    cbn [transactions]. apply in_or_app. left. exact Ht.
  - pose proof (preserves_transaction _ _ db (soft_delete_organization_frame ss o)) as Hf.
    injection Hf as _ _ _ H _. rewrite H. exact Ht.
  - pose proof (preserves_transaction _ _ db (leave_organization_frame ss o)) as Hf.
    injection Hf as _ _ _ H _. rewrite H. exact Ht.
Qed.

(** X19. A sale record goes only with its item. No sequence of calls to
    the procedures removes a transaction; of the client statements on
    inventory only the DELETE of the item itself does (ON DELETE CASCADE),
    which "Admins delete" leaves to an admin or owner of the item's
    organization, and the item is gone with it. *)
Theorem sale_records_are_kept (ss : session) (db : DB) (t : transaction_row) :
  In t (transactions db) ->
  (forall calls, In t (transactions (run calls db)))
  /\ (forall w,
        In t (transactions (write ss w db))
        \/ exists item,
             w = Remove (t_inventory_id t)
             /\ In item (inventory db) /\ inv_id item = t_inventory_id t
             /\ is_org_admin_or_owner ss db (inv_organization_id item) = true
             /\ item_exists (write ss w db) (t_inventory_id t) = false).
Proof.
  intros Ht. split.
  - intros calls. revert db Ht.
    induction calls as [| [ss' r] rest IH]; simpl; intros db Ht; [exact Ht |].
    apply IH. apply call_keeps_transactions. exact Ht.
  - intros w. destruct w as [i p e n | NEW | id set | id].
    + left. exact (call_keeps_transactions ss (Mark_card_sold i p e n) db t Ht).
    + left. simpl. unfold transaction.
      destruct (direct_insert_inventory ss NEW db) as [[err | u] db'] eqn:E; simpl;
        [exact Ht |].
      unfold direct_insert_inventory in E. inv_run E.
      match goal with
      | Hi : insert_inventory _ _ _ = _ |- _ => apply insert_inventory_inr in Hi as [-> _]
      end.
      exact Ht.
    + left. simpl. unfold transaction.
      destruct (direct_update_inventory ss id set db) as [[err | u] db'] eqn:E; simpl;
        [exact Ht |].
      unfold direct_update_inventory in E. unfold bind at 1, get at 1 in E.
      destruct (find _ (inventory db)) as [OLD |]; [| inversion E; subst; exact Ht].
      destruct (_ && _); [| inversion E; subst; exact Ht].
      inv_run E.
      match goal with
      | Hu : update_inventory _ _ _ _ = _ |- _ =>
          apply update_inventory_inr in Hu as [(_ & _ & ->) | (O & _ & _ & -> & _)]
      end; exact Ht.
    + simpl. unfold transaction.
      destruct (direct_delete_inventory ss id db) as [[err | u] db'] eqn:E; simpl;
        [left; exact Ht |].
      unfold direct_delete_inventory in E. unfold bind at 1, get at 1 in E.
      destruct (find _ (inventory db)) as [OLD |] eqn:Ef;
        [| inversion E; subst; left; exact Ht].
      destruct (admits_existing SELECT_cmd ss db (InventoryRow OLD)
                && admits_existing DELETE_cmd ss db (InventoryRow OLD)) eqn:Ea;
        [| inversion E; subst; left; exact Ht].
      apply delete_inventory_inr in E as [(Hn & _) | (O & _ & ->)]; [congruence |].
      cbn [transactions].
      destruct (Z.eqb_spec (t_inventory_id t) id) as [Eid | Ene].
      * right. exists OLD. apply find_some in Ef as [Hin Hid]. apply Z.eqb_eq in Hid.
        apply andb_prop in Ea as [_ Ea]. revert Ea. policy_eval. rewrite orb_false_r.
        intros Ea. rewrite Eid.
        split; [reflexivity | split; [exact Hin | split; [exact Hid | split; [exact Ea |]]]].
        unfold item_exists. cbn [inventory]. apply existsb_false_forall.
        intros x Hx. apply filter_In in Hx as [_ Hx]. apply negb_true_iff in Hx. exact Hx.
      * left. apply filter_In. split; [exact Ht |].
        apply negb_true_iff. apply Z.eqb_neq. exact Ene.
Qed.

Lemma sale_records_are_kept_witness :
  let db1 := call as_member (Mark_card_sold 100 24999 None None) test_db in
  let t := mk_transaction 1001 10 100 24999 (Some 5) (Some 2) None None (Some 5) in
  In t (transactions db1)
  /\ In t (transactions (run test_calls db1))
  /\ ~ In t (transactions (write as_owner (Remove 100) db1)).
Proof.
  intros db1 t.
  assert (Ht : In t (transactions db1)) by (left; reflexivity).
  destruct (sale_records_are_kept as_owner db1 t Ht) as [H1 _].
  split; [exact Ht | split; [apply H1 |]].
  intros [].
Defined.

(** ** Profiles *)

Lemma co_member_iff ss db u :
  uuid_in u (get_co_member_user_ids ss db) = true
  <-> exists m1 m2 o,
        In m1 (memberships db) /\ In m2 (memberships db) /\ In o (organizations db)
        /\ auth_uid ss = Some (m_user_id m1)
        /\ m_organization_id m1 = m_organization_id m2
        /\ org_id o = m_organization_id m1 /\ org_deleted_at o = None
        /\ m_user_id m2 = u.
Proof.
  unfold uuid_in, get_co_member_user_ids. rewrite existsb_exists. split.
  - intros (x & Hx & E). apply Z.eqb_eq in E. subst x.
    apply nodup_In in Hx. apply in_flat_map in Hx as (m1 & Hm1 & Hx).
    apply in_flat_map in Hx as (m2 & Hm2 & Hx). apply in_flat_map in Hx as (o & Ho & Hx).
    destruct ((m_organization_id m1 =? m_organization_id m2)
              && (org_id o =? m_organization_id m1)
              && is_caller ss (m_user_id m1) && is_null (org_deleted_at o)) eqn:Ec;
      [| destruct Hx].
    destruct Hx as [<- | []].
    apply andb_prop in Ec as [Ec E4]. apply andb_prop in Ec as [Ec E3].
    apply andb_prop in Ec as [E1 E2].
    apply Z.eqb_eq in E1, E2. apply is_caller_iff in E3.
    exists m1, m2, o. repeat split; auto.
    destruct (org_deleted_at o); [discriminate E4 | reflexivity].
  - intros (m1 & m2 & o & Hm1 & Hm2 & Ho & Hu & E1 & E2 & E3 & E4).
    exists u. split; [| apply Z.eqb_refl].
    apply nodup_In. apply in_flat_map. exists m1. split; [exact Hm1 |].
    apply in_flat_map. exists m2. split; [exact Hm2 |].
    apply in_flat_map. exists o. split; [exact Ho |].
    rewrite E1, Z.eqb_refl, E2, E1, Z.eqb_refl, (proj2 (is_caller_iff _ _) Hu), E3.
    simpl. left. exact E4.
Qed.

Ltac profile_eval :=
  unfold profile_admits_existing, profile_admits_new, profiles_policies,
    consolidated_profiles_policies, initial_profiles_policies, profile_applies,
    profile_holds, profile_check_of; simpl;
  unfold own_or_co_member_profile; simpl.

(** X20. The two rewrites of the policies of [profiles]
    ([20260209000002_security_fixes.sql] and [20260209000004_perf_fixes.sql])
    changed nothing: for SELECT, UPDATE and DELETE of an existing row and
    for INSERT and UPDATE of a new row, the three sets of policies admit the
    same rows. *)
Theorem profiles_policies_rewrites_agree (ss : session) (db : DB) (p : profile) :
  (forall c, c = SELECT_cmd \/ c = UPDATE_cmd \/ c = DELETE_cmd ->
     profile_admits_existing consolidated_profiles_policies c ss db p
     = profile_admits_existing initial_profiles_policies c ss db p
     /\ profile_admits_existing profiles_policies c ss db p
        = profile_admits_existing initial_profiles_policies c ss db p)
  /\ (forall c, c = INSERT_cmd \/ c = UPDATE_cmd ->
        profile_admits_new consolidated_profiles_policies c ss db p
        = profile_admits_new initial_profiles_policies c ss db p
        /\ profile_admits_new profiles_policies c ss db p
           = profile_admits_new initial_profiles_policies c ss db p).
Proof.
  split.
  - intros c [-> | [-> | ->]]; profile_eval;
      destruct (own_profile ss db p); destruct (co_member_profile ss db p);
      split; reflexivity.
  - intros c [-> | ->]; profile_eval;
      destruct (own_profile ss db p); destruct (co_member_profile ss db p);
      split; reflexivity.
Qed.

(** X21. A profile is visible to its own user and to the users who have a
    membership in a live organization in which its user has one, and to
    nobody else; it is inserted, updated and deleted by its own user only;
    an anonymous caller is admitted to nothing. *)
Theorem profiles_visibility (ss : session) (db : DB) (p : profile) :
  (profile_admits_existing profiles_policies SELECT_cmd ss db p = true
   <-> auth_uid ss = Some (p_user_id p)
       \/ exists m1 m2 o,
            caller_membership ss db (org_id o) m1
            /\ In m2 (memberships db) /\ m_organization_id m2 = org_id o
            /\ m_user_id m2 = p_user_id p
            /\ In o (organizations db) /\ org_deleted_at o = None)
  /\ (forall c, c = INSERT_cmd \/ c = UPDATE_cmd ->
        (profile_admits_new profiles_policies c ss db p = true
         <-> auth_uid ss = Some (p_user_id p)))
  /\ (forall c, c = UPDATE_cmd \/ c = DELETE_cmd ->
        (profile_admits_existing profiles_policies c ss db p = true
         <-> auth_uid ss = Some (p_user_id p)))
  /\ (auth_uid ss = None ->
      forall c, profile_admits_existing profiles_policies c ss db p = false).
Proof.
  split; [| split; [| split]].
  - profile_eval. rewrite orb_false_r, orb_true_iff.
    unfold own_profile, co_member_profile. rewrite is_caller_iff, co_member_iff.
    split; (intros [H | H]; [left; exact H | right]).
    + destruct H as (m1 & m2 & o & Hm1 & Hm2 & Ho & Hu & E1 & E2 & E3 & E4).
      exists m1, m2, o. unfold caller_membership. repeat split; auto; congruence.
    + destruct H as (m1 & m2 & o & (Hm1 & Hu & E1) & Hm2 & E2 & E3 & Ho & E4).
      exists m1, m2, o. repeat split; auto; congruence.
  - intros c [-> | ->]; profile_eval; rewrite orb_false_r; apply is_caller_iff.
  - intros c [-> | ->]; profile_eval; rewrite orb_false_r; apply is_caller_iff.
  - intros Hanon c.
    assert (Hown : own_profile ss db p = false).
    { apply not_true_false. intros H. apply is_caller_iff in H. congruence. }
    assert (Hco : co_member_profile ss db p = false).
    { apply not_true_false. intros H. apply co_member_iff in H
        as (m1 & _ & _ & _ & _ & _ & Hu & _). congruence. }
    destruct c; profile_eval; rewrite ?Hown, ?Hco; reflexivity.
Qed.

(** X22. Visibility of profiles is mutual: user [a] is admitted to SELECT
    the profile of [b] exactly when [b] is admitted to SELECT the profile
    of [a]. *)
Theorem profiles_visibility_is_mutual (db : DB) (a b : uuid) (ta tb : timestamptz)
    (pa pb : profile) :
  p_user_id pa = a -> p_user_id pb = b ->
  profile_admits_existing profiles_policies SELECT_cmd (mk_session (Some a) ta) db pb
  = profile_admits_existing profiles_policies SELECT_cmd (mk_session (Some b) tb) db pa.
Proof.
  intros Ha Hb.
  assert (Hsym : forall x y tx ty,
            uuid_in y (get_co_member_user_ids (mk_session (Some x) tx) db) = true ->
            uuid_in x (get_co_member_user_ids (mk_session (Some y) ty) db) = true).
  { intros x y tx ty H. apply co_member_iff in H
      as (m1 & m2 & o & Hm1 & Hm2 & Ho & Hu & E1 & E2 & E3 & E4).
    simpl in Hu. injection Hu as Hu.
    apply co_member_iff. exists m2, m1, o. simpl. repeat split; auto; congruence. }
  profile_eval. rewrite !orb_false_r. unfold own_profile, co_member_profile, is_caller.
  simpl. rewrite Ha, Hb, (Z.eqb_sym b a).
  destruct (a =? b); [reflexivity |]. simpl.
  destruct (uuid_in b (get_co_member_user_ids (mk_session (Some a) ta) db)) eqn:E1;
    destruct (uuid_in a (get_co_member_user_ids (mk_session (Some b) tb) db)) eqn:E2;
    try reflexivity.
  - apply (Hsym a b ta tb) in E1. congruence.
  - apply (Hsym b a tb ta) in E2. congruence.
Qed.

Lemma profiles_visibility_is_mutual_witness :
  profile_admits_existing profiles_policies SELECT_cmd as_owner test_db member_profile
  = profile_admits_existing profiles_policies SELECT_cmd as_member test_db owner_profile
  /\ profile_admits_existing profiles_policies SELECT_cmd as_member test_db owner_profile
     = true
  /\ profile_admits_existing profiles_policies SELECT_cmd as_outsider test_db owner_profile
     = false.
Proof.
  split; [| split; reflexivity].
  exact (profiles_visibility_is_mutual test_db 1 2 5 5 owner_profile member_profile
           eq_refl eq_refl).
Defined.

(** ** The rewrite of the [inventory_images] policies *)

Lemma member_org_ids_eq ss db o :
  uuid_in o (member_org_ids ss db) = uuid_in o (get_user_org_ids ss db).
Proof.
  destruct (uuid_in o (get_user_org_ids ss db)) eqn:E.
  - pose proof E as E'. apply user_org_ids_iff in E' as [(m & Hm & Hu & Ho) _].
    unfold uuid_in, member_org_ids. apply existsb_exists. exists o.
    split; [| apply Z.eqb_refl]. apply in_map_iff. exists m. split; [exact Ho |].
    apply filter_In. split; [exact Hm |].
    rewrite Ho, E, (proj2 (is_caller_iff _ _) Hu). reflexivity.
  - apply member_org_ids_exclude_soft_deleted. exact E.
Qed.

Lemma admin_org_ids_eq ss db o :
  uuid_in o (admin_org_ids ss db)
  = uuid_in o (get_user_org_ids ss db) && is_org_admin_or_owner ss db o.
Proof.
  destruct (uuid_in o (get_user_org_ids ss db)) eqn:E; simpl.
  - destruct (is_org_admin_or_owner ss db o) eqn:Ea.
    + unfold is_org_admin_or_owner in Ea. apply existsb_exists in Ea as (m & Hm & Hp).
      apply andb_prop in Hp as [Hp Hr]. apply andb_prop in Hp as [Hc Ho].
      apply Z.eqb_eq in Ho.
      unfold uuid_in, admin_org_ids. apply existsb_exists. exists o.
      split; [| apply Z.eqb_refl]. apply in_map_iff. exists m. split; [exact Ho |].
      apply filter_In. split; [exact Hm |]. rewrite Ho, E, Hc, Hr. reflexivity.
    + apply not_true_false. intros H. unfold uuid_in, admin_org_ids in H.
      apply existsb_exists in H as (x & Hx & Ex). apply Z.eqb_eq in Ex. subst x.
      apply in_map_iff in Hx as (m & Ho & Hm). apply filter_In in Hm as [Hm Hp].
      apply andb_prop in Hp as [Hp Hr]. apply andb_prop in Hp as [_ Hc].
      assert (is_org_admin_or_owner ss db o = true); [| congruence].
      unfold is_org_admin_or_owner. apply existsb_exists. exists m.
      split; [exact Hm |]. rewrite Hc, Ho, Z.eqb_refl, Hr. reflexivity.
  - apply admin_org_ids_subset. exact E.
Qed.

(** X23. What [20260209000004_perf_fixes.sql] changed of the policies of
    [inventory_images]. SELECT, UPDATE and INSERT admit the same rows as the
    policies of the initial schema; DELETE admits no more than before, and
    less only for an admin or owner of an organization that is not among
    their [get_user_org_ids()], that is, a soft-deleted one. *)
Theorem inventory_images_policies_rewrite (ss : session) (db : DB) (img : inventory_image) :
  let r := InventoryImagesRow img in
  admits_existing SELECT_cmd ss db r
  = admits_existing_under initial_inventory_images_policies SELECT_cmd ss db r
  /\ admits_existing UPDATE_cmd ss db r
     = admits_existing_under initial_inventory_images_policies UPDATE_cmd ss db r
  /\ admits_new INSERT_cmd ss db r
     = admits_new_under initial_inventory_images_policies INSERT_cmd ss db r
  /\ (admits_existing DELETE_cmd ss db r = true ->
      admits_existing_under initial_inventory_images_policies DELETE_cmd ss db r = true)
  /\ (admits_existing_under initial_inventory_images_policies DELETE_cmd ss db r = true ->
      admits_existing DELETE_cmd ss db r = false ->
      is_org_admin_or_owner ss db (img_organization_id img) = true
      /\ uuid_in (img_organization_id img) (get_user_org_ids ss db) = false).
Proof.
  intros r. subst r.
  unfold admits_existing_under, admits_new_under, initial_inventory_images_policies.
  policy_eval. unfold uploader_or_org_admin. simpl.
  rewrite member_org_ids_eq, admin_org_ids_eq, !orb_false_r.
  split; [reflexivity | split; [reflexivity | split; [reflexivity | split]]].
  - intros H. apply orb_true_iff in H as [H | H]; [rewrite H; reflexivity |].
    apply andb_prop in H as [_ H]. rewrite H. apply orb_true_r.
  - destruct (is_true _); [intros _ H; discriminate H |]. simpl.
    intros H1 H2. rewrite H1 in *. rewrite andb_true_r in H2. auto.
Qed.

(** ** The shape of a slug *)

Lemma slug_char_lower c : is_slug_char c = true -> lower_ascii c = c.
Proof.
  unfold is_slug_char, is_lower_alnum, in_range, lower_ascii. intros H.
  destruct ((65 <=? nat_of_ascii c)%nat && (nat_of_ascii c <=? 90)%nat) eqn:E;
    [| reflexivity].
  exfalso. apply orb_true_iff in H as [H | H].
  - apply andb_prop in E as [E1 E2]. apply Nat.leb_le in E1, E2.
    apply orb_true_iff in H as [H | H]; apply andb_prop in H as [H1 H2];
      apply Nat.leb_le in H1, H2; lia.
  - apply Ascii.eqb_eq in H. subst c. vm_compute in E. discriminate E.
Qed.

Lemma lower_fixed s :
  forallb is_slug_char (list_ascii_of_string s) = true -> lower s = s.
Proof.
  induction s as [| c s IH]; simpl; [reflexivity |].
  intros H. apply andb_prop in H as [Hc Hs].
  rewrite (slug_char_lower c Hc), (IH Hs). reflexivity.
Qed.

Lemma length_list_ascii s : List.length (list_ascii_of_string s) = String.length s.
Proof. induction s as [| c s IH]; simpl; [reflexivity | now rewrite IH]. Qed.

(** X24. A slug that [slug_format] accepts has between 2 and 32
    characters, all of them in [[a-z0-9-]], is its own lower-case form, and
    neither begins nor ends with a hyphen. *)
Theorem slug_format_shape (s : string) :
  slug_format s = true ->
  (2 <= String.length s <= 32)%nat
  /\ forallb is_slug_char (list_ascii_of_string s) = true
  /\ lower s = s
  /\ (exists c rest, s = String c rest /\ c <> "-"%char)
  /\ (exists body c, list_ascii_of_string s = body ++ [c] /\ c <> "-"%char).
Proof.
  unfold slug_format. intros H.
  assert (Halnum : forall c, is_lower_alnum c = true ->
                             is_slug_char c = true /\ c <> "-"%char).
  { intros c Hc. split; [unfold is_slug_char; rewrite Hc; reflexivity |].
    intros ->. discriminate Hc. }
  rewrite <- length_list_ascii.
  destruct s as [| c s']; [discriminate H |]. simpl list_ascii_of_string in *.
  apply andb_prop in H as [Hc H].
  destruct (rev (list_ascii_of_string s')) as [| last middle] eqn:Er; [discriminate H |].
  apply andb_prop in H as [H Hlen]. apply andb_prop in H as [Hlast Hmid].
  apply Nat.leb_le in Hlen.
  assert (Hrest : list_ascii_of_string s' = rev middle ++ [last]).
  { rewrite <- (rev_involutive (list_ascii_of_string s')), Er. reflexivity. }
  destruct (Halnum c Hc) as [Hc1 Hc2]. destruct (Halnum last Hlast) as [Hl1 Hl2].
  assert (Hall : forallb is_slug_char (c :: list_ascii_of_string s') = true).
  { simpl. rewrite Hc1, Hrest, forallb_app. simpl. rewrite Hl1.
    rewrite forallb_forall in *. rewrite andb_true_r. apply forallb_forall.
    intros x Hx. apply Hmid. apply in_rev. exact Hx. }
  split; [| split; [exact Hall | split; [| split]]].
  - simpl. rewrite Hrest, length_app, length_rev. simpl. lia.
  - apply (lower_fixed (String c s')). exact Hall.
  - exists c, s'. split; [reflexivity | exact Hc2].
  - exists (c :: rev middle), last. rewrite Hrest. split; [reflexivity | exact Hl2].
Qed.

Lemma slug_format_shape_witness :
  slug_format "moody-cards" = true
  /\ (2 <= String.length "moody-cards" <= 32)%nat
  /\ lower "moody-cards" = "moody-cards".
Proof.
  destruct (slug_format_shape "moody-cards" eq_refl) as (H1 & _ & H3 & _).
  split; [reflexivity | split; assumption].
Defined.

(** ** A revoked invite *)

Lemma call_keeps_revoked ss r db t :
  (exists v, invite_by_token db t = Some v /\ i_revoked_at v <> None) ->
  exists v, invite_by_token (call ss r db) t = Some v /\ i_revoked_at v <> None.
Proof.
  intros (v & Hv & Hr).
  assert (Hsame : forall d, invites d = invites db ->
            exists v, invite_by_token d t = Some v /\ i_revoked_at v <> None).
  { intros d Hd. exists v. unfold invite_by_token in *. rewrite Hd. auto. }
  destruct r as [n s | tk | i p e n | o | o]; simpl.
  - apply Hsame. apply (preserves_transaction invites), create_organization_invites.
  - unfold transaction.
    destruct (accept_invite ss tk db) as [[err | m] db'] eqn:E; simpl; [exists v; auto |].
    apply accept_invite_inr in E as (v' & u & _ & _ & _ & _ & _ & _ & _ & _ & _ & Hinv).
    exists (if i_id v =? i_id v' then set_accepted_at (Some (now ss)) v else v).
    split.
    + unfold invite_by_token. rewrite Hinv.
      apply (accepted_invite_by_token db t v
               (fun i => if i_id i =? i_id v' then set_accepted_at (Some (now ss)) i else i));
        [exact Hv |].
      intros i. destruct (i_id i =? i_id v'); reflexivity.
    + destruct (i_id v =? i_id v'); exact Hr.
  - apply Hsame. apply (preserves_transaction invites), mark_card_sold_invites.
  - apply Hsame. apply (preserves_transaction invites), soft_delete_organization_invites.
  - apply Hsame. apply (preserves_transaction invites), leave_organization_invites.
Qed.

(** X25. A revoked invite stays revoked through the procedures: after any
    sequence of calls, [accept_invite] with its token raises 'Invite has
    been revoked', for any caller, and adds no membership. *)
Theorem revoked_invite_is_never_accepted (calls : list (session * rpc)) (db : DB)
    (p_token : string) (v : invite) :
  invite_by_token db p_token = Some v -> i_revoked_at v <> None ->
  forall ss,
    accept_invite ss p_token (run calls db) = (inl Invite_has_been_revoked, run calls db)
    /\ memberships (call ss (Accept_invite p_token) (run calls db))
       = memberships (run calls db).
Proof.
  intros Hv Hr ss.
  assert (H : exists v, invite_by_token (run calls db) p_token = Some v
                        /\ i_revoked_at v <> None).
  { assert (H0 : exists v, invite_by_token db p_token = Some v /\ i_revoked_at v <> None)
      by (exists v; auto).
    clear Hv Hr. revert db H0.
    induction calls as [| [ss' r] rest IH]; simpl; intros db H0; [exact H0 |].
    apply IH. apply call_keeps_revoked. exact H0. }
  destruct H as (v' & Hv' & Hr').
  assert (E : accept_invite ss p_token (run calls db)
              = (inl Invite_has_been_revoked, run calls db)).
  { unfold invite_by_token in Hv'. unfold accept_invite, bind at 1, get at 1.
    rewrite Hv', (proj2 (is_not_null_true _) Hr'). reflexivity. }
  split; [exact E |].
  simpl. unfold transaction. rewrite E. reflexivity.
Qed.

Lemma revoked_invite_is_never_accepted_witness :
  let db := set_invites [set_revoked_at (Some 3) test_invite] test_db in
  accept_invite as_outsider "token-1" (run test_calls db)
  = (inl Invite_has_been_revoked, run test_calls db).
Proof.
  intros db.
  refine (proj1 (revoked_invite_is_never_accepted test_calls db "token-1"
                   (set_revoked_at (Some 3) test_invite) eq_refl _ as_outsider)).
  discriminate.
Defined.

(** ** Roles are changed by owners only *)

(** X26. Memberships are changed by owners only. A client UPDATE of a
    membership of an organization of which the caller is not an owner
    affects no row, the caller's own membership included; an UPDATE that
    changes a row requires the caller to be an owner of the organization of
    the old row and of that of the new row, the latter live; and no policy
    admits a client INSERT or DELETE on [memberships]. *)
Theorem roles_are_changed_by_owners_only (ss : session) (db : DB) (id : uuid)
    (set : membership -> membership) :
  (forall OLD,
     find (fun m => m_id m =? id) (memberships db) = Some OLD ->
     is_org_owner ss db (m_organization_id OLD) = false ->
     direct_update_membership ss id set db = (inr None, db))
  /\ (forall NEW db',
        direct_update_membership ss id set db = (inr (Some NEW), db') ->
        exists OLD,
          find (fun m => m_id m =? id) (memberships db) = Some OLD
          /\ NEW = set OLD
          /\ is_org_owner ss db (m_organization_id OLD) = true
          /\ is_org_owner ss db (m_organization_id NEW) = true
          /\ uuid_in (m_organization_id NEW) (get_user_org_ids ss db) = true)
  /\ (forall m, admits_new INSERT_cmd ss db (MembershipsRow m) = false
                /\ admits_existing DELETE_cmd ss db (MembershipsRow m) = false).
Proof.
  split; [| split].
  - intros OLD Hf Hno. unfold direct_update_membership, bind at 1, get at 1.
    rewrite Hf.
    assert (E : admits_existing UPDATE_cmd ss db (MembershipsRow OLD) = false).
    { policy_eval. rewrite Hno. reflexivity. }
    rewrite E, andb_false_r. reflexivity.
  - intros NEW db' H. unfold direct_update_membership in H.
    unfold bind at 1, get at 1 in H.
    destruct (find _ (memberships db)) as [OLD |] eqn:Ef; [| inversion H].
    destruct (admits_existing SELECT_cmd ss db (MembershipsRow OLD)
              && admits_existing UPDATE_cmd ss db (MembershipsRow OLD)) eqn:Ea;
      [| inversion H].
    inv_run H.
    match goal with
    | Hu : update_membership _ _ _ _ = _ |- _ =>
        apply update_membership_inr in Hu as [(Hn & _) | (OLD' & Hf & Hr & _)];
          [congruence |]
    end.
    rewrite Ef in Hf. injection Hf as <-. injection Hr as ->.
    apply andb_prop in Ea as [_ Ea]. apply andb_prop in Hreq as [Hr1 Hr2].
    revert Ea Hr1 Hr2. policy_eval. rewrite !orb_false_r. intros Ea Hr1 Hr2.
    exists OLD. repeat split; assumption.
  - intros m. apply memberships_no_direct_insert_or_delete.
Qed.

(** ** The assertions of the pgTAP test

    The row-level-security and [leave_organization] assertions of
    [supabase/tests], on the fixtures of the test. *)
Example pgtap_assertions :
  admits_existing SELECT_cmd as_owner test_db (OrganizationsRow test_store) = true
  /\ admits_existing SELECT_cmd as_outsider test_db (OrganizationsRow test_store) = false
  /\ admits_existing SELECT_cmd as_member test_db (InventoryRow test_card) = true
  /\ admits_existing SELECT_cmd as_outsider test_db (InventoryRow test_card) = false
  /\ List.length (filter (fun m => admits_existing SELECT_cmd as_owner test_db
                                                      (MembershipsRow m))
                          (memberships test_db)) = 2%nat
  /\ List.length (filter (fun m => admits_existing SELECT_cmd as_outsider test_db
                                                      (MembershipsRow m))
                          (memberships test_db)) = 0%nat
  /\ (exists db', transaction (leave_organization as_member 10) test_db = (inr tt, db'))
  /\ transaction (leave_organization as_owner 10) test_db
     = (inl Cannot_leave_only_owner, test_db)
  /\ admits_existing SELECT_cmd as_owner test_db (AuditLogRow test_audit_entry) = true
  /\ admits_existing SELECT_cmd as_outsider test_db (AuditLogRow test_audit_entry) = false
  /\ admits_existing SELECT_cmd as_owner deleted_db
       (OrganizationsRow (set_deleted_at (Some 3) test_store)) = false.
Proof.
  repeat split. eexists. reflexivity.
Qed.
